(** * The dependency and license summary tool (tools/dependency_summary.py)

    A shallow embedding of the license-determination and grouping engine of
    [dependency_summary.py], followed by the properties that its
    specification states about it.

    Conventions of the embedding.
    - A Python [str] is a [string]; a character stands for the code point of
      the same number, so the development covers the texts over the first
      256 code points (ASCII and Latin-1).  [isspace] and [lower] follow
      Python on that range.
    - A Python exception is a value of [exn]; a function that may raise
      returns a [result].
    - A dictionary decoded from JSON is a [gmap string value]; a [set] of
      strings is a [gset string]; a dictionary whose iteration order is
      observed is an association list in insertion order.
    - Calls that leave the process (directory listing, file reads, HTTP) are
      nodes of an [io] tree, run against an explicit [world]. *)

From Stdlib Require Import ZArith NArith Ascii List Bool Lia.
From Stdlib Require String.
From stdpp Require Import gmap strings list sorting.

Local Open Scope list_scope.

(** ** Exceptions and results *)

Inductive exn : Type :=
| RuntimeError (msg : string)
| AssertionError (msg : string)
| KeyError (key : string)
| TypeError (msg : string)
| HTTPError (status : Z)
| IndexError
| UnicodeDecodeError
| OSError (path : string).

Inductive result (A : Type) : Type :=
| Ok (a : A)
| Raise (e : exn).

Arguments Ok {A} a.
Arguments Raise {A} e.

#[global] Instance result_ret : MRet result := λ A a, Ok a.

#[global] Instance result_bind : MBind result := λ A B f r,
  match r with
  | Ok a => f a
  | Raise e => Raise e
  end.

Definition is_ok {A : Type} (r : result A) : bool :=
  match r with Ok _ => true | Raise _ => false end.

(** ** Characters and strings as Python has them *)

Module Py.

(** [str.isspace] on one character, which is also what [\s] matches. *)
Definition isspace (c : ascii) : bool :=
  let n := N_of_ascii c in
  ((9 <=? n) && (n <=? 13) || (28 <=? n) && (n <=? 32)
   || (n =? 133) || (n =? 160))%N.

(** [str.lower] on one character. *)
Definition lower_char (c : ascii) : ascii :=
  let n := N_of_ascii c in
  if ((65 <=? n) && (n <=? 90)
      || (192 <=? n) && (n <=? 222) && negb (n =? 215))%N
  then ascii_of_N (n + 32) else c.

Fixpoint lower (s : string) : string :=
  match s with
  | EmptyString => EmptyString
  | String c s' => String (lower_char c) (lower s')
  end.

Fixpoint lstrip (s : string) : string :=
  match s with
  | EmptyString => EmptyString
  | String c s' => if isspace c then lstrip s' else s
  end.

Fixpoint rstrip (s : string) : string :=
  match s with
  | EmptyString => EmptyString
  | String c s' =>
      match rstrip s' with
      | EmptyString => if isspace c then EmptyString else String c EmptyString
      | t => String c t
      end
  end.

(** [s.strip()] *)
Definition strip (s : string) : string := rstrip (lstrip s).

(** ["".join(s.split())]: the text without its whitespace. *)
Fixpoint remove_whitespace (s : string) : string :=
  match s with
  | EmptyString => EmptyString
  | String c s' =>
      if isspace c then remove_whitespace s' else String c (remove_whitespace s')
  end.

(** [s.startswith(p)] *)
Fixpoint startswith (s p : string) {struct p} : bool :=
  match p, s with
  | EmptyString, _ => true
  | String _ _, EmptyString => false
  | String a p', String b s' => if Ascii.eqb a b then startswith s' p' else false
  end.



(** [s.endswith(p)] *)
Definition endswith (s p : string) : bool :=
  startswith (String.rev s) (String.rev p).

(** [p in s] for strings. *)
Fixpoint contains (s p : string) : bool :=
  startswith s p
  || match s with
     | EmptyString => false
     | String _ s' => contains s' p
     end.

(** [sep.join(l)] *)
Fixpoint join (sep : string) (l : list string) : string :=
  match l with
  | [] => EmptyString
  | [x] => x
  | x :: l' => x +:+ sep +:+ join sep l'
  end.

End Py.

(** ** Regular expressions: the part of [re] that the tool uses

    A backtracking matcher in continuation-passing style: alternatives are
    tried left to right and a star takes as many characters as it can before
    giving some back, which is the order in which [re] explores a pattern. *)

Inductive regex : Type :=
| Chr (p : ascii → bool)          (* one character of a class *)
| Star (p : ascii → bool)         (* greedy repetition of a class *)
| Cat (r1 r2 : regex)
| Alt (r1 r2 : regex).

Definition is_char (a : ascii) : ascii → bool := Ascii.eqb a.

Fixpoint re_match (r : regex) (s : string) (k : string → option string)
  : option string :=
  match r with
  | Chr p =>
      match s with
      | String c s' => if p c then k s' else None
      | EmptyString => None
      end
  | Star p =>
      (fix star (s : string) : option string :=
         match s with
         | String c s' =>
             if p c
             then match star s' with
                  | Some t => Some t
                  | None => k s
                  end
             else k s
         | EmptyString => k s
         end) s
  | Cat r1 r2 => re_match r1 s (fun s' => re_match r2 s' k)
  | Alt r1 r2 =>
      match re_match r1 s k with
      | Some t => Some t
      | None => re_match r2 s k
      end
  end.

(** The number of characters that a match of [r] at the head of [s] takes. *)
Definition match_length (r : regex) (s : string) : option nat :=
  match re_match r s Some with
  | Some rest => Some (String.length s - String.length rest)
  | None => None
  end.

(** [re.split(r, s)] for a pattern without groups.  [skip] counts the
    characters of the current separator that are still to be passed over and
    [cur] holds the piece read so far, last character first. *)
Fixpoint split_from (r : regex) (s : string) (skip : nat) (cur : string)
  : list string :=
  match s with
  | EmptyString => [String.rev cur]
  | String c s' =>
      match skip with
      | S n => split_from r s' n cur
      | O =>
          match match_length r s with
          | Some (S n) => String.rev cur :: split_from r s' n EmptyString
          | _ => split_from r s' 0 (String c cur)
          end
      end
  end.

Definition re_split (r : regex) (s : string) : list string :=
  split_from r s 0 EmptyString.

(** ** The license preference policy *)

Definition LICENSES_IN_PREFERENCE_ORDER : list string :=
  [ "MPL-2.0"; "Apache-2.0"; "MIT"; "CC0-1.0"; "ISC"; "BSD-2-Clause";
    "BSD-3-Clause"; "Zlib"; "Unicode-3.0"; "EXT-OPENSSL"; "EXT-SQLITE" ].

(** [(?:/|\sOR\s)\s*], the pattern after its leading [\s*]. *)
Definition separator_core : regex :=
  Cat (Alt (Chr (is_char "/"%char))
           (Cat (Chr Py.isspace)
              (Cat (Chr (is_char "O"%char))
                 (Cat (Chr (is_char "R"%char)) (Chr Py.isspace)))))
      (Star Py.isspace).

(** [r"\s*(?:/|\sOR\s)\s*"] *)
Definition LICENSE_SEPARATOR : regex := Cat (Star Py.isspace) separator_core.



(** [set(l.strip() for l in re.split(..., licenseId))] *)
Definition license_candidates (licenseId : string) : gset string :=
  list_to_set (Py.strip <$> re_split LICENSE_SEPARATOR licenseId).

(** The loop [for license in prefs: if license in licenses: return license]. *)
Fixpoint first_acceptable (prefs : list string) (licenses : gset string)
  : option string :=
  match prefs with
  | [] => None
  | license :: prefs' =>
      if bool_decide (license ∈ licenses) then Some license
      else first_acceptable prefs' licenses
  end.

Definition pick_most_acceptable_license (id licenseId : string) : result string :=
  if String.eqb licenseId "(Apache-2.0 OR MIT) AND BSD-3-Clause" then Ok licenseId
  else if String.eqb licenseId "(MIT OR Apache-2.0) AND Unicode-3.0" then Ok licenseId
  else
    let licenses := license_candidates licenseId in
    match first_acceptable LICENSES_IN_PREFERENCE_ORDER licenses with
    | Some license => Ok license
    | None =>
        Raise (RuntimeError
                 ("Could not determine acceptable license for " +:+ id
                  +:+ "; license is '" +:+ licenseId +:+ "'"))
    end.

(** ** Package records

    [cargo metadata] describes a package by a JSON object, whose fields hold
    a string, [None], an array or an object.  The fields that the tool reads
    or corrects hold a string or [None]; an array or an object is kept as
    [VOther], with the text that [str()] prints for it. *)

Inductive scalar : Type :=
| SNone
| SStr (s : string).

Inductive value : Type :=
| VNone
| VStr (s : string)
| VOther (shown : string).

#[global] Instance value_eq_dec : EqDecision value.
Proof. solve_decision. Defined.

#[global] Instance value_countable : Countable value :=
  inj_countable'
    (λ v, match v with
          | VNone => inl tt
          | VStr s => inr (inl s)
          | VOther shown => inr (inr shown)
          end)
    (λ x, match x with
          | inl _ => VNone
          | inr (inl s) => VStr s
          | inr (inr shown) => VOther shown
          end)
    (λ v, match v with
          | VNone => eq_refl
          | VStr _ => eq_refl
          | VOther _ => eq_refl
          end).

Definition of_scalar (x : scalar) : value :=
  match x with
  | SNone => VNone
  | SStr s => VStr s
  end.

(** [v == x], for a value [x] that is [None] or a string. *)
Definition value_eq_scalar (v : value) (x : scalar) : bool :=
  match v, x with
  | VNone, SNone => true
  | VStr s, SStr t => String.eqb s t
  | _, _ => false
  end.

(** [str(v)], as [format] prints a value. *)
Definition str (v : value) : string :=
  match v with
  | VNone => "None"
  | VStr s => s
  | VOther shown => shown
  end.

(** [info.get(key)] *)
Definition get (info : gmap string value) (key : string) : value :=
  default VNone (info !! key).

(** [info[key]] *)
Definition getitem (info : gmap string value) (key : string) : result value :=
  match info !! key with
  | Some v => Ok v
  | None => Raise (KeyError key)
  end.

(** [info[key]] where the tool goes on to use the value as a string. *)
Definition getstr (info : gmap string value) (key : string) : result string :=
  v ← getitem info key;
  match v with
  | VStr s => Ok s
  | _ => Raise (TypeError key)
  end.

(** [hash(key)], which a dictionary and a set compute for a key before they
    look it up: an array and an object cannot be hashed. *)
Definition hash_key (key : value) : result unit :=
  match key with
  | VOther _ => Raise (TypeError "unhashable type")
  | _ => Ok tt
  end.

(** A dictionary in insertion order, and [d[key]] / [key in d] on it. *)
Fixpoint assoc {A : Type} (key : string) (d : list (string * A)) : option A :=
  match d with
  | [] => None
  | (k, a) :: d' => if String.eqb key k then Some a else assoc key d'
  end.

(** [key in s] for a set [s] of strings, and the entry of [key] in a
    dictionary [d] whose keys are strings ([None] when [key in d] is false):
    [None] and a string can be hashed, and only a string can be found. *)
Definition in_set (key : value) (s : gset string) : result bool :=
  _ ← hash_key key;
  Ok (match key with
      | VStr k => bool_decide (k ∈ s)
      | _ => false
      end).

Definition assoc_value {A : Type} (key : value) (d : list (string * A))
  : result (option A) :=
  _ ← hash_key key;
  Ok (match key with
      | VStr k => assoc k d
      | _ => None
      end).

Definition DQUOTE : string := String "034"%char EmptyString.
Definition LF : string := String "010"%char EmptyString.

(** ** Static policy tables *)

Definition EXCLUDED_PACKAGES : gset string :=
  list_to_set [ "cloudabi"; "fuchsia-cprng"; "fuchsia-zircon"; "fuchsia-zircon-sys" ].

Definition EXTRA_PACKAGE_METADATA : list (string * gmap string value) := [
  ("ext-jna",
    list_to_map
    [ ("name", VStr "jna");
      ("repository", VStr "https://github.com/java-native-access/jna");
      ("license", VStr "Apache-2.0");
      ("license_file", VStr "https://raw.githubusercontent.com/java-native-access/jna/master/AL2.0") ]);
  ("ext-protobuf",
    list_to_map
    [ ("name", VStr "protobuf");
      ("repository", VStr "https://github.com/protocolbuffers/protobuf");
      ("license", VStr "BSD-3-Clause");
      ("license_file", VStr "https://raw.githubusercontent.com/protocolbuffers/protobuf/master/LICENSE") ]);
  ("ext-swift-keychain-wrapper",
    list_to_map
    [ ("name", VStr "SwiftKeychainWrapper");
      ("repository", VStr "https://github.com/jrendel/SwiftKeychainWrapper");
      ("license", VStr "MIT");
      ("license_file", VStr "https://raw.githubusercontent.com/jrendel/SwiftKeychainWrapper/develop/LICENSE") ]);
  ("ext-nss",
    list_to_map
    [ ("name", VStr "NSS");
      ("repository", VStr "https://hg.mozilla.org/projects/nss");
      ("license", VStr "MPL-2.0");
      ("license_file", VStr "https://hg.mozilla.org/projects/nss/raw-file/tip/COPYING") ]);
  ("ext-nspr",
    list_to_map
    [ ("name", VStr "NSPR");
      ("repository", VStr "https://hg.mozilla.org/projects/nspr");
      ("license", VStr "MPL-2.0");
      ("license_file", VStr "https://hg.mozilla.org/projects/nspr/raw-file/tip/LICENSE") ]);
  ("ext-openssl",
    list_to_map
    [ ("name", VStr "openssl");
      ("repository", VStr "https://www.openssl.org/source/");
      ("license", VStr "EXT-OPENSSL");
      ("license_file", VStr "https://openssl-library.org/source/license/license-openssl-ssleay.txt");
      ("license_url", VStr "https://www.openssl.org/source/license.html") ]);
  ("ext-ring",
    list_to_map
    [ ("name", VStr "ring");
      ("repository", VStr "https://github.com/briansmith/ring");
      ("license", VStr "ISC");
      ("license_file", VStr "https://raw.githubusercontent.com/briansmith/ring/master/LICENSE");
      ("license_url", VStr "https://github.com/briansmith/ring/blob/master/LICENSE");
      ("license_text", VStr (Py.join LF
        [ "";
          "Copyright 2015-2016 Brian Smith.";
          "";
          "Permission to use, copy, modify, and/or distribute this software for any";
          "purpose with or without fee is hereby granted, provided that the above";
          "copyright notice and this permission notice appear in all copies.";
          "";
          "THE SOFTWARE IS PROVIDED " +:+ DQUOTE +:+ "AS IS" +:+ DQUOTE +:+ " AND THE AUTHORS DISCLAIM ALL WARRANTIES";
          "WITH REGARD TO THIS SOFTWARE INCLUDING ALL IMPLIED WARRANTIES OF";
          "MERCHANTABILITY AND FITNESS. IN NO EVENT SHALL THE AUTHORS BE LIABLE FOR ANY";
          "SPECIAL, DIRECT, INDIRECT, OR CONSEQUENTIAL DAMAGES OR ANY DAMAGES";
          "WHATSOEVER RESULTING FROM LOSS OF USE, DATA OR PROFITS, WHETHER IN AN ACTION";
          "OF CONTRACT, NEGLIGENCE OR OTHER TORTIOUS ACTION, ARISING OUT OF OR IN";
          "CONNECTION WITH THE USE OR PERFORMANCE OF THIS SOFTWARE.";
          "" ])) ]);
  ("ext-sqlite",
    list_to_map
    [ ("name", VStr "sqlite");
      ("repository", VStr "https://www.sqlite.org/");
      ("license", VStr "EXT-SQLITE");
      ("license_file", VStr "https://sqlite.org/copyright.html");
      ("license_text", VStr "This software makes use of the 'SQLite' database engine, and we are very grateful to D. Richard Hipp and team for producing it.") ]) ].

Definition PACKAGES_WITH_EXTRA_DEPENDENCIES : list (string * list string) :=
  [ ("nss_sys", [ "ext-nss"; "ext-nspr" ]);
    ("openssl-sys", [ "ext-openssl" ]);
    ("rusqlite", [ "ext-sqlite" ]);
    ("rc_crypto", [ "ext-ring" ]) ].

(** One entry of [PACKAGE_METADATA_FIXUPS]: the value that [cargo metadata] is
    expected to give and the value to put in its place.  Either key may be
    missing from an entry. *)
Record fixup_rule : Type := {
  check : option scalar;
  fixup : option scalar
}.

Definition PACKAGE_METADATA_FIXUPS : list (string * list (string * fixup_rule)) := [
  ("adler32",
    [ ("license_file", {| check := Some (SNone);
          fixup := Some (SStr "https://raw.githubusercontent.com/remram44/adler32-rs/master/LICENSE") |}) ]);
  ("tracing",
    [ ("license_file", {| check := Some (SNone);
          fixup := Some (SStr "https://raw.githubusercontent.com/tokio-rs/tracing/master/LICENSE") |}) ]);
  ("tracing-futures",
    [ ("license_file", {| check := Some (SNone);
          fixup := Some (SStr "https://raw.githubusercontent.com/tokio-rs/tracing/master/LICENSE") |}) ]);
  ("publicsuffix",
    [ ("license", {| check := Some (SStr "MIT/Apache-2.0");
          fixup := None |});
      ("license_file", {| check := Some (SNone);
          fixup := Some (SStr "LICENSE-APACHE") |}) ]);
  ("siphasher",
    [ ("license", {| check := Some (SStr "MIT/Apache-2.0");
          fixup := None |});
      ("license_file", {| check := Some (SNone);
          fixup := Some (SStr "COPYING") |}) ]);
  ("futures-task",
    [ ("license", {| check := Some (SStr "MIT OR Apache-2.0");
          fixup := None |});
      ("license_file", {| check := Some (SNone);
          fixup := Some (SStr "https://raw.githubusercontent.com/rust-lang/futures-rs/master/LICENSE-APACHE") |}) ]);
  ("typenum",
    [ ("license", {| check := Some (SStr "MIT OR Apache-2.0");
          fixup := None |});
      ("license_file", {| check := Some (SNone);
          fixup := Some (SStr "LICENSE-APACHE") |}) ]);
  ("openssl",
    [ ("license", {| check := Some (SStr "Apache-2.0");
          fixup := None |});
      ("license_file", {| check := Some (SNone);
          fixup := Some (SStr "https://raw.githubusercontent.com/sfackler/rust-openssl/refs/heads/master/openssl/LICENSE-APACHE") |}) ]);
  ("backtrace-sys",
    [ ("repository", {| check := Some (SStr "https://github.com/alexcrichton/backtrace-rs");
          fixup := None |});
      ("license_file", {| check := Some (SNone);
          fixup := Some (SStr "https://raw.githubusercontent.com/rust-lang/backtrace-rs/master/LICENSE-APACHE") |}) ]);
  ("base16",
    [ ("repository", {| check := Some (SStr "https://github.com/thomcc/rust-base16");
          fixup := None |});
      ("license_file", {| check := Some (SNone);
          fixup := Some (SStr "https://raw.githubusercontent.com/thomcc/rust-base16/master/LICENSE-APACHE") |}) ]);
  ("bitvec",
    [ ("license", {| check := Some (SStr "MIT");
          fixup := None |});
      ("license_file", {| check := Some (SNone);
          fixup := Some (SStr "https://raw.githubusercontent.com/bitvecto-rs/bitvec/develop/LICENSE.txt") |}) ]);
  ("cargo-platform",
    [ ("repository", {| check := Some (SStr "https://github.com/rust-lang/cargo");
          fixup := None |});
      ("license", {| check := Some (SStr "MIT OR Apache-2.0");
          fixup := None |});
      ("license_file", {| check := Some (SNone);
          fixup := Some (SStr "https://raw.githubusercontent.com/rust-lang/cargo/master/LICENSE-APACHE") |}) ]);
  ("failure_derive",
    [ ("repository", {| check := Some (SStr "https://github.com/rust-lang-nursery/failure");
          fixup := None |});
      ("license_file", {| check := Some (SNone);
          fixup := Some (SStr "https://raw.githubusercontent.com/rust-lang-nursery/failure/master/LICENSE-APACHE") |}) ]);
  ("funty",
    [ ("license", {| check := Some (SStr "MIT");
          fixup := None |});
      ("license_file", {| check := Some (SNone);
          fixup := Some (SStr "https://raw.githubusercontent.com/myrrlyn/funty/master/LICENSE.txt") |}) ]);
  ("fxhash",
    [ ("license", {| check := Some (SStr "Apache-2.0/MIT");
          fixup := None |});
      ("license_file", {| check := Some (SNone);
          fixup := Some (SStr "https://www.apache.org/licenses/LICENSE-2.0.txt") |}) ]);
  ("hawk",
    [ ("repository", {| check := Some (SStr "https://github.com/taskcluster/rust-hawk");
          fixup := None |});
      ("license_file", {| check := Some (SNone);
          fixup := Some (SStr "https://raw.githubusercontent.com/taskcluster/rust-hawk/main/LICENSE") |}) ]);
  ("oneshot-uniffi",
    [ ("repository", {| check := Some (SStr "https://github.com/faern/oneshot");
          fixup := None |});
      ("license_file", {| check := Some (SNone);
          fixup := Some (SStr "https://www.apache.org/licenses/LICENSE-2.0.txt") |}) ]);
  ("windows-sys",
    [ ("repository", {| check := Some (SStr "https://github.com/microsoft/windows-rs");
          fixup := None |});
      ("license_file", {| check := Some (SNone);
          fixup := Some (SStr "https://raw.githubusercontent.com/microsoft/windows-rs/master/license-mit") |}) ]);
  ("windows-targets",
    [ ("repository", {| check := Some (SStr "https://github.com/microsoft/windows-rs");
          fixup := None |});
      ("license_file", {| check := Some (SNone);
          fixup := Some (SStr "https://raw.githubusercontent.com/microsoft/windows-rs/master/license-mit") |}) ]);
  ("windows_x86_64_msvc",
    [ ("repository", {| check := Some (SStr "https://github.com/microsoft/windows-rs");
          fixup := None |});
      ("license_file", {| check := Some (SNone);
          fixup := Some (SStr "https://raw.githubusercontent.com/microsoft/windows-rs/master/license-mit") |}) ]);
  ("windows_x86_64_gnu",
    [ ("repository", {| check := Some (SStr "https://github.com/microsoft/windows-rs");
          fixup := None |});
      ("license_file", {| check := Some (SNone);
          fixup := Some (SStr "https://raw.githubusercontent.com/microsoft/windows-rs/master/license-mit") |}) ]);
  ("kernel32-sys",
    [ ("repository", {| check := Some (SStr "https://github.com/retep998/winapi-rs");
          fixup := None |});
      ("license_file", {| check := Some (SNone);
          fixup := Some (SStr "https://raw.githubusercontent.com/retep998/winapi-rs/0.3/LICENSE-MIT") |}) ]);
  ("libsqlite3-sys",
    [ ("repository", {| check := Some (SStr "https://github.com/rusqlite/rusqlite");
          fixup := None |});
      ("license_file", {| check := Some (SNone);
          fixup := Some (SStr "https://raw.githubusercontent.com/rusqlite/rusqlite/master/LICENSE") |}) ]);
  ("miniz_oxide",
    [ ("license", {| check := Some (SStr "MIT OR Zlib OR Apache-2.0");
          fixup := Some (SStr "MIT") |});
      ("license_file", {| check := Some (SNone);
          fixup := Some (SStr "https://raw.githubusercontent.com/Frommi/miniz_oxide/master/miniz_oxide/LICENSE-MIT.md") |}) ]);
  ("parking_lot_core",
    [ ("repository", {| check := Some (SStr "https://github.com/Amanieu/parking_lot");
          fixup := None |});
      ("licence", {| check := Some (SNone);
          fixup := Some (SStr "Apache-2.0") |});
      ("license_file", {| check := Some (SNone);
          fixup := Some (SStr "https://github.com/Amanieu/parking_lot/blob/master/LICENSE-APACHE") |}) ]);
  ("phf",
    [ ("repository", {| check := Some (SStr "https://github.com/sfackler/rust-phf");
          fixup := None |});
      ("license_file", {| check := Some (SNone);
          fixup := Some (SStr "https://raw.githubusercontent.com/sfackler/rust-phf/master/LICENSE") |}) ]);
  ("phf_codegen",
    [ ("repository", {| check := Some (SStr "https://github.com/sfackler/rust-phf");
          fixup := None |});
      ("license_file", {| check := Some (SNone);
          fixup := Some (SStr "https://raw.githubusercontent.com/sfackler/rust-phf/master/LICENSE") |}) ]);
  ("phf_generator",
    [ ("repository", {| check := Some (SStr "https://github.com/sfackler/rust-phf");
          fixup := None |});
      ("license_file", {| check := Some (SNone);
          fixup := Some (SStr "https://raw.githubusercontent.com/sfackler/rust-phf/master/LICENSE") |}) ]);
  ("phf_shared",
    [ ("repository", {| check := Some (SStr "https://github.com/sfackler/rust-phf");
          fixup := None |});
      ("license_file", {| check := Some (SNone);
          fixup := Some (SStr "https://raw.githubusercontent.com/sfackler/rust-phf/master/LICENSE") |}) ]);
  ("prost-build",
    [ ("repository", {| check := Some (SStr "https://github.com/tokio-rs/prost");
          fixup := None |});
      ("license_file", {| check := Some (SNone);
          fixup := Some (SStr "https://raw.githubusercontent.com/tokio-rs/prost/master/LICENSE") |}) ]);
  ("prost-derive",
    [ ("repository", {| check := Some (SStr "https://github.com/tokio-rs/prost");
          fixup := None |});
      ("license_file", {| check := Some (SNone);
          fixup := Some (SStr "https://raw.githubusercontent.com/tokio-rs/prost/master/LICENSE") |}) ]);
  ("prost-types",
    [ ("repository", {| check := Some (SStr "https://github.com/tokio-rs/prost");
          fixup := None |});
      ("license_file", {| check := Some (SNone);
          fixup := Some (SStr "https://raw.githubusercontent.com/tokio-rs/prost/master/LICENSE") |}) ]);
  ("radium",
    [ ("license", {| check := Some (SStr "MIT");
          fixup := None |});
      ("license_file", {| check := Some (SNone);
          fixup := Some (SStr "https://raw.githubusercontent.com/bitvecto-rs/radium/master/LICENSE.txt") |}) ]);
  ("security-framework",
    [ ("repository", {| check := Some (SStr "https://github.com/kornelski/rust-security-framework");
          fixup := None |});
      ("license_file", {| check := Some (SNone);
          fixup := Some (SStr "https://raw.githubusercontent.com/kornelski/rust-security-framework/master/LICENSE-APACHE") |}) ]);
  ("security-framework-sys",
    [ ("repository", {| check := Some (SStr "https://github.com/kornelski/rust-security-framework");
          fixup := None |});
      ("license_file", {| check := Some (SNone);
          fixup := Some (SStr "https://raw.githubusercontent.com/kornelski/rust-security-framework/master/LICENSE-APACHE") |}) ]);
  ("shlex",
    [ ("repository", {| check := Some (SStr "https://github.com/comex/rust-shlex");
          fixup := None |});
      ("license_file", {| check := Some (SNone);
          fixup := Some (SStr "https://www.apache.org/licenses/LICENSE-2.0.txt") |}) ]);
  ("tinyvec_macros",
    [ ("license", {| check := Some (SStr "MIT OR Apache-2.0 OR Zlib");
          fixup := None |});
      ("license_file", {| check := Some (SNone);
          fixup := Some (SStr "https://raw.githubusercontent.com/Soveu/tinyvec_macros/master/LICENSE-APACHE.md") |}) ]);
  ("url_serde",
    [ ("repository", {| check := Some (SStr "https://github.com/servo/rust-url");
          fixup := None |});
      ("license_file", {| check := Some (SNone);
          fixup := Some (SStr "https://raw.githubusercontent.com/servo/rust-url/master/LICENSE-APACHE") |}) ]);
  ("winapi-build",
    [ ("repository", {| check := Some (SStr "https://github.com/retep998/winapi-rs");
          fixup := None |});
      ("license_file", {| check := Some (SNone);
          fixup := Some (SStr "https://raw.githubusercontent.com/retep998/winapi-rs/0.3/LICENSE-MIT") |}) ]);
  ("winapi-x86_64-pc-windows-gnu",
    [ ("repository", {| check := Some (SStr "https://github.com/retep998/winapi-rs");
          fixup := None |});
      ("license_file", {| check := Some (SNone);
          fixup := Some (SStr "https://raw.githubusercontent.com/retep998/winapi-rs/0.3/LICENSE-APACHE") |}) ]);
  ("ws2_32-sys",
    [ ("repository", {| check := Some (SStr "https://github.com/retep998/winapi-rs");
          fixup := None |});
      ("license_file", {| check := Some (SNone);
          fixup := Some (SStr "https://raw.githubusercontent.com/retep998/winapi-rs/0.3/LICENSE-MIT") |}) ]);
  ("wyz",
    [ ("license", {| check := Some (SStr "MIT");
          fixup := None |});
      ("license_file", {| check := Some (SNone);
          fixup := Some (SStr "https://raw.githubusercontent.com/myrrlyn/wyz/main/LICENSE.txt") |}) ]);
  ("proc-macro-error",
    [ ("license", {| check := Some (SStr "MIT OR Apache-2.0");
          fixup := None |});
      ("repository", {| check := Some (SStr "https://gitlab.com/CreepySkeleton/proc-macro-error");
          fixup := None |});
      ("license_file", {| check := Some (SNone);
          fixup := Some (SStr "https://gitlab.com/CreepySkeleton/proc-macro-error/-/raw/master/LICENSE-APACHE") |}) ]);
  ("proc-macro-error-attr",
    [ ("license", {| check := Some (SStr "MIT OR Apache-2.0");
          fixup := None |});
      ("repository", {| check := Some (SStr "https://gitlab.com/CreepySkeleton/proc-macro-error");
          fixup := None |});
      ("license_file", {| check := Some (SNone);
          fixup := Some (SStr "https://gitlab.com/CreepySkeleton/proc-macro-error/-/raw/master/LICENSE-APACHE") |}) ]);
  ("minimal-lexical",
    [ ("license", {| check := Some (SStr "MIT/Apache-2.0");
          fixup := None |});
      ("repository", {| check := Some (SStr "https://github.com/Alexhuszagh/minimal-lexical");
          fixup := None |});
      ("license_file", {| check := Some (SNone);
          fixup := Some (SStr "https://github.com/Alexhuszagh/minimal-lexical/blob/main/LICENSE-APACHE") |}) ]);
  ("c2-chacha",
    [ ("repository", {| check := Some (SStr "https://github.com/cryptocorrosion/cryptocorrosion");
          fixup := None |});
      ("license_url", {| check := Some (SNone);
          fixup := Some (SStr "https://github.com/cryptocorrosion/cryptocorrosion/blob/master/stream-ciphers/chacha/LICENSE-APACHE") |}) ]);
  ("ffi-support",
    [ ("license_url", {| check := Some (SNone);
          fixup := Some (SStr "https://raw.githubusercontent.com/mozilla/ffi-support/main/LICENSE-APACHE") |}) ]);
  ("mime",
    [ ("version", {| check := Some (SStr "0.3.17");
          fixup := None |});
      ("license_url", {| check := Some (SNone);
          fixup := Some (SStr "https://github.com/hyperium/mime/blob/v0.3.17/LICENSE-APACHE") |}) ]);
  ("ppv-lite86",
    [ ("repository", {| check := Some (SStr "https://github.com/cryptocorrosion/cryptocorrosion");
          fixup := None |});
      ("license_url", {| check := Some (SNone);
          fixup := Some (SStr "https://github.com/cryptocorrosion/cryptocorrosion/blob/master/utils-simd/ppv-lite86/LICENSE-APACHE") |}) ]);
  ("time",
    [ ("repository", {| check := Some (SStr "https://github.com/time-rs/time");
          fixup := None |});
      ("license_url", {| check := Some (SNone);
          fixup := Some (SStr "https://github.com/time-rs/time/blob/master/LICENSE-Apache") |}) ]);
  ("winapi",
    [ ("repository", {| check := Some (SStr "https://github.com/retep998/winapi-rs");
          fixup := None |});
      ("license_url", {| check := Some (SNone);
          fixup := Some (SStr "https://github.com/retep998/winapi-rs/blob/master/LICENSE-MIT") |}) ]);
  ("tinyvec",
    [ ("repository", {| check := Some (SStr "https://github.com/Lokathor/tinyvec");
          fixup := None |});
      ("license_url", {| check := Some (SNone);
          fixup := Some (SStr "https://github.com/Lokathor/tinyvec/blob/main/LICENSE-ZLIB.md") |});
      ("license_file", {| check := Some (SNone);
          fixup := Some (SStr "https://raw.githubusercontent.com/Lokathor/tinyvec/main/LICENSE-ZLIB.md") |}) ]);
  ("glean-core",
    [ ("license_url", {| check := Some (SNone);
          fixup := Some (SStr "https://github.com/mozilla/glean/blob/main/LICENSE") |});
      ("license_file", {| check := Some (SNone);
          fixup := Some (SStr "https://raw.githubusercontent.com/mozilla/glean/main/LICENSE") |}) ]);
  ("glean-ffi",
    [ ("license_url", {| check := Some (SNone);
          fixup := Some (SStr "https://github.com/mozilla/glean/blob/main/LICENSE") |});
      ("license_file", {| check := Some (SNone);
          fixup := Some (SStr "https://raw.githubusercontent.com/mozilla/glean/main/LICENSE") |}) ]);
  ("lmdb-rkv-sys",
    [ ("license_url", {| check := Some (SNone);
          fixup := Some (SStr "https://github.com/mozilla/lmdb-rs/blob/master/LICENSE") |});
      ("license_file", {| check := Some (SNone);
          fixup := Some (SStr "https://raw.githubusercontent.com/mozilla/lmdb-rs/master/LICENSE") |}) ]);
  ("uniffi_bindgen",
    [ ("license_url", {| check := Some (SNone);
          fixup := Some (SStr "https://github.com/mozilla/uniffi-rs/blob/main/LICENSE") |});
      ("license_file", {| check := Some (SNone);
          fixup := Some (SStr "https://raw.githubusercontent.com/mozilla/uniffi-rs/main/LICENSE") |}) ]);
  ("uniffi_build",
    [ ("license_url", {| check := Some (SNone);
          fixup := Some (SStr "https://github.com/mozilla/uniffi-rs/blob/main/LICENSE") |});
      ("license_file", {| check := Some (SNone);
          fixup := Some (SStr "https://raw.githubusercontent.com/mozilla/uniffi-rs/main/LICENSE") |}) ]);
  ("uniffi_checksum_derive",
    [ ("license_url", {| check := Some (SNone);
          fixup := Some (SStr "https://github.com/mozilla/uniffi-rs/blob/main/LICENSE") |});
      ("license_file", {| check := Some (SNone);
          fixup := Some (SStr "https://raw.githubusercontent.com/mozilla/uniffi-rs/main/LICENSE") |}) ]);
  ("uniffi_core",
    [ ("license_url", {| check := Some (SNone);
          fixup := Some (SStr "https://github.com/mozilla/uniffi-rs/blob/main/LICENSE") |});
      ("license_file", {| check := Some (SNone);
          fixup := Some (SStr "https://raw.githubusercontent.com/mozilla/uniffi-rs/main/LICENSE") |}) ]);
  ("uniffi_internal_macros",
    [ ("license_url", {| check := Some (SNone);
          fixup := Some (SStr "https://github.com/mozilla/uniffi-rs/blob/main/LICENSE") |});
      ("license_file", {| check := Some (SNone);
          fixup := Some (SStr "https://raw.githubusercontent.com/mozilla/uniffi-rs/main/LICENSE") |}) ]);
  ("uniffi_macros",
    [ ("license_url", {| check := Some (SNone);
          fixup := Some (SStr "https://github.com/mozilla/uniffi-rs/blob/main/LICENSE") |});
      ("license_file", {| check := Some (SNone);
          fixup := Some (SStr "https://raw.githubusercontent.com/mozilla/uniffi-rs/main/LICENSE") |}) ]);
  ("uniffi_meta",
    [ ("license_url", {| check := Some (SNone);
          fixup := Some (SStr "https://github.com/mozilla/uniffi-rs/blob/main/LICENSE") |});
      ("license_file", {| check := Some (SNone);
          fixup := Some (SStr "https://raw.githubusercontent.com/mozilla/uniffi-rs/main/LICENSE") |}) ]);
  ("uniffi_testing",
    [ ("license_url", {| check := Some (SNone);
          fixup := Some (SStr "https://github.com/mozilla/uniffi-rs/blob/main/LICENSE") |});
      ("license_file", {| check := Some (SNone);
          fixup := Some (SStr "https://raw.githubusercontent.com/mozilla/uniffi-rs/main/LICENSE") |}) ]);
  ("uniffi_udl",
    [ ("license_url", {| check := Some (SNone);
          fixup := Some (SStr "https://github.com/mozilla/uniffi-rs/blob/main/LICENSE") |});
      ("license_file", {| check := Some (SNone);
          fixup := Some (SStr "https://raw.githubusercontent.com/mozilla/uniffi-rs/main/LICENSE") |}) ]);
  ("uniffi",
    [ ("license_url", {| check := Some (SNone);
          fixup := Some (SStr "https://github.com/mozilla/uniffi-rs/blob/main/LICENSE") |});
      ("license_file", {| check := Some (SNone);
          fixup := Some (SStr "https://raw.githubusercontent.com/mozilla/uniffi-rs/main/LICENSE") |}) ]);
  ("jexl-eval",
    [ ("license_url", {| check := Some (SNone);
          fixup := Some (SStr "https://github.com/mozilla/jexl-rs/blob/main/LICENSE") |});
      ("license_file", {| check := Some (SNone);
          fixup := Some (SStr "https://raw.githubusercontent.com/mozilla/jexl-rs/main/LICENSE") |}) ]);
  ("jexl-parser",
    [ ("license_url", {| check := Some (SNone);
          fixup := Some (SStr "https://github.com/mozilla/jexl-rs/blob/main/LICENSE") |});
      ("license_file", {| check := Some (SNone);
          fixup := Some (SStr "https://raw.githubusercontent.com/mozilla/jexl-rs/main/LICENSE") |}) ]);
  ("lalrpop-util",
    [ ("license", {| check := Some (SStr "Apache-2.0/MIT");
          fixup := None |});
      ("license_url", {| check := Some (SNone);
          fixup := Some (SStr "https://github.com/lalrpop/lalrpop/blob/master/LICENSE-APACHE") |});
      ("license_file", {| check := Some (SNone);
          fixup := Some (SStr "https://raw.githubusercontent.com/lalrpop/lalrpop/master/LICENSE-APACHE") |}) ]);
  ("humansize",
    [ ("license", {| check := Some (SStr "MIT/Apache-2.0");
          fixup := None |});
      ("license_url", {| check := Some (SNone);
          fixup := Some (SStr "https://github.com/LeopoldArkham/humansize/blob/master/LICENSE-APACHE") |});
      ("license_file", {| check := Some (SNone);
          fixup := Some (SStr "https://raw.githubusercontent.com/LeopoldArkham/humansize/master/LICENSE-APACHE") |}) ]);
  ("encoding_rs",
    [ ("license", {| check := Some (SStr "(Apache-2.0 OR MIT) AND BSD-3-Clause");
          fixup := None |});
      ("license_url", {| check := Some (SNone);
          fixup := Some (SStr "https://github.com/hsivonen/encoding_rs/blob/master/COPYRIGHT") |});
      ("license_file", {| check := Some (SNone);
          fixup := Some (SStr "https://raw.githubusercontent.com/hsivonen/encoding_rs/master/COPYRIGHT") |}) ]);
  ("enum_variant_macros_macros",
    [ ("license", {| check := Some (SStr "MIT OR Apache-2.0");
          fixup := None |});
      ("license_url", {| check := Some (SNone);
          fixup := Some (SStr "https://github.com/MisterEggnog/enum-variant-macros/blob/trunk/LICENSE-APACHE") |});
      ("license_file", {| check := Some (SNone);
          fixup := Some (SStr "https://raw.githubusercontent.com/MisterEggnog/enum-variant-macros/trunk/LICENSE-APACHE") |}) ]);
  ("extension-trait",
    [ ("license", {| check := Some (SStr "MIT OR Apache-2.0");
          fixup := None |});
      ("license_url", {| check := Some (SNone);
          fixup := Some (SStr "https://gitlab.com/KonradBorowski/extension-trait/-/blob/master/LICENSE-APACHE") |});
      ("license_file", {| check := Some (SNone);
          fixup := Some (SStr "https://gitlab.com/KonradBorowski/extension-trait/-/raw/master/LICENSE-APACHE") |}) ]);
  ("unicode-ident",
    [ ("license", {| check := Some (SStr "(MIT OR Apache-2.0) AND Unicode-3.0");
          fixup := None |});
      ("license_url", {| check := Some (SNone);
          fixup := Some (SStr "https://github.com/dtolnay/unicode-ident/LICENSE-APACHE") |});
      ("license_file", {| check := Some (SNone);
          fixup := Some (SStr "https://raw.githubusercontent.com/dtolnay/unicode-ident/master/LICENSE-APACHE") |}) ]);
  ("xshell-macros",
    [ ("license", {| check := Some (SStr "MIT OR Apache-2.0");
          fixup := None |});
      ("license_url", {| check := Some (SNone);
          fixup := Some (SStr "https://github.com/matklad/xshell/blob/master/LICENSE-APACHE") |});
      ("license_file", {| check := Some (SNone);
          fixup := Some (SStr "https://raw.githubusercontent.com/matklad/xshell/master/LICENSE-APACHE") |}) ]);
  ("openssl-macros",
    [ ("repository", {| check := Some (SNone);
          fixup := Some (SStr "https://github.com/sfackler/rust-openssl") |}) ]);
  ("windows-link",
    [ ("license_url", {| check := None;
          fixup := Some (SStr "https://github.com/microsoft/windows-rs/blob/master/license-apache-2.0") |});
      ("license_file", {| check := None;
          fixup := Some (SStr "https://raw.githubusercontent.com/microsoft/windows-rs/master/license-apache-2.0") |}) ]) ].

(** ** Metadata fixups (catalog construction) *)

(** One round of the loop over [fixups.items()]:
    the check, the assertion and the replacement. *)
Definition apply_fixup (info : gmap string value) (key : string) (change : fixup_rule)
  : result (gmap string value) :=
  if negb (value_eq_scalar (get info key) (default SNone (check change)))
  then
    name ← getitem info "name";
    match check change with
    | Some expected =>
        Raise (AssertionError
                 ("Fixup check failed for " +:+ str name +:+ "." +:+ key +:+ ": "
                  +:+ str (get info key) +:+ " != " +:+ str (of_scalar expected)))
    | None => Raise (KeyError "check")
    end
  else
    match fixup change with
    | Some replacement => Ok (<[key := of_scalar replacement]> info)
    | None => Ok info
    end.

Fixpoint apply_fixups (fixups : list (string * fixup_rule)) (info : gmap string value)
  : result (gmap string value) :=
  match fixups with
  | [] => Ok info
  | (key, change) :: rest =>
      info' ← apply_fixup info key change;
      apply_fixups rest info'
  end.

(** The JSON document printed by [cargo metadata], as far as the tool reads it. *)
Record cargo_metadata : Type := {
  packages : list (gmap string value);
  workspace_members : list string;
  workspace_root : string
}.

(** The state of a [WorkspaceMetadata] object.  [metadata] holds the package
    records as the constructor leaves them, since it corrects them in place.
    The three dictionaries take as a key whatever value the record has in
    the field: the constructor checks no type. *)
Record WorkspaceMetadata : Type := {
  metadata : cargo_metadata;
  pkgInfoById : gmap value (gmap string value);
  pkgInfoByManifestPath : gmap value (gmap string value);
  workspaceMembersByName : gmap value string
}.

(** [assert key not in index] followed by [index[key] = info]. *)
Definition index_new {A : Type} (key : value) (a : A) (index : gmap value A)
  : result (gmap value A) :=
  _ ← hash_key key;
  match index !! key with
  | Some _ => Raise (AssertionError "")
  | None => Ok (<[key := a]> index)
  end.

(** The body of [for info in metadata["packages"]]. *)
Definition load_package (info : gmap string value)
    (byId byPath : gmap value (gmap string value))
  : result (gmap string value * gmap value (gmap string value)
            * gmap value (gmap string value)) :=
  name ← getitem info "name";
  excluded ← in_set name EXCLUDED_PACKAGES;
  if (excluded : bool) then Ok (info, byId, byPath)
  else
    fixups ← assoc_value name PACKAGE_METADATA_FIXUPS;
    info ← match fixups with
           | Some fixups => apply_fixups fixups info
           | None => Ok info
           end;
    id ← getitem info "id";
    byId ← index_new id info byId;
    path ← getitem info "manifest_path";
    byPath ← index_new path info byPath;
    Ok (info, byId, byPath).

Fixpoint load_packages (infos : list (gmap string value))
    (byId byPath : gmap value (gmap string value))
  : result (list (gmap string value) * gmap value (gmap string value)
            * gmap value (gmap string value)) :=
  match infos with
  | [] => Ok ([], byId, byPath)
  | info :: infos' =>
      '(info', byId, byPath) ← load_package info byId byPath;
      '(rest, byId, byPath) ← load_packages infos' byId byPath;
      Ok (info' :: rest, byId, byPath)
  end.

(** [for name, info in EXTRA_PACKAGE_METADATA.items()] *)
Fixpoint load_extras (extras : list (string * gmap string value))
    (byId : gmap value (gmap string value))
  : result (gmap value (gmap string value)) :=
  match extras with
  | [] => Ok byId
  | (name, info) :: extras' =>
      byId ← index_new (VStr name) info byId;
      load_extras extras' byId
  end.

(** [for id in metadata["workspace_members"]] *)
Fixpoint load_members (ids : list string) (byId : gmap value (gmap string value))
    (members : gmap value string) : result (gmap value string) :=
  match ids with
  | [] => Ok members
  | id :: ids' =>
      match byId !! VStr id with
      | None => Raise (KeyError id)
      | Some info =>
          name ← getitem info "name";
          members ← index_new name id members;
          load_members ids' byId members
      end
  end.

(** [WorkspaceMetadata.__init__] *)
Definition init (md : cargo_metadata) : result WorkspaceMetadata :=
  '(infos, byId, byPath) ← load_packages (packages md) ∅ ∅;
  byId ← load_extras EXTRA_PACKAGE_METADATA byId;
  members ← load_members (workspace_members md) byId ∅;
  Ok {| metadata := {| packages := infos;
                       workspace_members := workspace_members md;
                       workspace_root := workspace_root md |};
        pkgInfoById := byId;
        pkgInfoByManifestPath := byPath;
        workspaceMembersByName := members |}.

(** ** Dependencies that cargo does not manage *)

Definition target_is_android (target : string) : bool :=
  if Py.endswith target "-android" || Py.endswith target "-androideabi"
  then true else false.

Definition target_is_ios (target : string) : bool :=
  if Py.endswith target "-ios" then true else false.

(** The body of [for target in targets]. *)
Definition add_target_extras (extras : gset string) (target : string) : gset string :=
  let extras :=
    if target_is_android target
    then {[ "ext-protobuf" ]} ∪ ({[ "ext-jna" ]} ∪ extras) else extras in
  if target_is_ios target then {[ "ext-swift-keychain-wrapper" ]} ∪ extras else extras.

(** The loop [for dep in deps]. *)
Fixpoint add_package_extras (self : WorkspaceMetadata) (deps : list string)
    (extras : gset string) : result (gset string) :=
  match deps with
  | [] => Ok extras
  | dep :: deps' =>
      match pkgInfoById self !! VStr dep with
      | None => Raise (KeyError dep)
      | Some info =>
          name ← getitem info "name";
          found ← assoc_value name PACKAGES_WITH_EXTRA_DEPENDENCIES;
          let extras :=
            match found with
            | Some more => extras ∪ list_to_set more
            | None => extras
            end in
          add_package_extras self deps' extras
      end
  end.

Definition get_extra_dependencies_not_managed_by_cargo (self : WorkspaceMetadata)
    (name : string) (targets : list string) (deps : gset string)
  : result (gset string) :=
  let extras := foldl add_target_extras ∅ targets in
  add_package_extras self (elements deps) extras.

(** ** Calls that leave the process

    A computation is a tree: it returns, raises, or asks for a directory
    listing, for the contents of a file or for a URL, and goes on with the
    answer.  An error of the call itself is raised in place of the answer. *)

Record http_response : Type := {
  status_code : Z;
  (* [content.decode("utf8")], [None] when the body is not UTF-8 *)
  decoded : option string
}.

Inductive io (A : Type) : Type :=
| Pure (a : A)
| Throw (e : exn)
| ListDir (path : string) (k : list string → io A)
| ReadFile (path : string) (k : string → io A)
| HttpGet (url : string) (k : http_response → io A).

Arguments Pure {A} a.
Arguments Throw {A} e.
Arguments ListDir {A} path k.
Arguments ReadFile {A} path k.
Arguments HttpGet {A} url k.

Definition lift {A : Type} (r : result A) : io A :=
  match r with
  | Ok a => Pure a
  | Raise e => Throw e
  end.

Inductive event : Type :=
| EListDir (path : string)
| EReadFile (path : string)
| EHttpGet (url : string).

Record world : Type := {
  os_listdir : string → result (list string);
  read_file : string → result string;
  requests_get : string → result http_response
}.

(** Runs a computation in a world: the calls it made, in order, and how it ended. *)
Fixpoint run {A : Type} (w : world) (m : io A) : list event * result A :=
  match m with
  | Pure a => ([], Ok a)
  | Throw e => ([], Raise e)
  | ListDir path k =>
      match os_listdir w path with
      | Ok names => let '(t, r) := run w (k names) in (EListDir path :: t, r)
      | Raise e => ([EListDir path], Raise e)
      end
  | ReadFile path k =>
      match read_file w path with
      | Ok text => let '(t, r) := run w (k text) in (EReadFile path :: t, r)
      | Raise e => ([EReadFile path], Raise e)
      end
  | HttpGet url k =>
      match requests_get w url with
      | Ok resp => let '(t, r) := run w (k resp) in (EHttpGet url :: t, r)
      | Raise e => ([EHttpGet url], Raise e)
      end
  end.

(** [os.path] on a POSIX system. *)
Module os_path.

(** [p[:p.rfind("/") + 1]], [None] when [p] has no slash. *)
Fixpoint head_of (p : string) : option string :=
  match p with
  | EmptyString => None
  | String c p' =>
      match head_of p' with
      | Some h => Some (String c h)
      | None => if Ascii.eqb c "/" then Some (String c EmptyString) else None
      end
  end.

Fixpoint all_slashes (s : string) : bool :=
  match s with
  | EmptyString => true
  | String c s' => Ascii.eqb c "/" && all_slashes s'
  end.

(** [s.rstrip("/")] *)
Fixpoint rstrip_slashes (s : string) : string :=
  match s with
  | EmptyString => EmptyString
  | String c s' =>
      match rstrip_slashes s' with
      | EmptyString => if Ascii.eqb c "/" then EmptyString else String c EmptyString
      | t => String c t
      end
  end.

Definition dirname (p : string) : string :=
  let head := default EmptyString (head_of p) in
  if all_slashes head then head else rstrip_slashes head.

(** [os.path.join(a, b)] *)
Definition join (a b : string) : string :=
  if Py.startswith b "/" then b
  else if String.eqb a "" || Py.endswith a "/" then a +:+ b
  else a +:+ "/" +:+ b.

End os_path.

(** ** The license file locator *)

Definition COMMON_LICENSE_FILE_NAME_ROOTS : list (string * list string) :=
  [ ("", [ "license"; "licence" ]);
    ("Apache-2.0", [ "license-apache"; "licence-apache" ]);
    ("MIT", [ "license-mit"; "licence-mit" ]);
    ("CC0", [ "license-cc0"; "licence-cc0" ]);
    ("Zlib", [ "license-zlib"; "license-zlib" ]) ].

Definition COMMON_LICENSE_FILE_NAME_SUFFIXES : list string := [ ""; ".md"; ".txt" ].

(** The names added for one license by the two inner loops. *)
Definition names_with_suffix (license suffix : string) : list string :=
  ((λ root, root +:+ suffix)
     <$> default [] (assoc license COMMON_LICENSE_FILE_NAME_ROOTS))
  ++ ((λ root, root +:+ suffix)
        <$> default [] (assoc "" COMMON_LICENSE_FILE_NAME_ROOTS)).

Definition COMMON_LICENSE_FILE_NAMES : list (string * gset string) :=
  (λ '(license, _),
     (license,
      list_to_set (concat (names_with_suffix license <$> COMMON_LICENSE_FILE_NAME_SUFFIXES))))
  <$> COMMON_LICENSE_FILE_NAME_ROOTS.

(** [repr] of a string and of a list of strings, as an f-string prints them. *)
Module Repr.

Definition hex_digit (n : N) : ascii :=
  if (n <? 10)%N then ascii_of_N (48 + n) else ascii_of_N (87 + n).

Definition printable (c : ascii) : bool :=
  let n := N_of_ascii c in
  ((32 <=? n) && (n <? 127) || (161 <=? n) && negb (n =? 173))%N.

Definition escape (quote c : ascii) : string :=
  let n := N_of_ascii c in
  if Ascii.eqb c "\" then "\\"
  else if Ascii.eqb c quote then String "\" (String c EmptyString)
  else if (n =? 9)%N then "\t"
  else if (n =? 10)%N then "\n"
  else if (n =? 13)%N then "\r"
  else if printable c then String c EmptyString
  else String "\" (String "x" (String (hex_digit (n / 16)) (String (hex_digit (n mod 16)) EmptyString))).

Fixpoint escape_all (quote : ascii) (s : string) : string :=
  match s with
  | EmptyString => EmptyString
  | String c s' => escape quote c +:+ escape_all quote s'
  end.

Definition has (s : string) (c : ascii) : bool :=
  Py.contains s (String c EmptyString).

Definition of_str (s : string) : string :=
  let quote := if has s "'" && negb (has s "034") then "034"%char else "'"%char in
  String quote (escape_all quote s) +:+ String quote EmptyString.

Definition of_list (l : list string) : string :=
  "[" +:+ Py.join ", " (of_str <$> l) +:+ "]".

End Repr.

(** [COMMON_LICENSE_FILE_NAMES[license]], and [COMMON_LICENSE_FILE_NAMES[""]]
    on a [KeyError]. *)
Definition license_file_names (license : string) : gset string :=
  match assoc license COMMON_LICENSE_FILE_NAMES with
  | Some names => names
  | None => default ∅ (assoc "" COMMON_LICENSE_FILE_NAMES)
  end.

(** The two messages of the locator. *)
Definition ambiguous_license_files (name : value) (found : list string) : exn :=
  RuntimeError
    ("Multiple ambiguous license files found for '" +:+ str name +:+ "'." +:+ LF
     +:+ "Please select the correct license file and add it to `PACKAGE_METADATA_FIXUPS`."
     +:+ LF
     +:+ "Potential license files: " +:+ Repr.of_list found).

Definition license_file_not_found (name repository : value) : exn :=
  RuntimeError
    ("Could not find license file for '" +:+ str name +:+ "'." +:+ LF
     +:+ "Please locate the correct license file and add it to `PACKAGE_METADATA_FIXUPS`."
     +:+ LF
     +:+ "You may need to poke around in the source repository at "
     +:+ str repository).

Definition _find_license_file (id license : string) (pkgInfo : gmap string value)
  : io value :=
  match get pkgInfo "license_file" with
  | VNone =>
      (* No explicit license file was declared. *)
      match getstr pkgInfo "manifest_path" with
      | Raise e => Throw e
      | Ok manifest =>
          let pkgRoot := os_path.dirname manifest in
          let licenseFileNames := license_file_names license in
          ListDir pkgRoot (λ listing,
            let foundLicenseFiles :=
              filter (λ nm, Py.lower nm ∈ licenseFileNames) listing in
            match foundLicenseFiles with
            | [found] => Pure (VStr found)
            | _ =>
                lift (
                  name ← getitem pkgInfo "name";
                  if bool_decide (1 < length foundLicenseFiles)
                  then Raise (ambiguous_license_files name foundLicenseFiles)
                  else
                    repository ← getitem pkgInfo "repository";
                    Raise (license_file_not_found name repository))
            end)
      end
  | licenseFile => Pure licenseFile
  end.

(** ** The license text resolver *)

(** [r.raise_for_status()] and [r.content.decode("utf8")] *)
Definition response_text (r : http_response) : result string :=
  if ((400 <=? status_code r) && (status_code r <? 600))%Z
  then Raise (HTTPError (status_code r))
  else match decoded r with
       | Some text => Ok text
       | None => Raise UnicodeDecodeError
       end.

Definition _fetch_license_text (id licenseFile : string) (pkgInfo : gmap string value)
  : io value :=
  match pkgInfo !! "license_text" with
  | Some text => Pure text
  | None =>
      if Py.startswith licenseFile "https://"
      then HttpGet licenseFile (λ r, lift (text ← response_text r; Ok (VStr text)))
      else
        match getstr pkgInfo "manifest_path" with
        | Raise e => Throw e
        | Ok manifest =>
            let pkgRoot := os_path.dirname manifest in
            ReadFile (os_path.join pkgRoot licenseFile) (λ text, Pure (VStr text))
        end
  end.

(** ** SHA-256 ([hashlib.sha256], FIPS 180-4)

    Words are numbers below [2^32]; additions wrap around. *)

Module SHA256.

Local Open Scope N_scope.

Definition mask32 : N := 0xffffffff.
Definition add32 (a b : N) : N := N.land (a + b) mask32.
Definition not32 (a : N) : N := N.lxor a mask32.
Definition rotr (n a : N) : N :=
  N.lor (N.shiftr a n) (N.land (N.shiftl a (32 - n)) mask32).

Definition Ch (x y z : N) : N := N.lxor (N.land x y) (N.land (not32 x) z).
Definition Maj (x y z : N) : N :=
  N.lxor (N.lxor (N.land x y) (N.land x z)) (N.land y z).
Definition Sigma0 (x : N) : N := N.lxor (N.lxor (rotr 2 x) (rotr 13 x)) (rotr 22 x).
Definition Sigma1 (x : N) : N := N.lxor (N.lxor (rotr 6 x) (rotr 11 x)) (rotr 25 x).
Definition sigma0 (x : N) : N := N.lxor (N.lxor (rotr 7 x) (rotr 18 x)) (N.shiftr x 3).
Definition sigma1 (x : N) : N := N.lxor (N.lxor (rotr 17 x) (rotr 19 x)) (N.shiftr x 10).

(** The first sixty-four primes. *)
Definition primes : list N := [
  2; 3; 5; 7; 11; 13; 17; 19; 23; 29; 31; 37; 41; 43; 47; 53;
  59; 61; 67; 71; 73; 79; 83; 89; 97; 101; 103; 107; 109; 113; 127; 131;
  137; 139; 149; 151; 157; 163; 167; 173; 179; 181; 191; 193; 197; 199; 211; 223;
  227; 229; 233; 239; 241; 251; 257; 263; 269; 271; 277; 281; 283; 293; 307; 311 ].

(** The integer cube root of [n], built from its bit [bits - 1] downwards. *)
Fixpoint cube_root (bits : nat) (n r : N) : N :=
  match bits with
  | O => r
  | S b =>
      let r' := r + 2 ^ N.of_nat b in
      cube_root b n (if r' * r' * r' <=? n then r' else r)
  end.

(** The first thirty-two bits of the fractional part of the cube root of [p]. *)
Definition cube_root_fraction (p : N) : N :=
  N.land (cube_root 36 (p * 2 ^ 96) 0) mask32.

(** The first thirty-two bits of the fractional part of the square root of [p]. *)
Definition square_root_fraction (p : N) : N :=
  N.land (N.sqrt (p * 2 ^ 64)) mask32.

(** The round constants. *)
Definition K : list N := map cube_root_fraction primes.

Record state : Type := State { ha : N; hb : N; hc : N; hd : N; he : N; hf : N; hg : N; hh : N }.

(** The initial hash value. *)
Definition H0 : state :=
  State (square_root_fraction 2) (square_root_fraction 3) (square_root_fraction 5)
        (square_root_fraction 7) (square_root_fraction 11) (square_root_fraction 13)
        (square_root_fraction 17) (square_root_fraction 19).

(** [text.encode("utf8")] for code points below 256. *)
Fixpoint utf8 (s : string) : list N :=
  match s with
  | EmptyString => []
  | String c s' =>
      let n := N_of_ascii c in
      if n <? 128 then n :: utf8 s'
      else (192 + n / 64) :: (128 + n mod 64) :: utf8 s'
  end.

(** The big-endian bytes of [n], [k] of them. *)
Fixpoint be_bytes (k : nat) (n : N) : list N :=
  match k with
  | O => []
  | S k' => ((n / 256 ^ N.of_nat k') mod 256) :: be_bytes k' n
  end.

Definition pad (msg : list N) : list N :=
  let len := N.of_nat (length msg) in
  let zeros := N.to_nat ((119 - len mod 64) mod 64) in
  msg ++ [128] ++ repeat 0 zeros ++ be_bytes 8 (8 * len).

(** The sixteen big-endian words of a block. *)
Fixpoint words (n : nat) (block : list N) : list N :=
  match n, block with
  | S n', b0 :: b1 :: b2 :: b3 :: rest =>
      (((b0 * 256 + b1) * 256 + b2) * 256 + b3) :: words n' rest
  | _, _ => []
  end.

(** The message schedule, latest word first. *)
Fixpoint schedule (n : nat) (rw : list N) : list N :=
  match n with
  | O => rw
  | S n' =>
      let w := add32 (add32 (sigma1 (nth 1 rw 0)) (nth 6 rw 0))
                     (add32 (sigma0 (nth 14 rw 0)) (nth 15 rw 0)) in
      schedule n' (w :: rw)
  end.

Definition round (s : state) (kw : N * N) : state :=
  let '(k, w) := kw in
  let t1 := add32 (add32 (add32 (hh s) (Sigma1 (he s))) (Ch (he s) (hf s) (hg s)))
                  (add32 k w) in
  let t2 := add32 (Sigma0 (ha s)) (Maj (ha s) (hb s) (hc s)) in
  State (add32 t1 t2) (ha s) (hb s) (hc s) (add32 (hd s) t1) (he s) (hf s) (hg s).

Definition compress (s : state) (block : list N) : state :=
  let ws := rev (schedule 48 (rev (words 16 block))) in
  let t := fold_left round (combine K ws) s in
  State (add32 (ha s) (ha t)) (add32 (hb s) (hb t)) (add32 (hc s) (hc t))
        (add32 (hd s) (hd t)) (add32 (he s) (he t)) (add32 (hf s) (hf t))
        (add32 (hg s) (hg t)) (add32 (hh s) (hh t)).

Fixpoint blocks (n : nat) (bytes : list N) (s : state) : state :=
  match n with
  | O => s
  | S n' => blocks n' (skipn 64 bytes) (compress s (firstn 64 bytes))
  end.

Definition digest (msg : list N) : state :=
  let padded := pad msg in
  blocks (length padded / 64) padded H0.

Definition hex32 (w : N) : string :=
  String (Repr.hex_digit ((w / 0x10000000) mod 16))
 (String (Repr.hex_digit ((w / 0x1000000) mod 16))
 (String (Repr.hex_digit ((w / 0x100000) mod 16))
 (String (Repr.hex_digit ((w / 0x10000) mod 16))
 (String (Repr.hex_digit ((w / 0x1000) mod 16))
 (String (Repr.hex_digit ((w / 0x100) mod 16))
 (String (Repr.hex_digit ((w / 0x10) mod 16))
 (String (Repr.hex_digit (w mod 16)) EmptyString))))))).

(** [hashlib.sha256(msg).hexdigest()] *)
Definition hexdigest (msg : list N) : string :=
  let s := digest msg in
  String.concat EmptyString
    [ hex32 (ha s); hex32 (hb s); hex32 (hc s); hex32 (hd s);
      hex32 (he s); hex32 (hf s); hex32 (hg s); hex32 (hh s) ].

End SHA256.

(** ** Grouping and ordering of license records *)

(** The dictionary returned by [get_license_info]. *)
Record license_info : Type := {
  info_name : string;
  info_id : string;
  info_repository : string;
  info_license : string;
  info_license_file : string;
  info_license_text : string;
  info_license_url : string
}.

(** An entry of the list returned by [group_dependencies_for_printing]. *)
Record group : Type := {
  group_title : string;
  group_dependencies : list license_info;
  group_license : string;
  group_license_text_hash : string;
  group_license_text : string;
  group_license_url : string
}.

(** Python's order on lists: the first difference decides, a prefix comes first. *)
Fixpoint list_ltb (a b : list string) : bool :=
  match a, b with
  | [], [] => false
  | [], _ :: _ => true
  | _ :: _, [] => false
  | x :: a', y :: b' =>
      String.ltb x y || (String.eqb x y && list_ltb a' b')
  end.

(** [sorted(l, key=key)], for keys compared by [ltb]: a stable sort.  An
    element is put in front of the first element with a key not below its own
    among those that followed it. *)
Section Sorted.
Context {A K : Type} (key : A → K) (ltb : K → K → bool).

Fixpoint insert_sorted (x : A) (l : list A) : list A :=
  match l with
  | [] => [x]
  | y :: l' => if ltb (key y) (key x) then y :: insert_sorted x l' else x :: l
  end.

Fixpoint sorted (l : list A) : list A :=
  match l with
  | [] => []
  | x :: l' => insert_sorted x (sorted l')
  end.
End Sorted.

Definition pair_ltb (a b : string * string) : bool :=
  String.ltb a.1 b.1 || (String.eqb a.1 b.1 && String.ltb a.2 b.2).

(** [sorted(set(names))] *)
Definition sorted_set (names : list string) : list string :=
  sorted (λ nm, nm) String.ltb (remove_dups names).

(** [make_license_title(license, deps)] *)
Definition make_license_title (license : string) (deps : option (list license_info))
  : string :=
  if String.eqb license "EXT-OPENSSL" then "OpenSSL License"
  else if String.eqb license "EXT-SQLITE" then "Optional Notice: SQLite"
  else
    let title :=
      if String.eqb license "MPL-2.0" then "Mozilla Public License 2.0"
      else if String.eqb license "Apache-2.0" then "Apache License 2.0"
      else license +:+ " License" in
    match deps with
    | Some (d :: ds) =>
        let names := sorted_set (info_name <$> d :: ds) in
        title +:+ ": " +:+ Py.join ", " names
    | _ => title
    end.

(** The licenses whose text is known to be shared between packages. *)
Definition has_shared_text (license : string) : bool :=
  String.eqb license "MPL-2.0" || String.eqb license "Apache-2.0"
  || Py.startswith license "EXT-".

(** The key under which a record is filed in [depsByLicenseTextHash]. *)
Definition licenseTextHash (info : license_info) : string :=
  if has_shared_text (info_license info) then info_license info
  else
    let text := Py.remove_whitespace (info_license_text info) in
    info_license info +:+ ":" +:+ SHA256.hexdigest (SHA256.utf8 text).

(** [d[key].append(info)] on a [defaultdict(list)]. *)
Fixpoint dict_append (key : string) (info : license_info)
    (d : list (string * list license_info)) : list (string * list license_info) :=
  match d with
  | [] => [(key, [info])]
  | (k, l) :: d' =>
      if String.eqb key k then (k, l ++ [info]) :: d'
      else (k, l) :: dict_append key info d'
  end.

(** The first loop of [group_dependencies_for_printing]. *)
Definition depsByLicenseTextHash (deps : list license_info)
  : list (string * list license_info) :=
  foldl (λ d info, dict_append (licenseTextHash info) info d) [] deps.

Definition is_canonical_apache_text (licenseText : string) : bool :=
  Py.contains licenseText "[yyyy]" && negb (Py.contains licenseText "NSS").

(** The loop [for dep in deps: ... break] with its [else] branch. *)
Fixpoint find_apache_text (deps : list license_info) : result string :=
  match deps with
  | [] => Raise (RuntimeError "Could not find appropriate apache license text")
  | dep :: deps' =>
      let licenseText := info_license_text dep in
      if is_canonical_apache_text licenseText then Ok licenseText
      else find_apache_text deps'
  end.

(** The body of the second loop: the group made from one dictionary entry. *)
Definition make_group (hash : string) (unsorted_deps : list license_info)
  : result group :=
  let deps := sorted (λ i, (info_name i, info_id i)) pair_ltb unsorted_deps in
  match deps with
  | [] => Raise IndexError
  | first :: _ =>
      let license := info_license first in
      licenseText ←
        (if negb (String.eqb hash "Apache-2.0") then Ok (info_license_text first)
         else find_apache_text deps);
      let title :=
        if String.eqb license "MPL-2.0" || String.eqb license "Apache-2.0"
        then make_license_title license None
        else make_license_title license (Some deps) in
      Ok {| group_title := title;
            group_dependencies := deps;
            group_license := license;
            group_license_text_hash := hash;
            group_license_text := licenseText;
            group_license_url := info_license_url first |}
  end.

Fixpoint make_groups (d : list (string * list license_info)) : result (list group) :=
  match d with
  | [] => Ok []
  | (hash, unsorted_deps) :: d' =>
      g ← make_group hash unsorted_deps;
      gs ← make_groups d';
      Ok (g :: gs)
  end.

(** [enumerate] and compare: the position of [license] in [prefs], and the
    length of [prefs] when it is not there. *)
Fixpoint preference_index (prefs : list string) (license : string) : nat :=
  match prefs with
  | [] => 0
  | l :: prefs' =>
      if String.eqb license l then 0 else S (preference_index prefs' license)
  end.

Definition sort_key (g : group) : nat * list string :=
  (preference_index LICENSES_IN_PREFERENCE_ORDER (group_license g),
   info_name <$> group_dependencies g).

Definition sort_key_ltb (a b : nat * list string) : bool :=
  (a.1 <? b.1) || ((a.1 =? b.1) && list_ltb a.2 b.2).

Definition group_dependencies_for_printing (deps : list license_info)
  : result (list group) :=
  groups ← make_groups (depsByLicenseTextHash deps);
  Ok (sorted sort_key sort_key_ltb groups).

(** ** Orders

    What [sorted] needs of the comparison of its keys: [<] on strings, tuples
    and lists is a strict total order. *)
Definition strict_total {K : Type} (ltb : K → K → bool) : Prop :=
  (∀ a, ltb a a = false)
  ∧ (∀ a b c, ltb a b = true → ltb b c = true → ltb a c = true)
  ∧ (∀ a b, ltb a b = false → ltb b a = false → a = b).

(** [x] may come before [y] in a list sorted by [key]. *)
Definition ordered_by {A K : Type} (key : A → K) (ltb : K → K → bool) (x y : A) : Prop :=
  ltb (key y) (key x) = false.

(** ** Lookups in the catalog *)

(** [WorkspaceMetadata.has_package] *)
Definition has_package (self : WorkspaceMetadata) (id : string) : bool :=
  bool_decide (is_Some (pkgInfoById self !! VStr id)).

(** [WorkspaceMetadata.get_package_by_id] *)
Definition get_package_by_id (self : WorkspaceMetadata) (id : string)
  : result (gmap string value) :=
  match pkgInfoById self !! VStr id with
  | Some info => Ok info
  | None => Raise (KeyError id)
  end.

(** [WorkspaceMetadata.get_package_by_manifest_path] *)
Definition get_package_by_manifest_path (self : WorkspaceMetadata) (path : string)
  : result (gmap string value) :=
  match pkgInfoByManifestPath self !! VStr path with
  | Some info => Ok info
  | None => Raise (KeyError path)
  end.

(** [WorkspaceMetadata.get_manifest_path] *)
Definition get_manifest_path (self : WorkspaceMetadata) (id : string) : result value :=
  info ← get_package_by_id self id;
  getitem info "manifest_path".

(** The loop of [os.path.commonprefix] over the characters of [s1]; [s2[i]]
    raises when [s2] ends first. *)
Fixpoint common_prefix_loop (s1 s2 : string) : result string :=
  match s1 with
  | EmptyString => Ok EmptyString
  | String c s1' =>
      match s2 with
      | EmptyString => Raise IndexError
      | String d s2' =>
          if Ascii.eqb c d
          then rest ← common_prefix_loop s1' s2'; Ok (String c rest)
          else Ok EmptyString
      end
  end.

(** [os.path.commonprefix([a, b])]: the loop runs on [min] and [max] of the two. *)
Definition commonprefix (a b : string) : result string :=
  let s1 := if String.ltb b a then b else a in
  let s2 := if String.ltb a b then b else a in
  common_prefix_loop s1 s2.

(** [WorkspaceMetadata.is_external_dependency] *)
Definition is_external_dependency (self : WorkspaceMetadata) (id : string) : result bool :=
  pkgInfo ← get_package_by_id self id;
  match pkgInfo !! "source" with
  | None => Ok true
  | Some VNone =>
      manifest ← getstr pkgInfo "manifest_path";
      root ← commonprefix manifest (workspace_root (metadata self));
      if negb (String.eqb root (workspace_root (metadata self))) then Ok true
      else Ok false
  | Some _ => Ok true
  end.

(** The longest common prefix of two strings. *)
Fixpoint longest_common_prefix (a b : string) : string :=
  match a, b with
  | String c a', String d b' =>
      if Ascii.eqb c d then String c (longest_common_prefix a' b') else EmptyString
  | _, _ => EmptyString
  end.

(** ** Equality of the values above is decidable *)

#[global] Instance exn_eq_dec : EqDecision exn.
Proof. solve_decision. Defined.

#[global] Instance result_eq_dec {A : Type} `{EqDecision A} : EqDecision (result A).
Proof. solve_decision. Defined.

#[global] Instance cargo_metadata_eq_dec : EqDecision cargo_metadata.
Proof. solve_decision. Defined.

#[global] Instance WorkspaceMetadata_eq_dec : EqDecision WorkspaceMetadata.
Proof. solve_decision. Defined.

(** ** Printing the summary *)

(** [s.replace(old, new)] for a non-empty [old]: the occurrences are replaced
    from the left and do not overlap; the next [skip] characters belong to the
    occurrence that was just replaced. *)
Fixpoint replace_from (old new : string) (skip : nat) (s : string) : string :=
  match s with
  | EmptyString => EmptyString
  | String c s' =>
      match skip with
      | S k => replace_from old new k s'
      | O =>
          if Py.startswith s old
          then new +:+ replace_from old new (String.length old - 1) s'
          else String c (replace_from old new 0 s')
      end
  end.

Definition str_replace (s old new : string) : string := replace_from old new 0 s.

(** What the printers have written, one entry for each call of [print], and
    how they ended. *)
Definition printed : Type := list string * result unit.

(** The anchor of a title in the table of contents. *)
Definition anchor (header : string) : string :=
  str_replace
    (str_replace
       (str_replace
          (str_replace (Py.lower header) " " "-")
          "." "")
       "," "")
    ":" "".

(** The line of a section in the table of contents. *)
Definition contents_line (section : group) : string :=
  let header := group_title section in
  "* [" +:+ header +:+ "](#" +:+ anchor header +:+ ")".

(** [sorted(set(pkgs))] for the links to the dependencies of a section. *)
Definition section_pkgs (section : group) : list string :=
  sorted_set
    ((λ info, "[" +:+ info_name info +:+ "](" +:+ info_repository info +:+ ")")
       <$> group_dependencies section).

(** The second loop of [print_dependency_summary_markdown], [out] being what
    has been printed so far. *)
Fixpoint print_sections (sections : list group) (out : list string) : printed :=
  match sections with
  | [] => (out, Ok tt)
  | section :: rest =>
      let out :=
        out ++ [ "## " +:+ group_title section;
                 "";
                 "The following text applies to code linked from these dependencies:"
                 +:+ LF +:+ Py.join ("," +:+ LF) (section_pkgs section);
                 "";
                 "```" ] in
      if Py.contains (group_license_text section) "```"
      then (out, Raise (AssertionError ""))
      else print_sections rest
             (out ++ [ group_license_text section; "```"; "-------------" ])
  end.

Definition print_dependency_summary_markdown (deps : list license_info) : printed :=
  let out :=
    [ "# Licenses for Third-Party Dependencies";
      "";
      "Binary distributions of this software incorporate code from a number of third-party dependencies.";
      "These dependencies are available under a variety of free and open source licenses,";
      "the details of which are reproduced below.";
      "" ] in
  match group_dependencies_for_printing deps with
  | Raise e => (out, Raise e)
  | Ok sections =>
      (* First a "table of contents" style thing. *)
      let out := out ++ (contents_line <$> sections) in
      let out := out ++ [ "-------------" ] in
      (* Now the actual license details. *)
      print_sections sections out
  end.

(** [xml.sax.saxutils.escape(data)]: the ampersand first. *)
Definition escape (data : string) : string :=
  let data := str_replace data "&" "&amp;" in
  let data := str_replace data ">" "&gt;" in
  let data := str_replace data "<" "&lt;" in
  data.

(** Python's order on tuples of three strings. *)
Definition triple_ltb (a b : string * string * string) : bool :=
  pair_ltb a.1 b.1
  || (String.eqb a.1.1 b.1.1 && String.eqb a.1.2 b.1.2 && String.ltb a.2 b.2).

(** [sorted(set(map(lambda d: (d["name"], d["license"], d["license_url"]), ...)))] *)
Definition pom_entries (section : group) : list (string * string * string) :=
  sorted (λ t, t) triple_ltb
    (remove_dups
       ((λ d, (info_name d, info_license d, info_license_url d))
          <$> group_dependencies section)).

(** The body of the inner loop of [print_dependency_summary_pom].  The
    dictionary [dep] has the three keys of the tuple; the title is made from
    its license and its name. *)
Definition print_license (entry : string * string * string) : list string :=
  let '(name, license, license_url) := entry in
  let dep := {| info_name := name;
                info_id := "";
                info_repository := "";
                info_license := license;
                info_license_file := "";
                info_license_text := "";
                info_license_url := license_url |} in
  [ "  <license>";
    "    <name>" +:+ escape (make_license_title (info_license dep) (Some [dep]))
    +:+ "</name>";
    "    <url>" +:+ escape (info_license_url dep) +:+ "</url>";
    "  </license>" ].

Definition print_dependency_summary_pom (deps : list license_info) : printed :=
  let out :=
    [ "<licenses>";
      "<!--";
      "Binary distributions of this software incorporate code from a number of third-party dependencies.";
      "These dependencies are available under a variety of free and open source licenses,";
      "the details of which are reproduced below.";
      "-->" ] in
  match group_dependencies_for_printing deps with
  | Raise e => (out, Raise e)
  | Ok sections =>
      let out :=
        out ++ concat ((λ section, concat (print_license <$> pom_entries section))
                         <$> sections) in
      (out ++ [ "</licenses>" ], Ok tt)
  end.

(** ** The license URL *)

(** [s[:n]] *)
Fixpoint str_take (n : nat) (s : string) : string :=
  match n, s with
  | S n', String c s' => String c (str_take n' s')
  | _, _ => EmptyString
  end.

(** The pattern [raw.githubusercontent.com/([^/]+)/([^/]+)/] of the last step
    of [_find_license_url], piece by piece. *)

(** A text in which [.] stands for any character but a newline, at the start
    of [s]: what follows it. *)
Fixpoint match_dots (pat s : string) : option string :=
  match pat with
  | EmptyString => Some s
  | String p pat' =>
      match s with
      | EmptyString => None
      | String c s' =>
          if (if Ascii.eqb p "." then negb (Ascii.eqb c "010") else Ascii.eqb p c)
          then match_dots pat' s' else None
      end
  end.

(** The longest text without a slash at the start of [s], and what follows it. *)
Fixpoint span_segment (s : string) : string * string :=
  match s with
  | EmptyString => (EmptyString, EmptyString)
  | String c s' =>
      if Ascii.eqb c "/" then (EmptyString, s)
      else let '(seg, rest) := span_segment s' in (String c seg, rest)
  end.

(** [([^/]+)/] at the start of [s]: the group and what follows the slash. *)
Definition match_segment (s : string) : option (string * string) :=
  match span_segment s with
  | (String c seg, String _ rest) => Some (String c seg, rest)
  | _ => None
  end.

(** The whole pattern at the start of [s]: the two groups and what follows. *)
Definition match_raw_url (s : string) : option (string * string * string) :=
  rest ← match_dots "raw.githubusercontent.com/" s;
  '(owner, rest) ← match_segment rest;
  '(repo, rest) ← match_segment rest;
  Some (owner, repo, rest).

(** [re.sub(pattern, r"github.com/\1/\2/blob/", s)]: the matches are replaced
    from the left and do not overlap; the next [skip] characters belong to
    the match that was just replaced. *)
Fixpoint re_sub_from (skip : nat) (s : string) : string :=
  match s with
  | EmptyString => EmptyString
  | String c s' =>
      match skip with
      | S k => re_sub_from k s'
      | O =>
          match match_raw_url s with
          | Some (owner, repo, rest) =>
              "github.com/" +:+ owner +:+ "/" +:+ repo +:+ "/blob/"
              +:+ re_sub_from (String.length s - String.length rest - 1) s'
          | None => String c (re_sub_from 0 s')
          end
      end
  end.

Definition re_sub_raw_url (s : string) : string := re_sub_from 0 s.

(** [m >>= k] for computations. *)
Fixpoint io_bind {A B : Type} (m : io A) (k : A → io B) : io B :=
  match m with
  | Pure a => k a
  | Throw e => Throw e
  | ListDir path f => ListDir path (λ names, io_bind (f names) k)
  | ReadFile path f => ReadFile path (λ text, io_bind (f text) k)
  | HttpGet url f => HttpGet url (λ r, io_bind (f r) k)
  end.

(** The body of [for strip_suffix in ...]. *)
Definition strip_suffix (repo suffix : string) : string :=
  if Py.endswith repo suffix
  then str_take (String.length repo - String.length suffix) repo
  else repo.

(** The loop [for path in ...: ... break] with its [else] branch: the first
    address that answers with status 200, [None] when none does. *)
Fixpoint probe_license_url (repo licenseFile : string) (paths : list string)
  : io (option string) :=
  match paths with
  | [] => Pure None
  | path :: paths' =>
      let licenseUrl := str_replace repo "github.com" "raw.githubusercontent.com" in
      let licenseUrl := licenseUrl +:+ (path +:+ licenseFile) in
      HttpGet licenseUrl (λ r,
        if (status_code r =? 200)%Z then Pure (Some licenseUrl)
        else probe_license_url repo licenseFile paths')
  end.

(** The message of [_find_license_url]; [repo] is printed as [str] prints it. *)
Definition license_url_not_found (name repo : value) (chosenLicense licenseFile : string)
  : exn :=
  RuntimeError
    ("Could not infer license URL for '" +:+ str name +:+ "'." +:+ LF
     +:+ "Please locate the correct license URL and add it to `PACKAGE_METADATA_FIXUPS`."
     +:+ LF
     +:+ "You may need to poke around in the source repository at " +:+ str repo
     +:+ " for a " +:+ chosenLicense +:+ " license file named " +:+ licenseFile +:+ ".").

Section LicenseUrl.

(** [urlparse(s).scheme] of [urllib.parse], which the tool takes as it is. *)
Variable urlparse_scheme : string → result string.

(** The end of [_find_license_url], for an address that was found. *)
Definition human_friendly (licenseUrl : string) : string :=
  (* As a special case, convert raw github URLs back into human-friendly page URLs. *)
  if Py.startswith licenseUrl "https://raw.githubusercontent.com/"
  then re_sub_raw_url licenseUrl else licenseUrl.

(** The end of [_find_license_url], when [licenseUrl] is [None]. *)
Definition no_license_url (repo : value) (chosenLicense licenseFile : string)
    (pkgInfo : gmap string value) : io value :=
  lift (name ← getitem pkgInfo "name";
        Raise (license_url_not_found name repo chosenLicense licenseFile)).

(** [_find_license_url].  The repository of a package is a string or [None]
    in the output of cargo; another value is not followed further. *)
Definition _find_license_url (id chosenLicense licenseFile : string)
    (pkgInfo : gmap string value) : io value :=
  match get pkgInfo "license_url" with
  | VNone =>
      (* Try to infer a suitable URL from the local license file
         and github repo metadata. *)
      match urlparse_scheme licenseFile with
      | Raise e => Throw e
      | Ok scheme =>
          if negb (String.eqb scheme "") then Pure (VStr (human_friendly licenseFile))
          else
            match getitem pkgInfo "repository" with
            | Raise e => Throw e
            | Ok VNone => no_license_url VNone chosenLicense licenseFile pkgInfo
            | Ok (VOther _) => Throw (TypeError "repository")
            | Ok (VStr repo) =>
                if String.eqb repo "" then
                  no_license_url (VStr repo) chosenLicense licenseFile pkgInfo
                else
                  let repo :=
                    if Py.startswith repo "http://github.com/"
                    then str_replace repo "http://" "https://" else repo in
                  if Py.startswith repo "https://github.com/" then
                    match getitem pkgInfo "name" with
                    | Raise e => Throw e
                    | Ok name =>
                        (* Some projects include extra context in their repo URL;
                           strip it off. *)
                        let repo :=
                          foldl strip_suffix repo
                            [ ".git";
                              "/tree/main/" +:+ str name;
                              "/tree/master/" +:+ str name ] in
                        (* Try a couple of common locations for the license file. *)
                        io_bind
                          (probe_license_url repo licenseFile
                             [ "/main/";
                               "/master/";
                               "/main/" +:+ str name +:+ "/";
                               "/master/" +:+ str name +:+ "/" ])
                          (λ found,
                             match found with
                             | Some licenseUrl => Pure (VStr (human_friendly licenseUrl))
                             | None =>
                                 (* No potential URLs were actually live. *)
                                 no_license_url (VStr repo) chosenLicense licenseFile
                                   pkgInfo
                             end)
                    end
                  else no_license_url (VStr repo) chosenLicense licenseFile pkgInfo
            end
      end
  | licenseUrl => Pure licenseUrl
  end.

(** ** The licensing information of a dependency *)

(** [_fetch_license_text] and [_find_license_url] with the license file as
    [_find_license_file] returned it: a declared license file is a string in
    the output of cargo and in the tables; another value is not followed
    further where the tool would use it as a string. *)
Definition fetch_license_text_of (id : string) (licenseFile : value)
    (pkgInfo : gmap string value) : io value :=
  match licenseFile with
  | VStr file => _fetch_license_text id file pkgInfo
  | _ =>
      match pkgInfo !! "license_text" with
      | Some text => Pure text
      | None => Throw (TypeError "license_file")
      end
  end.

Definition find_license_url_of (id chosenLicense : string) (licenseFile : value)
    (pkgInfo : gmap string value) : io value :=
  match licenseFile with
  | VStr file => _find_license_url id chosenLicense file pkgInfo
  | _ =>
      match get pkgInfo "license_url" with
      | VNone => Throw (TypeError "license_file")
      | licenseUrl => Pure licenseUrl
      end
  end.

(** [assert v is not None] *)
Definition assert_not_none (v : value) : result unit :=
  match v with
  | VNone => Raise (AssertionError "")
  | _ => Ok tt
  end.

(** [WorkspaceMetadata.get_license_info] *)
Definition get_license_info (self : WorkspaceMetadata) (id : string)
  : io (gmap string value) :=
  match pkgInfoById self !! VStr id with
  | None => Throw (KeyError id)
  | Some pkgInfo =>
      io_bind (lift (licenseId ← getstr pkgInfo "license";
                     pick_most_acceptable_license id licenseId))
        (λ chosenLicense,
      io_bind (_find_license_file id chosenLicense pkgInfo)
        (λ licenseFile,
      io_bind (lift (name ← getitem pkgInfo "name";
                     _ ← assert_not_none name;
                     repository ← getitem pkgInfo "repository";
                     _ ← assert_not_none repository;
                     Ok (name, repository)))
        (λ '(name, repository),
      io_bind (fetch_license_text_of id licenseFile pkgInfo)
        (λ license_text,
      io_bind (find_license_url_of id chosenLicense licenseFile pkgInfo)
        (λ license_url,
      Pure (list_to_map
              [ ("name", name);
                (* Our fake external packages don't have an id. *)
                ("id", default name (pkgInfo !! "id"));
                ("repository", repository);
                ("license", VStr chosenLicense);
                ("license_file", licenseFile);
                ("license_text", license_text);
                ("license_url", license_url) ]))))))
  end.

(** The loop [for id in deps] of [get_dependency_summary], for the resolved
    dependencies in the order in which the set is read, and all that it
    yields. *)
Fixpoint dependency_summary_of (self : WorkspaceMetadata) (deps : list string)
  : io (list (gmap string value)) :=
  match deps with
  | [] => Pure []
  | id :: deps' =>
      match is_external_dependency self id with
      | Raise e => Throw e
      | Ok false => dependency_summary_of self deps'
      | Ok true =>
          io_bind (get_license_info self id) (λ info,
          io_bind (dependency_summary_of self deps') (λ infos,
          Pure (info :: infos)))
      end
  end.

End LicenseUrl.

(** ** Notions used in the statements *)








(** The assertion of a rule whose check fails. *)
Definition fixup_check_failed (name key : string) (actual : value) (expected : scalar)
  : exn :=
  AssertionError ("Fixup check failed for " +:+ name +:+ "." +:+ key +:+ ": "
                  +:+ str actual +:+ " != " +:+ str (of_scalar expected)).

(** The record of a package after the rules configured for its name. *)
Definition fixed_up (name : value) (info : gmap string value)
  : result (gmap string value) :=
  fixups ← assoc_value name PACKAGE_METADATA_FIXUPS;
  match fixups with
  | Some fixups => apply_fixups fixups info
  | None => Ok info
  end.

(** Whether a record is filed under the key [k]. *)
Definition has_key (k : string) (info : license_info) : bool :=
  String.eqb (licenseTextHash info) k.

(** The key by which the members of a group are sorted. *)
Definition member_key (i : license_info) : string * string := (info_name i, info_id i).

(** The members of the group filed under [k], in their order. *)
Definition members_of (k : string) (deps : list license_info) : list license_info :=
  sorted member_key pair_ltb (List.filter (has_key k) deps).

(** The error of the search for the Apache-2.0 text. *)
Definition no_apache_text : exn :=
  RuntimeError "Could not find appropriate apache license text".

(** The licenses with a shared text, as the specification lists them. *)
Definition shared_license (license : string) : Prop :=
  license = "MPL-2.0" ∨ license = "Apache-2.0" ∨ ∃ rest, license = "EXT-" +:+ rest.

(** The digest that enters the key of a record. *)
Definition text_digest (info : license_info) : string :=
  SHA256.hexdigest (SHA256.utf8 (Py.remove_whitespace (info_license_text info))).

(** The name of a package that the constructor leaves out: one of the strings
    of [EXCLUDED_PACKAGES]. *)
Definition excluded_name (name : value) : Prop :=
  ∃ s, name = VStr s ∧ s ∈ EXCLUDED_PACKAGES.

(** The two indexes while the packages [seen] have been read: every entry of
    the index by identifier is the corrected record of a package that is not
    excluded, filed under its own identifier and present in the index by
    manifest path, and the other way round. *)
Definition indexed (seen : list (gmap string value))
    (byId byPath : gmap value (gmap string value)) : Prop :=
  (∀ id info, byId !! id = Some info →
     ∃ orig name path,
       orig ∈ seen ∧ orig !! "name" = Some name ∧ hash_key name = Ok tt
       ∧ ¬ excluded_name name ∧ fixed_up name orig = Ok info
       ∧ info !! "id" = Some id
       ∧ info !! "manifest_path" = Some path ∧ byPath !! path = Some info)
  ∧ (∀ path info, byPath !! path = Some info →
       info !! "manifest_path" = Some path
       ∧ ∃ id, info !! "id" = Some id ∧ byId !! id = Some info).

(** The text in which every character [c] is replaced by [f c]. *)
Fixpoint substitute (f : ascii → string) (s : string) : string :=
  match s with
  | EmptyString => EmptyString
  | String c s' => f c +:+ substitute f s'
  end.

(** What [s.replace(old, new)] does to one character when [old] is a single
    character. *)
Definition replace_char (old : ascii) (new : string) (c : ascii) : string :=
  if Ascii.eqb old c then new else String c EmptyString.

(** [xml.sax.saxutils.unescape(data)]: the ampersand last. *)
Definition unescape (data : string) : string :=
  let data := str_replace data "&lt;" "<" in
  let data := str_replace data "&gt;" ">" in
  str_replace data "&amp;" "&".

(** The lines printed before the sections. *)
Definition markdown_preamble : list string :=
  [ "# Licenses for Third-Party Dependencies";
    "";
    "Binary distributions of this software incorporate code from a number of third-party dependencies.";
    "These dependencies are available under a variety of free and open source licenses,";
    "the details of which are reproduced below.";
    "" ].

(** The lines of a section up to the fence that opens its license text, and
    all the lines of a section. *)
Definition section_opening (section : group) : list string :=
  [ "## " +:+ group_title section;
    "";
    "The following text applies to code linked from these dependencies:"
    +:+ LF +:+ Py.join ("," +:+ LF) (section_pkgs section);
    "";
    "```" ].

Definition section_block (section : group) : list string :=
  section_opening section ++ [ group_license_text section; "```"; "-------------" ].

Definition escape_char (c : ascii) : string :=
  if Ascii.eqb c "&" then "&amp;"
  else if Ascii.eqb c ">" then "&gt;"
  else if Ascii.eqb c "<" then "&lt;"
  else String c EmptyString.

(** The lines printed before the entries of the [.pom] file. *)
Definition pom_preamble : list string :=
  [ "<licenses>";
    "<!--";
    "Binary distributions of this software incorporate code from a number of third-party dependencies.";
    "These dependencies are available under a variety of free and open source licenses,";
    "the details of which are reproduced below.";
    "-->" ].

(** A line of an entry: a tag of its own, or a name or URL between tags, with
    no [<] or [>] of its own. *)
Definition pom_line (line : string) : Prop :=
  line = "  <license>" ∨ line = "  </license>"
  ∨ ∃ open_tag close_tag text,
      line = open_tag +:+ text +:+ close_tag
      ∧ (open_tag, close_tag) ∈ [ ("    <name>", "</name>"); ("    <url>", "</url>") ]
      ∧ Py.contains text "<" = false ∧ Py.contains text ">" = false.

(** The repository after the loop over the suffixes. *)
Definition stripped_repository (repo : string) (name : value) : string :=
  foldl strip_suffix repo
    [ ".git"; "/tree/main/" +:+ str name; "/tree/master/" +:+ str name ].

(** The address that is tried for a location [path]. *)
Definition license_url_candidate (repo licenseFile path : string) : string :=
  str_replace repo "github.com" "raw.githubusercontent.com" +:+ (path +:+ licenseFile).

(** The addresses that are tried for a package on GitHub, in their order. *)
Definition license_url_candidates (repo : string) (name : value) (licenseFile : string)
  : list string :=
  license_url_candidate (stripped_repository repo name) licenseFile
    <$> [ "/main/"; "/master/";
          "/main/" +:+ str name +:+ "/"; "/master/" +:+ str name +:+ "/" ].

(** The address [url] does not answer with status 200 in the world [w]. *)
Definition not_live (w : world) (url : string) : Prop :=
  ∃ r, requests_get w url = Ok r ∧ status_code r ≠ 200%Z.

(** The repository after [http://] is replaced for an address on GitHub. *)
Definition https_repository (repo : string) : string :=
  if Py.startswith repo "http://github.com/"
  then str_replace repo "http://" "https://" else repo.

(** A call that is a directory listing. *)
Definition is_listing (ev : event) : Prop := ∃ path, ev = EListDir path.

(** ** Sample inputs *)

(** A package with a rule that replaces [license_file]. *)
Definition adler32_info (license_file : value) : gmap string value :=
  list_to_map
    [ ("name", VStr "adler32");
      ("id", VStr "registry+https://github.com/rust-lang/crates.io-index#adler32@1.2.0");
      ("manifest_path", VStr "/home/user/.cargo/registry/src/adler32-1.2.0/Cargo.toml");
      ("license", VStr "Zlib");
      ("license_file", license_file);
      ("repository", VStr "https://github.com/remram44/adler32-rs") ].

(** A package with a rule that only checks [license]. *)
Definition publicsuffix_info (license : value) : gmap string value :=
  list_to_map
    [ ("name", VStr "publicsuffix");
      ("id", VStr "registry+https://github.com/rust-lang/crates.io-index#publicsuffix@1.5.4");
      ("manifest_path", VStr "/home/user/.cargo/registry/src/publicsuffix-1.5.4/Cargo.toml");
      ("license", license);
      ("repository", VStr "https://github.com/rushmorem/publicsuffix") ].

(** The output of [cargo metadata] for given packages. *)
Definition workspace_of (infos : list (gmap string value)) : cargo_metadata :=
  {| packages := infos; workspace_members := []; workspace_root := "/home/user/src" |}.

(** A catalog with one package that wraps an external library. *)
Definition rusqlite_id : string :=
  "registry+https://github.com/rust-lang/crates.io-index#rusqlite@0.31.0".

Definition rusqlite_info : gmap string value :=
  list_to_map
    [ ("name", VStr "rusqlite");
      ("id", VStr rusqlite_id);
      ("manifest_path", VStr "/home/user/.cargo/registry/src/rusqlite-0.31.0/Cargo.toml");
      ("license", VStr "MIT");
      ("repository", VStr "https://github.com/rusqlite/rusqlite") ].

Definition sample_catalog : WorkspaceMetadata :=
  {| metadata := workspace_of [rusqlite_info];
     pkgInfoById := {[ VStr rusqlite_id := rusqlite_info ]};
     pkgInfoByManifestPath :=
       {[ VStr "/home/user/.cargo/registry/src/rusqlite-0.31.0/Cargo.toml"
          := rusqlite_info ]};
     workspaceMembersByName := ∅ |}.

(** A package in a registry directory. *)
Definition foo_info (license_file : value) : gmap string value :=
  list_to_map
    [ ("name", VStr "foo");
      ("id", VStr "registry+https://github.com/rust-lang/crates.io-index#foo@1.0.0");
      ("manifest_path", VStr "/registry/foo-1.0.0/Cargo.toml");
      ("license", VStr "MIT OR Apache-2.0");
      ("license_file", license_file);
      ("repository", VStr "https://example.org/foo") ].

(** A world with one directory and one file, and without a network. *)
Definition small_world (dir : string) (listing : list string) (file text : string)
  : world :=
  {| os_listdir := λ path, if String.eqb path dir then Ok listing else Raise (OSError path);
     read_file := λ path, if String.eqb path file then Ok text else Raise (OSError path);
     requests_get := λ url, Raise (OSError url) |}.

(** A license record of a package from the registry. *)
Definition record (name version license text : string) : license_info :=
  {| info_name := name;
     info_id := "registry+https://github.com/rust-lang/crates.io-index#" +:+ name
                +:+ "@" +:+ version;
     info_repository := "https://example.org/" +:+ name;
     info_license := license;
     info_license_file := "LICENSE";
     info_license_text := text;
     info_license_url := "https://example.org/" +:+ name +:+ "/blob/" +:+ version
                         +:+ "/LICENSE" |}.

(** Two MPL-2.0 records with different notices, and three BSD-3-Clause records
    of which the first and the last differ in whitespace only. *)
Definition mpl_a : license_info :=
  record "alpha" "1.0.0" "MPL-2.0" "Mozilla Public License Version 2.0. Copyright 2019 Alpha".
Definition mpl_b : license_info :=
  record "beta" "0.3.1" "MPL-2.0" "Mozilla Public License Version 2.0. Copyright 2021 Beta".
Definition bsd_a : license_info :=
  record "gamma" "2.1.0" "BSD-3-Clause"
    "Copyright (c) 2015 Alice. Redistribution and use in source and binary forms".
Definition bsd_b : license_info :=
  record "delta" "0.9.0" "BSD-3-Clause"
    "Copyright (c) 2018 Bob. Redistribution and use in source and binary forms".
Definition bsd_c : license_info :=
  record "epsilon" "1.4.2" "BSD-3-Clause"
    ("Copyright (c) 2015 Alice." +:+ LF
     +:+ "  Redistribution and use   in source and binary forms" +:+ LF).

Definition mixed_deps : list license_info := [ bsd_b; mpl_a; bsd_c; bsd_a; mpl_b ].

(** Two versions of one package, with notices that differ. *)
Definition foo_1 : license_info := record "foo" "1.0.0" "MIT" "Copyright 2019 Foo".
Definition foo_2 : license_info := record "foo" "2.0.0" "MIT" "Copyright 2021 Foo".

(** The first notice again, laid out in another way. *)
Definition foo_3 : license_info :=
  record "foo" "3.0.0" "MIT"
    ("Copyright  2019" +:+ String "010"%char EmptyString +:+ "   Foo ").

Definition notice_deps : list license_info := [ foo_1; foo_2; foo_3 ].

(** Apache-2.0 records: a customised text, the text of NSS, and two texts with
    the placeholder. *)
Definition apache_a : license_info :=
  record "aaa" "1.0.0" "Apache-2.0" "Apache License Version 2.0. Copyright 2020 AAA Inc.".
Definition apache_b : license_info :=
  record "bbb" "3.79.0" "Apache-2.0"
    "Apache License Version 2.0. Copyright [yyyy] [name of copyright owner]. NSS additions.".
Definition apache_c : license_info :=
  record "ccc" "0.2.0" "Apache-2.0"
    "Apache License Version 2.0. Copyright [yyyy] [name of copyright owner]".
Definition apache_d : license_info :=
  record "ddd" "0.1.0" "Apache-2.0"
    "Apache License, Version 2.0. Copyright [yyyy] [name of copyright owner]".
Definition mit_m : license_info :=
  record "mmm" "1.1.0" "MIT" "MIT License. Copyright (c) 2017 M".

Definition apache_deps : list license_info :=
  [ apache_d; mit_m; apache_b; apache_c; apache_a ].

(** The group that holds one record with an MIT license. *)
Definition singleton_group (hash : string) (i : license_info) : group :=
  {| group_title := "MIT License: " +:+ info_name i;
     group_dependencies := [ i ];
     group_license := "MIT";
     group_license_text_hash := hash;
     group_license_text := info_license_text i;
     group_license_url := info_license_url i |}.

Definition foo_group_1 : group :=
  singleton_group "MIT:937b049ee671be768acbe51f28179777eb42419a7b4c28355587101d84d887a2" foo_1.
Definition foo_group_2 : group :=
  singleton_group "MIT:654ef40ce1026785ddcd51523e63db531c7e8341d23cc6c5356ebc398ea5989a" foo_2.

(** A workspace with a crate of its own, a crate from the registry and an
    excluded package. *)
Definition logins_id : string := "path+file:///home/user/src/components/logins#0.1.0".

Definition logins_info : gmap string value :=
  list_to_map
    [ ("name", VStr "logins");
      ("id", VStr logins_id);
      ("manifest_path", VStr "/home/user/src/components/logins/Cargo.toml");
      ("source", VNone);
      ("license", VStr "MPL-2.0");
      ("repository", VStr "https://github.com/mozilla/application-services") ].

Definition fuchsia_info : gmap string value :=
  list_to_map
    [ ("name", VStr "fuchsia-cprng");
      ("id", VStr "registry+https://github.com/rust-lang/crates.io-index#fuchsia-cprng@0.1.1");
      ("manifest_path", VStr "/home/user/.cargo/registry/src/fuchsia-cprng-0.1.1/Cargo.toml");
      ("source", VStr "registry+https://github.com/rust-lang/crates.io-index");
      ("license", VNone) ].

Definition logins_metadata : cargo_metadata :=
  {| packages := [logins_info; fuchsia_info; rusqlite_info];
     workspace_members := [logins_id];
     workspace_root := "/home/user/src" |}.

Definition logins_catalog : WorkspaceMetadata :=
  {| metadata := logins_metadata;
     pkgInfoById :=
       list_to_map ((VStr logins_id, logins_info) :: (VStr rusqlite_id, rusqlite_info)
                    :: (prod_map VStr id <$> EXTRA_PACKAGE_METADATA));
     pkgInfoByManifestPath :=
       list_to_map
         [ (VStr "/home/user/src/components/logins/Cargo.toml", logins_info);
           (VStr "/home/user/.cargo/registry/src/rusqlite-0.31.0/Cargo.toml",
            rusqlite_info) ];
     workspaceMembersByName := {[ VStr "logins" := logins_id ]} |}.

(** A workspace whose only package has [None] as its name and as its
    manifest path. *)
Definition scratch_id : string := "path+file:///home/user/src/scratch#0.1.0".

Definition scratch_info : gmap string value :=
  list_to_map
    [ ("name", VNone);
      ("id", VStr scratch_id);
      ("manifest_path", VNone);
      ("source", VNone);
      ("license", VStr "MPL-2.0") ].

Definition scratch_metadata : cargo_metadata :=
  {| packages := [scratch_info];
     workspace_members := [scratch_id];
     workspace_root := "/home/user/src" |}.

Definition scratch_catalog : WorkspaceMetadata :=
  {| metadata := scratch_metadata;
     pkgInfoById :=
       list_to_map ((VStr scratch_id, scratch_info)
                    :: (prod_map VStr id <$> EXTRA_PACKAGE_METADATA));
     pkgInfoByManifestPath := {[ VNone := scratch_info ]};
     workspaceMembersByName := {[ VNone := scratch_id ]} |}.

(** A record whose license text contains a fence. *)
Definition fenced : license_info :=
  record "zeta" "0.5.0" "MIT" ("MIT License. Use it as follows:" +:+ LF +:+ "```").

Definition fenced_deps : list license_info := [ fenced; mpl_a ].

Definition sample_scheme (s : string) : result string :=
  Ok (if Py.startswith s "https://" then "https" else "").

Definition github_world : world :=
  {| os_listdir := λ path,
       if String.eqb path "/home/user/.cargo/registry/src/rusqlite-0.31.0"
       then Ok [ "Cargo.toml"; "LICENSE"; "src" ] else Raise (OSError path);
     read_file := λ path,
       if String.eqb path "/home/user/.cargo/registry/src/rusqlite-0.31.0/LICENSE"
       then Ok "Copyright (c) 2014 The rusqlite developers" else Raise (OSError path);
     requests_get := λ url,
       Ok {| status_code :=
               if String.eqb url
                    "https://raw.githubusercontent.com/rusqlite/rusqlite/master/LICENSE"
               then 200%Z else 404%Z;
             decoded := Some "" |} |}.

(** A world in which no address is live, and a package whose repository
    address ends with [.git]. *)
Definition offline_world : world :=
  {| os_listdir := λ path, Raise (OSError path);
     read_file := λ path, Raise (OSError path);
     requests_get := λ url, Ok {| status_code := 404%Z; decoded := Some "" |} |}.

Definition adler32_git_info : gmap string value :=
  list_to_map
    [ ("name", VStr "adler32");
      ("id", VStr "registry+https://github.com/rust-lang/crates.io-index#adler32@1.2.0");
      ("manifest_path", VStr "/home/user/.cargo/registry/src/adler32-1.2.0/Cargo.toml");
      ("license", VStr "Zlib");
      ("repository", VStr "https://github.com/remram44/adler32-rs.git") ].

Definition unpublished_id : string :=
  "registry+https://github.com/rust-lang/crates.io-index#unpublished@0.1.0".

Definition unpublished_info : gmap string value :=
  list_to_map
    [ ("name", VStr "unpublished");
      ("id", VStr unpublished_id);
      ("manifest_path", VStr "/home/user/.cargo/registry/src/rusqlite-0.31.0/Cargo.toml");
      ("license", VStr "MIT");
      ("repository", VNone) ].

Definition unpublished_catalog : WorkspaceMetadata :=
  {| metadata := workspace_of [unpublished_info];
     pkgInfoById := {[ VStr unpublished_id := unpublished_info ]};
     pkgInfoByManifestPath :=
       {[ VStr "/home/user/.cargo/registry/src/rusqlite-0.31.0/Cargo.toml"
          := unpublished_info ]};
     workspaceMembersByName := ∅ |}.

(** * Properties *)

Set Warnings "-clear-no-such-hyp".

(** ** Strings *)

Lemma append_cons (c : ascii) (s t : string) : String c s +:+ t = String c (s +:+ t).
Proof. reflexivity. Qed.

Lemma append_nil_l (t : string) : "" +:+ t = t.
Proof. reflexivity. Qed.

Lemma append_nil_r (s : string) : s +:+ "" = s.
Proof. induction s as [|c s IH]; [done|]. by rewrite append_cons, IH. Qed.

Lemma append_assoc (s t u : string) : (s +:+ t) +:+ u = s +:+ t +:+ u.
Proof. induction s as [|c s IH]; [done|]. by rewrite !append_cons, IH. Qed.

Lemma startswith_spec (s p : string) :
  Py.startswith s p = true ↔ ∃ q, s = p +:+ q.
Proof.
  revert s. induction p as [|a p IH]; intros s; simpl.
  - split; [intros _; exists s; reflexivity|done].
  - destruct s as [|b s].
    + split; [done|]. intros [q Hq]. rewrite append_cons in Hq. discriminate.
    + destruct (Ascii.eqb a b) eqn:E.
      * apply Ascii.eqb_eq in E as ->. rewrite IH. split.
        -- intros [q ->]. by exists q.
        -- intros [q Hq]. rewrite append_cons in Hq. injection Hq as ->. by exists q.
      * split; [done|]. intros [q Hq]. rewrite append_cons in Hq.
        injection Hq as -> _. by rewrite Ascii.eqb_refl in E.
Qed.

Lemma rev_app_append (s t : string) : String.rev_app s t = String.rev_app s "" +:+ t.
Proof.
  revert t. induction s as [|c s IH]; intros t; simpl; [done|].
  rewrite IH, (IH (String c "")), append_assoc. done.
Qed.

Lemma rev_cons (c : ascii) (s : string) : String.rev (String c s) = String.rev s +:+ String c "".
Proof. unfold String.rev. simpl. apply rev_app_append. Qed.

Lemma rev_append (s t : string) : String.rev (s +:+ t) = String.rev t +:+ String.rev s.
Proof.
  induction s as [|c s IH].
  - by rewrite append_nil_l, append_nil_r.
  - by rewrite append_cons, !rev_cons, IH, append_assoc.
Qed.

Lemma rev_involutive (s : string) : String.rev (String.rev s) = s.
Proof.
  induction s as [|c s IH]; [done|].
  by rewrite rev_cons, rev_append, IH.
Qed.

Lemma endswith_spec (s p : string) :
  Py.endswith s p = true ↔ ∃ q, s = q +:+ p.
Proof.
  unfold Py.endswith. rewrite startswith_spec. split.
  - intros [q Hq]. exists (String.rev q).
    rewrite <- (rev_involutive s), Hq, rev_append. by rewrite rev_involutive.
  - intros [q ->]. exists (String.rev q). by rewrite rev_append.
Qed.

(** ** The license preference policy *)



(** ** The separator pattern *)






Lemma startswith_cons (a b : ascii) (s p : string) :
  Py.startswith (String b s) (String a p)
  = if Ascii.eqb a b then Py.startswith s p else false.
Proof. reflexivity. Qed.







(** ** Choosing a license *)


Example pick_MIT_OR_Apache :
  pick_most_acceptable_license "serde" "MIT OR Apache-2.0" = Ok "Apache-2.0".
Proof. by vm_compute. Qed.

Example pick_MIT_slash_Apache :
  pick_most_acceptable_license "libc" "MIT/Apache-2.0" = Ok "Apache-2.0".
Proof. by vm_compute. Qed.

Example pick_GPL :
  pick_most_acceptable_license "readline" "GPL-3.0"
  = Raise (RuntimeError
             "Could not determine acceptable license for readline; license is 'GPL-3.0'").
Proof. by vm_compute. Qed.

(** [OR] separates only as a word of its own: without whitespace around it
    the expression is one candidate. *)
Example pick_OR_needs_whitespace :
  re_split LICENSE_SEPARATOR "MITORApache-2.0" = [ "MITORApache-2.0" ]
  ∧ is_ok (pick_most_acceptable_license "x" "MITORApache-2.0") = false.
Proof. split; vm_compute; reflexivity. Qed.

(** *** The splitting rule *)
















(** *** Expressions without a separator *)














(** C8: the two compound expressions come back unchanged, for every
    dependency; the general path would have split them and found no
    acceptable candidate. *)
Theorem pick_most_acceptable_license_compound_verbatim (id : string) :
  pick_most_acceptable_license id "(Apache-2.0 OR MIT) AND BSD-3-Clause"
  = Ok "(Apache-2.0 OR MIT) AND BSD-3-Clause"
  ∧ pick_most_acceptable_license id "(MIT OR Apache-2.0) AND Unicode-3.0"
    = Ok "(MIT OR Apache-2.0) AND Unicode-3.0"
  ∧ first_acceptable LICENSES_IN_PREFERENCE_ORDER
      (license_candidates "(Apache-2.0 OR MIT) AND BSD-3-Clause") = None
  ∧ first_acceptable LICENSES_IN_PREFERENCE_ORDER
      (license_candidates "(MIT OR Apache-2.0) AND Unicode-3.0") = None.
Proof. split_and!; by vm_compute. Qed.

(** ** Metadata fixups *)

Lemma assoc_elem_of {A : Type} (key : string) (d : list (string * A)) (a : A) :
  assoc key d = Some a → (key, a) ∈ d.
Proof.
  induction d as [|[k b] d IH]; simpl; [done|].
  destruct (String.eqb_spec key k) as [->|].
  - intros [= ->]. left.
  - intros H. right. auto.
Qed.

Lemma apply_fixup_pass (info : gmap string value) (key : string) (X : scalar)
    (f : option scalar) :
  value_eq_scalar (get info key) X = true →
  apply_fixup info key {| check := Some X; fixup := f |}
  = Ok (match f with Some Y => <[key := of_scalar Y]> info | None => info end).
Proof. intros H. unfold apply_fixup. simpl. rewrite H. by destruct f. Qed.

Lemma apply_fixup_fail (info : gmap string value) (key : string) (X : scalar)
    (f : option scalar) (name : value) :
  value_eq_scalar (get info key) X = false →
  info !! "name" = Some name →
  apply_fixup info key {| check := Some X; fixup := f |}
  = Raise (fixup_check_failed (str name) key (get info key) X).
Proof.
  intros H Hname. unfold apply_fixup, getitem. simpl. rewrite H, Hname. done.
Qed.

Lemma apply_fixup_Ok (info info' : gmap string value) (key : string) (change : fixup_rule) :
  apply_fixup info key change = Ok info' →
  value_eq_scalar (get info key) (default SNone (check change)) = true
  ∧ info' = match fixup change with
            | Some Y => <[key := of_scalar Y]> info
            | None => info
            end.
Proof.
  unfold apply_fixup.
  destruct (value_eq_scalar _ _); simpl.
  - destruct (fixup change); intros [= <-]; done.
  - destruct (getitem info "name"); simpl; [|done]. by destruct (check change).
Qed.

Lemma apply_fixups_app (a b : list (string * fixup_rule)) (info : gmap string value) :
  apply_fixups (a ++ b) info = (info' ← apply_fixups a info; apply_fixups b info').
Proof.
  revert info. induction a as [|[key change] a IH]; intros info; simpl; [done|].
  destruct (apply_fixup info key change); simpl; [apply IH|done].
Qed.

(** A field changes only under a rule that carries a replacement. *)
Lemma apply_fixups_frame (fixups : list (string * fixup_rule))
    (info info' : gmap string value) (key : string) :
  apply_fixups fixups info = Ok info' →
  (∀ rule, (key, rule) ∈ fixups → fixup rule = None) →
  info' !! key = info !! key.
Proof.
  revert info. induction fixups as [|[k change] fixups IH]; intros info; simpl.
  - by intros [= ->].
  - destruct (apply_fixup info k change) as [info1|] eqn:H1; simpl; [|done].
    intros Hrest Hnone. apply apply_fixup_Ok in H1 as [_ ->].
    rewrite (IH _ Hrest); [|intros rule Hr; apply Hnone; by right].
    destruct (fixup change) as [Y|] eqn:HY; [|done].
    destruct (decide (k = key)) as [->|Hne].
    + rewrite (Hnone change) in HY; [done|left].
    + by rewrite lookup_insert_ne.
Qed.

Lemma get_frame (fixups : list (string * fixup_rule))
    (info info' : gmap string value) (key : string) :
  apply_fixups fixups info = Ok info' →
  key ∉ fixups.*1 →
  get info' key = get info key.
Proof.
  intros H Hkey. unfold get. rewrite (apply_fixups_frame _ _ _ _ H); [done|].
  intros rule Hr. exfalso. apply Hkey. apply list_elem_of_fmap. by exists (key, rule).
Qed.

(** When the rules have run, each of them has seen the value it expects and
    a replacement is in place wherever one was given. *)
Lemma apply_fixups_Ok (fixups : list (string * fixup_rule))
    (info info' : gmap string value) (key : string) (rule : fixup_rule) :
  NoDup fixups.*1 →
  apply_fixups fixups info = Ok info' →
  (key, rule) ∈ fixups →
  value_eq_scalar (get info key) (default SNone (check rule)) = true
  ∧ info' !! key = match fixup rule with
                   | Some Y => Some (of_scalar Y)
                   | None => info !! key
                   end.
Proof.
  revert info. induction fixups as [|[k change] fixups IH]; intros info Hnd; simpl.
  - intros _ Hin. by apply elem_of_nil in Hin.
  - apply NoDup_cons in Hnd as [Hk Hnd].
    destruct (apply_fixup info k change) as [info1|] eqn:H1; simpl; [|done].
    intros Hrest Hin. apply apply_fixup_Ok in H1 as [Hcheck ->].
    apply elem_of_cons in Hin as [[= -> ->]|Hin].
    + split; [done|].
      rewrite (apply_fixups_frame _ _ _ _ Hrest).
      * destruct (fixup change); [by rewrite lookup_insert_eq|done].
      * intros rule Hr. exfalso. apply Hk. apply list_elem_of_fmap. by exists (k, rule).
    + assert (k ≠ key) as Hne.
      { intros ->. apply Hk. apply list_elem_of_fmap. by exists (key, rule). }
      destruct (IH _ Hnd Hrest Hin) as [Hc Hv]. split.
      * rewrite <- Hc. unfold get. destruct (fixup change); [|done].
        by rewrite lookup_insert_ne.
      * rewrite Hv. destruct (fixup rule); [done|].
        destruct (fixup change); [|done]. by rewrite lookup_insert_ne.
Qed.

(** The first rule whose check fails stops the loop with its message. *)
Lemma apply_fixups_first_failure (fpre fpost : list (string * fixup_rule))
    (info info1 : gmap string value) (key : string) (X : scalar) (f : option scalar)
    (name : value) :
  apply_fixups fpre info = Ok info1 →
  value_eq_scalar (get info1 key) X = false →
  info1 !! "name" = Some name →
  apply_fixups (fpre ++ (key, {| check := Some X; fixup := f |}) :: fpost) info
  = Raise (fixup_check_failed (str name) key (get info1 key) X).
Proof.
  intros Hpre Hfail Hname. rewrite apply_fixups_app, Hpre. simpl.
  by rewrite (apply_fixup_fail _ _ _ _ name).
Qed.

(** *** The table *)

Lemma fixup_table_keys_distinct :
  Forall (λ entry, NoDup entry.2.*1) PACKAGE_METADATA_FIXUPS.
Proof. apply (bool_decide_unpack _). by vm_compute. Qed.

Lemma fixup_table_fields :
  Forall (λ entry,
            Forall (λ rule, rule.1 ∈ ["license"; "licence"; "license_file";
                                      "license_url"; "repository"; "version"])
                   entry.2)
         PACKAGE_METADATA_FIXUPS.
Proof. apply (bool_decide_unpack _). by vm_compute. Qed.

(** *** Catalog construction *)

Lemma bind_Ok {A B : Type} (r : result A) (k : A → result B) (b : B) :
  r ≫= k = Ok b → ∃ a, r = Ok a ∧ k a = Ok b.
Proof. destruct r as [a|e]; [by exists a|done]. Qed.

Lemma getstr_Ok (info : gmap string value) (key s : string) :
  getstr info key = Ok s ↔ info !! key = Some (VStr s).
Proof.
  unfold getstr, getitem. destruct (info !! key) as [[| |]|]; simpl; naive_solver.
Qed.

Lemma getitem_Ok (info : gmap string value) (key : string) (v : value) :
  getitem info key = Ok v ↔ info !! key = Some v.
Proof. unfold getitem. destruct (info !! key); naive_solver. Qed.

Lemma index_new_Ok {A : Type} (key : value) (a : A) (index index' : gmap value A) :
  index_new key a index = Ok index' → index !! key = None ∧ index' = <[key := a]> index.
Proof.
  unfold index_new. destruct (hash_key key); simpl; [|done].
  destruct (index !! key); naive_solver.
Qed.

Lemma index_new_mono {A : Type} (key : value) (a : A) (index index' : gmap value A)
    (k : value) (v : A) :
  index_new key a index = Ok index' → index !! k = Some v → index' !! k = Some v.
Proof.
  intros [Hfresh ->]%index_new_Ok Hk. rewrite lookup_insert_ne; [done|]. congruence.
Qed.

Lemma load_package_eq (info : gmap string value)
    (byId byPath : gmap value (gmap string value)) :
  load_package info byId byPath
  = (name ← getitem info "name";
     excluded ← in_set name EXCLUDED_PACKAGES;
     if (excluded : bool) then Ok (info, byId, byPath)
     else
       info ← fixed_up name info;
       id ← getitem info "id";
       byId ← index_new id info byId;
       path ← getitem info "manifest_path";
       byPath ← index_new path info byPath;
       Ok (info, byId, byPath)).
Proof.
  unfold load_package, fixed_up.
  destruct (getitem info "name") as [name|]; simpl; [|done].
  destruct (in_set name EXCLUDED_PACKAGES) as [[|]|]; simpl; [done| |done].
  by destruct (assoc_value name PACKAGE_METADATA_FIXUPS) as [[fixups|]|].
Qed.

Lemma fixed_up_str (name : string) (info : gmap string value) :
  fixed_up (VStr name) info
  = match assoc name PACKAGE_METADATA_FIXUPS with
    | Some fixups => apply_fixups fixups info
    | None => Ok info
    end.
Proof. reflexivity. Qed.

Lemma load_package_Ok (info info' : gmap string value)
    (byId byPath byId' byPath' : gmap value (gmap string value)) (name : string) :
  load_package info byId byPath = Ok (info', byId', byPath') →
  info !! "name" = Some (VStr name) →
  name ∉ EXCLUDED_PACKAGES →
  fixed_up (VStr name) info = Ok info'
  ∧ ∃ id, info' !! "id" = Some id ∧ byId' = <[id := info']> byId.
Proof.
  intros H Hname Hex. rewrite load_package_eq in H.
  apply getitem_Ok in Hname. rewrite Hname in H. simpl in H.
  rewrite bool_decide_eq_false_2 in H by done.
  destruct (fixed_up (VStr name) info) as [info1|]; simpl in H; [|done].
  destruct (getitem info1 "id") as [id|] eqn:Hid; simpl in H; [|done].
  destruct (index_new id info1 byId) as [byId1|] eqn:HbyId; simpl in H; [|done].
  destruct (getitem info1 "manifest_path") as [path|]; simpl in H; [|done].
  destruct (index_new path info1 byPath) as [byPath1|]; simpl in H; [|done].
  injection H as <- <- <-. split; [done|].
  exists id. apply getitem_Ok in Hid. apply index_new_Ok in HbyId as [_ ->]. done.
Qed.

Lemma load_package_mono (info info' : gmap string value)
    (byId byPath byId' byPath' : gmap value (gmap string value))
    (k : value) (v : gmap string value) :
  load_package info byId byPath = Ok (info', byId', byPath') →
  byId !! k = Some v → byId' !! k = Some v.
Proof.
  intros H Hk. rewrite load_package_eq in H.
  destruct (getitem info "name") as [name|]; simpl in H; [|done].
  destruct (in_set name EXCLUDED_PACKAGES) as [[|]|]; simpl in H;
    [by injection H as <- <- <-| |done].
  destruct (fixed_up name info) as [info1|]; simpl in H; [|done].
  destruct (getitem info1 "id") as [id|]; simpl in H; [|done].
  destruct (index_new id info1 byId) as [byId1|] eqn:HbyId; simpl in H; [|done].
  destruct (getitem info1 "manifest_path") as [path|]; simpl in H; [|done].
  destruct (index_new path info1 byPath) as [byPath1|]; simpl in H; [|done].
  injection H as <- <- <-. by eapply index_new_mono.
Qed.

Lemma load_packages_mono (infos infos' : list (gmap string value))
    (byId byPath byId' byPath' : gmap value (gmap string value))
    (k : value) (v : gmap string value) :
  load_packages infos byId byPath = Ok (infos', byId', byPath') →
  byId !! k = Some v → byId' !! k = Some v.
Proof.
  revert infos' byId byPath. induction infos as [|info infos IH];
    intros infos' byId byPath H Hk; simpl in H.
  - by injection H as <- <- <-.
  - destruct (load_package info byId byPath) as [[[info1 byId1] byPath1]|] eqn:H1;
      simpl in H; [|done].
    destruct (load_packages infos byId1 byPath1) as [[[rest byId2] byPath2]|] eqn:H2;
      simpl in H; [|done].
    injection H as <- <- <-.
    eapply IH; [done|]. by eapply load_package_mono.
Qed.

Lemma load_packages_Ok (infos infos' : list (gmap string value))
    (byId byPath byId' byPath' : gmap value (gmap string value))
    (info : gmap string value) (name : string) :
  load_packages infos byId byPath = Ok (infos', byId', byPath') →
  info ∈ infos →
  info !! "name" = Some (VStr name) →
  name ∉ EXCLUDED_PACKAGES →
  ∃ info' id, fixed_up (VStr name) info = Ok info'
              ∧ info' !! "id" = Some id ∧ byId' !! id = Some info'.
Proof.
  revert infos' byId byPath. induction infos as [|i infos IH];
    intros infos' byId byPath H Hin Hname Hex; simpl in H.
  - by apply elem_of_nil in Hin.
  - destruct (load_package i byId byPath) as [[[info1 byId1] byPath1]|] eqn:H1;
      simpl in H; [|done].
    destruct (load_packages infos byId1 byPath1) as [[[rest byId2] byPath2]|] eqn:H2;
      simpl in H; [|done].
    injection H as <- <- <-.
    apply elem_of_cons in Hin as [->|Hin]; [|by eapply IH].
    destruct (load_package_Ok _ _ _ _ _ _ _ H1 Hname Hex) as (Hfix & id & Hid & ->).
    exists info1, id. split_and!; [done..|].
    eapply load_packages_mono; [done|]. by rewrite lookup_insert_eq.
Qed.

Lemma load_extras_mono (extras : list (string * gmap string value))
    (byId byId' : gmap value (gmap string value)) (k : value) (v : gmap string value) :
  load_extras extras byId = Ok byId' → byId !! k = Some v → byId' !! k = Some v.
Proof.
  revert byId. induction extras as [|[name info] extras IH]; intros byId H Hk; simpl in H.
  - by injection H as <-.
  - destruct (index_new (VStr name) info byId) as [byId1|] eqn:H1; simpl in H; [|done].
    eapply IH; [done|]. by eapply index_new_mono.
Qed.

(** A catalog holds, under its identifier, the corrected record of every
    package of the input that is not excluded. *)
Lemma init_Ok (md : cargo_metadata) (ws : WorkspaceMetadata)
    (info : gmap string value) (name : string) :
  init md = Ok ws →
  info ∈ packages md →
  info !! "name" = Some (VStr name) →
  name ∉ EXCLUDED_PACKAGES →
  ∃ info' id, fixed_up (VStr name) info = Ok info'
              ∧ info' !! "id" = Some id ∧ pkgInfoById ws !! id = Some info'.
Proof.
  intros H Hin Hname Hex. unfold init in H.
  apply bind_Ok in H as ([[infos byId] byPath] & H1 & H).
  apply bind_Ok in H as (byId' & H2 & H).
  apply bind_Ok in H as (members & _ & H).
  injection H as <-. cbn [pkgInfoById].
  destruct (load_packages_Ok _ _ _ _ _ _ _ _ H1 Hin Hname Hex) as (info' & id & ? & ? & ?).
  exists info', id. split_and!; [done..|]. by eapply load_extras_mono.
Qed.

(** The package at which the loop of the constructor stops, stops the
    constructor, with the same exception. *)
Lemma load_packages_first_failure (pre post pre' : list (gmap string value))
    (byId byPath byId' byPath' : gmap value (gmap string value))
    (info : gmap string value) (e : exn) :
  load_packages pre byId byPath = Ok (pre', byId', byPath') →
  load_package info byId' byPath' = Raise e →
  load_packages (pre ++ info :: post) byId byPath = Raise e.
Proof.
  revert pre' byId byPath. induction pre as [|i pre IH];
    intros pre' byId byPath Hpre Hfail; simpl in *.
  - injection Hpre as <- <- <-. by rewrite Hfail.
  - destruct (load_package i byId byPath) as [[[info1 byId1] byPath1]|]; simpl in *; [|done].
    destruct (load_packages pre byId1 byPath1) as [[[rest byId2] byPath2]|] eqn:H2;
      simpl in Hpre; [|done].
    injection Hpre as <- <- <-. by rewrite (IH _ _ _ H2 Hfail).
Qed.

Lemma load_package_fixup_failure (info : gmap string value)
    (byId byPath : gmap value (gmap string value)) (name : string) (e : exn) :
  info !! "name" = Some (VStr name) →
  name ∉ EXCLUDED_PACKAGES →
  fixed_up (VStr name) info = Raise e →
  load_package info byId byPath = Raise e.
Proof.
  intros Hname Hex Hfix. rewrite load_package_eq.
  apply getitem_Ok in Hname. rewrite Hname. simpl.
  rewrite bool_decide_eq_false_2 by done. by rewrite Hfix.
Qed.

Lemma fixup_table_not_excluded :
  Forall (λ entry, entry.1 ∉ EXCLUDED_PACKAGES) PACKAGE_METADATA_FIXUPS.
Proof. apply (bool_decide_unpack _). by vm_compute. Qed.

Lemma fixups_not_excluded (name : string) (fixups : list (string * fixup_rule)) :
  assoc name PACKAGE_METADATA_FIXUPS = Some fixups → name ∉ EXCLUDED_PACKAGES.
Proof.
  intros H%assoc_elem_of.
  by apply (proj1 (Forall_forall _ _) fixup_table_not_excluded (name, fixups)).
Qed.

Lemma fixups_distinct (name : string) (fixups : list (string * fixup_rule)) :
  assoc name PACKAGE_METADATA_FIXUPS = Some fixups → NoDup fixups.*1.
Proof.
  intros H%assoc_elem_of.
  by apply (proj1 (Forall_forall _ _) fixup_table_keys_distinct (name, fixups)).
Qed.

Lemma fixups_keep_name (name : string) (fixups : list (string * fixup_rule))
    (rule : fixup_rule) :
  assoc name PACKAGE_METADATA_FIXUPS = Some fixups → ("name", rule) ∉ fixups.
Proof.
  intros H%assoc_elem_of Hin.
  pose proof (proj1 (Forall_forall _ _) fixup_table_fields (name, fixups) H) as Hf.
  pose proof (proj1 (Forall_forall _ _) Hf ("name", rule) Hin) as Hk.
  simpl in Hk. rewrite !elem_of_cons, elem_of_nil in Hk.
  repeat (destruct Hk as [Hk|Hk]; [discriminate Hk|]). exact Hk.
Qed.

Lemma init_first_failure (md : cargo_metadata) (pre post pre' : list (gmap string value))
    (byId byPath : gmap value (gmap string value)) (info : gmap string value)
    (name : string) (e : exn) :
  packages md = pre ++ info :: post →
  load_packages pre ∅ ∅ = Ok (pre', byId, byPath) →
  info !! "name" = Some (VStr name) →
  name ∉ EXCLUDED_PACKAGES →
  fixed_up (VStr name) info = Raise e →
  init md = Raise e.
Proof.
  intros Hpk Hpre Hname Hex Hfix. unfold init. rewrite Hpk.
  rewrite (load_packages_first_failure pre post pre' _ _ byId byPath info e); [done|done|].
  by apply (load_package_fixup_failure _ _ _ name).
Qed.

(** The rule at which the rules of a package stop: those before it have
    passed, and it finds another value than the one it expects. *)
Lemma fixed_up_first_failure (name : string) (info info1 : gmap string value)
    (fixups fpre fpost : list (string * fixup_rule)) (key : string) (X : scalar)
    (f : option scalar) :
  info !! "name" = Some (VStr name) →
  assoc name PACKAGE_METADATA_FIXUPS = Some fixups →
  fixups = fpre ++ (key, {| check := Some X; fixup := f |}) :: fpost →
  apply_fixups fpre info = Ok info1 →
  value_eq_scalar (get info key) X = false →
  fixed_up (VStr name) info = Raise (fixup_check_failed name key (get info key) X).
Proof.
  intros Hname Hassoc Hsplit Hpre Hfail. rewrite fixed_up_str, Hassoc, Hsplit.
  assert (key ∉ fpre.*1) as Hkey.
  { pose proof (fixups_distinct _ _ Hassoc) as Hnd. rewrite Hsplit, fmap_app in Hnd.
    apply NoDup_app in Hnd as (_ & Hnd & _). intros Hin. apply (Hnd key Hin). left. }
  assert (info1 !! "name" = Some (VStr name)) as Hname1.
  { rewrite (apply_fixups_frame _ _ _ _ Hpre); [done|].
    intros rule Hin. exfalso. apply (fixups_keep_name name fixups rule Hassoc).
    rewrite Hsplit. apply elem_of_app. by left. }
  rewrite (apply_fixups_first_failure fpre fpost info info1 key X f (VStr name));
    [|done| |done].
  - by rewrite (get_frame _ _ _ _ Hpre Hkey).
  - by rewrite (get_frame _ _ _ _ Hpre Hkey).
Qed.

(** C2: a rule [{check: X, fixup: Y}] configured for a package of the input.
    When the catalog is built the field held [X] and holds [Y] in the catalog;
    when the field holds another value no catalog is built, and the constructor
    stops at this rule with the assertion that names the package, the field,
    the value found and the value expected. *)
Theorem fixup_checked_then_applied (md : cargo_metadata) (info : gmap string value)
    (name : string) (fixups : list (string * fixup_rule)) (key : string) (X Y : scalar) :
  info ∈ packages md →
  info !! "name" = Some (VStr name) →
  assoc name PACKAGE_METADATA_FIXUPS = Some fixups →
  (key, {| check := Some X; fixup := Some Y |}) ∈ fixups →
  (∀ ws, init md = Ok ws →
     value_eq_scalar (get info key) X = true
     ∧ ∃ info' id, info' !! "id" = Some id
                   ∧ pkgInfoById ws !! id = Some info'
                   ∧ apply_fixups fixups info = Ok info'
                   ∧ info' !! key = Some (of_scalar Y))
  ∧ (value_eq_scalar (get info key) X = false → is_ok (init md) = false)
  ∧ (value_eq_scalar (get info key) X = false →
     ∀ fpre fpost info1 pre post pre' byId byPath,
       fixups = fpre ++ (key, {| check := Some X; fixup := Some Y |}) :: fpost →
       apply_fixups fpre info = Ok info1 →
       packages md = pre ++ info :: post →
       load_packages pre ∅ ∅ = Ok (pre', byId, byPath) →
       init md
       = Raise (AssertionError
                  ("Fixup check failed for " +:+ name +:+ "." +:+ key +:+ ": "
                   +:+ str (get info key) +:+ " != " +:+ str (of_scalar X)))).
Proof.
  intros Hin Hname Hassoc Hrule.
  pose proof (fixups_not_excluded name fixups Hassoc) as Hex.
  assert (∀ ws, init md = Ok ws →
     value_eq_scalar (get info key) X = true
     ∧ ∃ info' id, info' !! "id" = Some id
                   ∧ pkgInfoById ws !! id = Some info'
                   ∧ apply_fixups fixups info = Ok info'
                   ∧ info' !! key = Some (of_scalar Y)) as Hok.
  { intros ws Hinit.
    destruct (init_Ok md ws info name Hinit Hin Hname Hex) as (info' & id & Hfix & Hid & Hcat).
    rewrite fixed_up_str, Hassoc in Hfix.
    destruct (apply_fixups_Ok fixups info info' key _ (fixups_distinct _ _ Hassoc) Hfix Hrule)
      as [Hcheck Hval].
    split; [done|]. by exists info', id. }
  split_and!; [done| |].
  - intros Hfail. destruct (init md) as [ws|] eqn:Hinit; [|done].
    destruct (Hok ws eq_refl) as [Hcheck _]. congruence.
  - intros Hfail fpre fpost info1 pre post pre' byId byPath Hsplit Hpre Hpk Hload.
    apply (init_first_failure md pre post pre' byId byPath info name); [done..|].
    by apply (fixed_up_first_failure name info info1 fixups fpre fpost key X (Some Y)).
Qed.

(** C9: a rule [{check: X}] without a replacement, configured for a package
    of the input.  When the catalog is built the field held [X] and the record
    in the catalog has the field exactly as the input had it, as it has every
    field for which no rule carries a replacement; when the field holds another
    value no catalog is built, and the constructor stops at this rule with the
    assertion. *)
Theorem check_only_rule_validates (md : cargo_metadata) (info : gmap string value)
    (name : string) (fixups : list (string * fixup_rule)) (key : string) (X : scalar) :
  info ∈ packages md →
  info !! "name" = Some (VStr name) →
  assoc name PACKAGE_METADATA_FIXUPS = Some fixups →
  (key, {| check := Some X; fixup := None |}) ∈ fixups →
  (∀ ws, init md = Ok ws →
     value_eq_scalar (get info key) X = true
     ∧ ∃ info' id, info' !! "id" = Some id
                   ∧ pkgInfoById ws !! id = Some info'
                   ∧ apply_fixups fixups info = Ok info'
                   ∧ info' !! key = info !! key
                   ∧ ∀ k, (∀ rule, (k, rule) ∈ fixups → fixup rule = None) →
                          info' !! k = info !! k)
  ∧ (∀ info0, value_eq_scalar (get info0 key) X = true →
              apply_fixup info0 key {| check := Some X; fixup := None |} = Ok info0)
  ∧ (value_eq_scalar (get info key) X = false → is_ok (init md) = false)
  ∧ (value_eq_scalar (get info key) X = false →
     ∀ fpre fpost info1 pre post pre' byId byPath,
       fixups = fpre ++ (key, {| check := Some X; fixup := None |}) :: fpost →
       apply_fixups fpre info = Ok info1 →
       packages md = pre ++ info :: post →
       load_packages pre ∅ ∅ = Ok (pre', byId, byPath) →
       init md
       = Raise (AssertionError
                  ("Fixup check failed for " +:+ name +:+ "." +:+ key +:+ ": "
                   +:+ str (get info key) +:+ " != " +:+ str (of_scalar X)))).
Proof.
  intros Hin Hname Hassoc Hrule.
  pose proof (fixups_not_excluded name fixups Hassoc) as Hex.
  assert (∀ ws, init md = Ok ws →
     value_eq_scalar (get info key) X = true
     ∧ ∃ info' id, info' !! "id" = Some id
                   ∧ pkgInfoById ws !! id = Some info'
                   ∧ apply_fixups fixups info = Ok info'
                   ∧ info' !! key = info !! key
                   ∧ ∀ k, (∀ rule, (k, rule) ∈ fixups → fixup rule = None) →
                          info' !! k = info !! k) as Hok.
  { intros ws Hinit.
    destruct (init_Ok md ws info name Hinit Hin Hname Hex) as (info' & id & Hfix & Hid & Hcat).
    rewrite fixed_up_str, Hassoc in Hfix.
    destruct (apply_fixups_Ok fixups info info' key _ (fixups_distinct _ _ Hassoc) Hfix Hrule)
      as [Hcheck Hval].
    split; [done|]. exists info', id. split_and!; [done..|].
    intros k Hk. by apply (apply_fixups_frame fixups). }
  split_and!; [done| | |].
  - intros info0 Hpass. by rewrite apply_fixup_pass.
  - intros Hfail. destruct (init md) as [ws|] eqn:Hinit; [|done].
    destruct (Hok ws eq_refl) as [Hcheck _]. congruence.
  - intros Hfail fpre fpost info1 pre post pre' byId byPath Hsplit Hpre Hpk Hload.
    apply (init_first_failure md pre post pre' byId byPath info name); [done..|].
    by apply (fixed_up_first_failure name info info1 fixups fpre fpost key X None).
Qed.

Lemma fixup_checked_then_applied_witness :
  (∃ ws info' id,
     init (workspace_of [adler32_info VNone]) = Ok ws
     ∧ info' !! "id" = Some id
     ∧ pkgInfoById ws !! id = Some info'
     ∧ info' !! "license_file"
       = Some (VStr "https://raw.githubusercontent.com/remram44/adler32-rs/master/LICENSE"))
  ∧ init (workspace_of [adler32_info (VStr "LICENSE")])
    = Raise (AssertionError
               "Fixup check failed for adler32.license_file: LICENSE != None").
Proof.
  split.
  - destruct (fixup_checked_then_applied
                (workspace_of [adler32_info VNone]) (adler32_info VNone) "adler32"
                [ ("license_file",
                   {| check := Some SNone;
                      fixup := Some (SStr "https://raw.githubusercontent.com/remram44/adler32-rs/master/LICENSE") |}) ]
                "license_file" SNone
                (SStr "https://raw.githubusercontent.com/remram44/adler32-rs/master/LICENSE"))
      as (Hok & _ & _).
    + left.
    + reflexivity.
    + reflexivity.
    + left.
    + assert (is_ok (init (workspace_of [adler32_info VNone])) = true) as Hrun
        by (vm_compute; reflexivity).
      destruct (init (workspace_of [adler32_info VNone])) as [ws|e] eqn:E;
        [|discriminate Hrun].
      destruct (Hok ws eq_refl) as (_ & info' & id & Hid & Hcat & _ & Hval).
      exists ws, info', id. split_and!; [exact eq_refl|exact Hid|exact Hcat|exact Hval].
  - destruct (fixup_checked_then_applied
                (workspace_of [adler32_info (VStr "LICENSE")]) (adler32_info (VStr "LICENSE"))
                "adler32"
                [ ("license_file",
                   {| check := Some SNone;
                      fixup := Some (SStr "https://raw.githubusercontent.com/remram44/adler32-rs/master/LICENSE") |}) ]
                "license_file" SNone
                (SStr "https://raw.githubusercontent.com/remram44/adler32-rs/master/LICENSE"))
      as (_ & _ & Hfail).
    + left.
    + reflexivity.
    + reflexivity.
    + left.
    + apply (Hfail eq_refl [] [] (adler32_info (VStr "LICENSE")) [] [] [] ∅ ∅);
        reflexivity.
Defined.

Lemma check_only_rule_validates_witness :
  (∃ ws info' id,
     init (workspace_of [publicsuffix_info (VStr "MIT/Apache-2.0")]) = Ok ws
     ∧ info' !! "id" = Some id
     ∧ pkgInfoById ws !! id = Some info'
     ∧ info' !! "license" = Some (VStr "MIT/Apache-2.0"))
  ∧ init (workspace_of [publicsuffix_info (VStr "MIT")])
    = Raise (AssertionError
               "Fixup check failed for publicsuffix.license: MIT != MIT/Apache-2.0").
Proof.
  split.
  - destruct (check_only_rule_validates
                (workspace_of [publicsuffix_info (VStr "MIT/Apache-2.0")])
                (publicsuffix_info (VStr "MIT/Apache-2.0")) "publicsuffix"
                [ ("license", {| check := Some (SStr "MIT/Apache-2.0"); fixup := None |});
                  ("license_file",
                   {| check := Some SNone; fixup := Some (SStr "LICENSE-APACHE") |}) ]
                "license" (SStr "MIT/Apache-2.0"))
      as (Hok & _ & _ & _).
    + left.
    + reflexivity.
    + reflexivity.
    + left.
    + assert (is_ok (init (workspace_of [publicsuffix_info (VStr "MIT/Apache-2.0")])) = true)
        as Hrun by (vm_compute; reflexivity).
      destruct (init (workspace_of [publicsuffix_info (VStr "MIT/Apache-2.0")]))
        as [ws|e] eqn:E; [|discriminate Hrun].
      destruct (Hok ws eq_refl) as (_ & info' & id & Hid & Hcat & _ & Hval & _).
      exists ws, info', id. split_and!; [exact eq_refl|exact Hid|exact Hcat|].
      rewrite Hval. reflexivity.
  - destruct (check_only_rule_validates
                (workspace_of [publicsuffix_info (VStr "MIT")])
                (publicsuffix_info (VStr "MIT")) "publicsuffix"
                [ ("license", {| check := Some (SStr "MIT/Apache-2.0"); fixup := None |});
                  ("license_file",
                   {| check := Some SNone; fixup := Some (SStr "LICENSE-APACHE") |}) ]
                "license" (SStr "MIT/Apache-2.0"))
      as (_ & _ & _ & Hfail).
    + left.
    + reflexivity.
    + reflexivity.
    + left.
    + apply (Hfail eq_refl [] [ ("license_file",
                   {| check := Some SNone; fixup := Some (SStr "LICENSE-APACHE") |}) ]
               (publicsuffix_info (VStr "MIT")) [] [] [] ∅ ∅);
        reflexivity.
Defined.

(** ** Dependencies that cargo does not manage *)

Lemma target_is_android_spec (target : string) :
  target_is_android target = true ↔
  ∃ p, target = p +:+ "-android" ∨ target = p +:+ "-androideabi".
Proof.
  unfold target_is_android.
  destruct (Py.endswith target "-android") eqn:H1;
    [|destruct (Py.endswith target "-androideabi") eqn:H2]; simpl.
  - apply endswith_spec in H1 as [p ->]. split; [|done]. intros _. exists p. by left.
  - apply endswith_spec in H2 as [p ->]. split; [|done]. intros _. exists p. by right.
  - split; [done|]. intros [p [->| ->]].
    + assert (Py.endswith (p +:+ "-android") "-android" = true) as E
        by (apply endswith_spec; by exists p).
      congruence.
    + assert (Py.endswith (p +:+ "-androideabi") "-androideabi" = true) as E
        by (apply endswith_spec; by exists p).
      congruence.
Qed.

Lemma target_is_ios_spec (target : string) :
  target_is_ios target = true ↔ ∃ p, target = p +:+ "-ios".
Proof.
  unfold target_is_ios. rewrite <- endswith_spec.
  by destruct (Py.endswith target "-ios").
Qed.

Lemma add_target_extras_spec (extras : gset string) (target x : string) :
  x ∈ add_target_extras extras target ↔
  x ∈ extras
  ∨ ((x = "ext-jna" ∨ x = "ext-protobuf") ∧ target_is_android target = true)
  ∨ (x = "ext-swift-keychain-wrapper" ∧ target_is_ios target = true).
Proof.
  unfold add_target_extras.
  destruct (target_is_android target), (target_is_ios target);
    rewrite ?elem_of_union, ?elem_of_singleton; naive_solver.
Qed.

Lemma target_extras_spec (targets : list string) (extras : gset string) (x : string) :
  x ∈ foldl add_target_extras extras targets ↔
  x ∈ extras
  ∨ ((x = "ext-jna" ∨ x = "ext-protobuf")
     ∧ ∃ t, t ∈ targets ∧ target_is_android t = true)
  ∨ (x = "ext-swift-keychain-wrapper" ∧ ∃ t, t ∈ targets ∧ target_is_ios t = true).
Proof.
  revert extras. induction targets as [|t targets IH]; intros extras; simpl.
  - split; [by left|]. intros [?|[[_ (t & Ht & _)]|[_ (t & Ht & _)]]]; [done|..];
      by apply elem_of_nil in Ht.
  - rewrite IH, add_target_extras_spec. split.
    + intros [[?|[[? ?]|[? ?]]]|[[? (t' & ? & ?)]|[? (t' & ? & ?)]]].
      * by left.
      * right; left. split; [done|]. exists t. split; [left|done].
      * right; right. split; [done|]. exists t. split; [left|done].
      * right; left. split; [done|]. exists t'. split; [by right|done].
      * right; right. split; [done|]. exists t'. split; [by right|done].
    + intros [?|[[? (t' & [->|?]%elem_of_cons & ?)]|[? (t' & [->|?]%elem_of_cons & ?)]]].
      * left; by left.
      * left; right; left. done.
      * right; left. split; [done|]. by exists t'.
      * left; right; right. done.
      * right; right. split; [done|]. by exists t'.
Qed.

(** The packages that [PACKAGES_WITH_EXTRA_DEPENDENCIES] lists for a name. *)
Lemma extra_packages_of (name : string) (x : string) :
  (∃ more, assoc name PACKAGES_WITH_EXTRA_DEPENDENCIES = Some more ∧ x ∈ more) ↔
  (name = "nss_sys" ∧ (x = "ext-nss" ∨ x = "ext-nspr"))
  ∨ (name = "openssl-sys" ∧ x = "ext-openssl")
  ∨ (name = "rusqlite" ∧ x = "ext-sqlite")
  ∨ (name = "rc_crypto" ∧ x = "ext-ring").
Proof.
  unfold PACKAGES_WITH_EXTRA_DEPENDENCIES, assoc.
  destruct (String.eqb_spec name "nss_sys") as [->|H1].
  { split.
    - intros (more & [= <-] & Hx). rewrite !elem_of_cons, elem_of_nil in Hx. naive_solver.
    - intros [[_ Hx]|[[[=] _]|[[[=] _]|[[=] _]]]]. eexists. split; [done|].
      rewrite !elem_of_cons. naive_solver. }
  destruct (String.eqb_spec name "openssl-sys") as [->|H2].
  { split.
    - intros (more & [= <-] & Hx). rewrite !elem_of_cons, elem_of_nil in Hx. naive_solver.
    - intros [[[=] _]|[[_ Hx]|[[[=] _]|[[=] _]]]]. eexists. split; [done|].
      rewrite !elem_of_cons. naive_solver. }
  destruct (String.eqb_spec name "rusqlite") as [->|H3].
  { split.
    - intros (more & [= <-] & Hx). rewrite !elem_of_cons, elem_of_nil in Hx. naive_solver.
    - intros [[[=] _]|[[[=] _]|[[_ Hx]|[[=] _]]]]. eexists. split; [done|].
      rewrite !elem_of_cons. naive_solver. }
  destruct (String.eqb_spec name "rc_crypto") as [->|H4].
  { split.
    - intros (more & [= <-] & Hx). rewrite !elem_of_cons, elem_of_nil in Hx. naive_solver.
    - intros [[[=] _]|[[[=] _]|[[[=] _]|[_ Hx]]]]. eexists. split; [done|].
      rewrite !elem_of_cons. naive_solver. }
  split; [by intros (? & [=] & _)|naive_solver].
Qed.

Lemma add_package_extras_cons (self : WorkspaceMetadata) (dep : string)
    (deps : list string) (extras : gset string) (info : gmap string value)
    (name : value) :
  pkgInfoById self !! VStr dep = Some info →
  info !! "name" = Some name →
  hash_key name = Ok tt →
  add_package_extras self (dep :: deps) extras
  = add_package_extras self deps
      (match name with
       | VStr n =>
           match assoc n PACKAGES_WITH_EXTRA_DEPENDENCIES with
           | Some more => extras ∪ list_to_set more
           | None => extras
           end
       | _ => extras
       end).
Proof.
  intros Hinfo Hn Hhash. apply getitem_Ok in Hn.
  cbn [add_package_extras]. rewrite Hinfo, Hn. cbn [mbind result_bind].
  unfold assoc_value. rewrite Hhash. cbn [mbind result_bind].
  by destruct name.
Qed.

Lemma add_package_extras_spec (self : WorkspaceMetadata) (deps : list string)
    (extras : gset string) :
  (∀ dep, dep ∈ deps →
          ∃ info name, pkgInfoById self !! VStr dep = Some info
                       ∧ info !! "name" = Some name ∧ hash_key name = Ok tt) →
  ∃ extras', add_package_extras self deps extras = Ok extras'
    ∧ ∀ x, x ∈ extras' ↔
           x ∈ extras
           ∨ ∃ dep info n more,
               dep ∈ deps ∧ pkgInfoById self !! VStr dep = Some info
               ∧ info !! "name" = Some (VStr n)
               ∧ assoc n PACKAGES_WITH_EXTRA_DEPENDENCIES = Some more ∧ x ∈ more.
Proof.
  revert extras. induction deps as [|dep deps IH]; intros extras Hdeps.
  - exists extras. split; [done|]. intros x. split; [by left|].
    intros [?|(dep & ? & ? & ? & Hin & _)]; [done|]. by apply elem_of_nil in Hin.
  - destruct (Hdeps dep) as (info & name & Hinfo & Hn & Hhash); [left|].
    rewrite (add_package_extras_cons self dep deps extras info name Hinfo Hn Hhash).
    destruct (IH (match name with
                  | VStr n =>
                      match assoc n PACKAGES_WITH_EXTRA_DEPENDENCIES with
                      | Some more => extras ∪ list_to_set more
                      | None => extras
                      end
                  | _ => extras
                  end)) as (extras' & Hrun & Hspec).
    { intros d Hd. apply Hdeps. by right. }
    exists extras'. split; [done|]. intros x. rewrite Hspec. split.
    + intros [Hx|(d & i & m & more & Hd & ?)].
      * destruct name as [|n|shown]; [by left| |by left].
        destruct (assoc n PACKAGES_WITH_EXTRA_DEPENDENCIES) as [more|] eqn:Hmore;
          [|by left].
        apply elem_of_union in Hx as [Hx|Hx]; [by left|]. right.
        exists dep, info, n, more. rewrite elem_of_list_to_set in Hx.
        split_and!; [left|done..].
      * right. exists d, i, m, more. split; [by right|done].
    + intros [Hx|(d & i & m & more & [->|Hd]%elem_of_cons & Hi & Hm & Hmore & Hx)].
      * left. destruct name as [|n|shown]; [done| |done].
        destruct (assoc n _); [|done]. apply elem_of_union. by left.
      * left. rewrite Hinfo in Hi. injection Hi as <-. rewrite Hn in Hm.
        injection Hm as ->. rewrite Hmore. apply elem_of_union. right.
        by apply elem_of_list_to_set.
      * right. by exists d, i, m, more.
Qed.

(** C6: when every resolved dependency is in the catalog, the extra
    dependencies are exactly: [ext-jna] and [ext-protobuf] if some target ends
    with [-android] or [-androideabi]; [ext-swift-keychain-wrapper] if some
    target ends with [-ios]; and the packages that the table gives for the
    name of some resolved dependency. *)
Theorem extra_dependencies_exact (self : WorkspaceMetadata) (name : string)
    (targets : list string) (deps : gset string) :
  (∀ dep, dep ∈ deps →
          ∃ info n, pkgInfoById self !! VStr dep = Some info ∧ info !! "name" = Some (VStr n)) →
  ∃ extras,
    get_extra_dependencies_not_managed_by_cargo self name targets deps = Ok extras
    ∧ ∀ x, x ∈ extras ↔
        ((x = "ext-jna" ∨ x = "ext-protobuf")
         ∧ ∃ t p, t ∈ targets ∧ (t = p +:+ "-android" ∨ t = p +:+ "-androideabi"))
        ∨ (x = "ext-swift-keychain-wrapper" ∧ ∃ t p, t ∈ targets ∧ t = p +:+ "-ios")
        ∨ (∃ dep info n,
             dep ∈ deps ∧ pkgInfoById self !! VStr dep = Some info
             ∧ info !! "name" = Some (VStr n)
             ∧ ((n = "nss_sys" ∧ (x = "ext-nss" ∨ x = "ext-nspr"))
                ∨ (n = "openssl-sys" ∧ x = "ext-openssl")
                ∨ (n = "rusqlite" ∧ x = "ext-sqlite")
                ∨ (n = "rc_crypto" ∧ x = "ext-ring"))).
Proof.
  intros Hdeps. unfold get_extra_dependencies_not_managed_by_cargo.
  destruct (add_package_extras_spec self (elements deps)
              (foldl add_target_extras ∅ targets)) as (extras & Hrun & Hspec).
  { intros dep Hdep. destruct (Hdeps dep) as (info & n & Hinfo & Hn).
    - by apply elem_of_elements.
    - by exists info, (VStr n). }
  exists extras. split; [done|]. intros x.
  rewrite Hspec, target_extras_spec. split.
  - intros [[Hx|[[Hx (t & Ht & Ha)]|[Hx (t & Ht & Hi)]]]
            |(dep & info & n & more & Hdep & Hinfo & Hn & Hmore & Hx)].
    + by apply not_elem_of_empty in Hx.
    + left. split; [done|]. apply target_is_android_spec in Ha as [p Hp]. by exists t, p.
    + right; left. split; [done|]. apply target_is_ios_spec in Hi as [p Hp]. by exists t, p.
    + right; right. exists dep, info, n. apply elem_of_elements in Hdep.
      split_and!; [done..|]. apply extra_packages_of. by exists more.
  - intros [[Hx (t & p & Ht & Hp)]|[[Hx (t & p & Ht & Hp)]
            |(dep & info & n & Hdep & Hinfo & Hn & Hx)]].
    + left; right; left. split; [done|]. exists t. split; [done|].
      apply target_is_android_spec. by exists p.
    + left; right; right. split; [done|]. exists t. split; [done|].
      apply target_is_ios_spec. by exists p.
    + right. apply extra_packages_of in Hx as (more & Hmore & Hx).
      exists dep, info, n, more. apply elem_of_elements in Hdep. done.
Qed.

Lemma extra_dependencies_exact_witness :
  ∃ extras,
    get_extra_dependencies_not_managed_by_cargo sample_catalog "places"
      [ "aarch64-linux-android"; "x86_64-unknown-linux-gnu" ] {[ rusqlite_id ]}
    = Ok extras
    ∧ "ext-jna" ∈ extras ∧ "ext-sqlite" ∈ extras
    ∧ "ext-swift-keychain-wrapper" ∉ extras.
Proof.
  destruct (extra_dependencies_exact sample_catalog "places"
              [ "aarch64-linux-android"; "x86_64-unknown-linux-gnu" ] {[ rusqlite_id ]})
    as (extras & Hrun & Hspec).
  { intros dep Hdep. apply elem_of_singleton in Hdep as ->.
    exists rusqlite_info, "rusqlite". split; [apply lookup_singleton_eq|reflexivity]. }
  exists extras. split_and!; [exact Hrun| | |].
  - apply Hspec. left. split; [left; reflexivity|].
    exists "aarch64-linux-android", "aarch64-linux". split; [left|left; reflexivity].
  - apply Hspec. right; right. exists rusqlite_id, rusqlite_info, "rusqlite".
    split_and!; [apply elem_of_singleton; reflexivity|apply lookup_singleton_eq
                |reflexivity|].
    right; right; left. split; reflexivity.
  - intros Hx. apply Hspec in Hx. clear Hspec Hrun.
    destruct Hx as [[[Hx|Hx] _]|[[_ (t & p & Ht & Hp)]
                                |(dep & info & n & _ & _ & _ & Hx)]].
    + discriminate Hx.
    + discriminate Hx.
    + assert (target_is_ios t = true) as Hios.
      { apply target_is_ios_spec. exists p. exact Hp. }
      clear Hp.
      apply elem_of_cons in Ht as [->|Ht]; [vm_compute in Hios; discriminate Hios|].
      apply elem_of_cons in Ht as [->|Ht]; [vm_compute in Hios; discriminate Hios|].
      apply elem_of_nil in Ht. exact Ht.
    + destruct Hx as [[_ [Hx|Hx]]|[[_ Hx]|[[_ Hx]|[_ Hx]]]]; discriminate Hx.
Defined.

(** ** The license file locator *)

Lemma assoc_fmap_key {A B : Type} (f : string → B) (d : list (string * A)) (key : string) :
  assoc key ((λ '(l, _), (l, f l)) <$> d) = (λ _, f key) <$> assoc key d.
Proof.
  induction d as [|[k a] d IH]; [done|].
  cbn [fmap list_fmap assoc].
  destruct (String.eqb_spec key k) as [->|]; [done|]. apply IH.
Qed.

(** The generic stems. *)
Lemma generic_roots :
  default [] (assoc "" COMMON_LICENSE_FILE_NAME_ROOTS) = [ "license"; "licence" ].
Proof. reflexivity. Qed.

Lemma names_with_suffix_spec (license suffix x : string) :
  x ∈ names_with_suffix license suffix ↔
  ∃ root, (root ∈ default [] (assoc license COMMON_LICENSE_FILE_NAME_ROOTS)
           ∨ root ∈ [ "license"; "licence" ])
          ∧ x = root +:+ suffix.
Proof.
  unfold names_with_suffix. rewrite generic_roots, elem_of_app, !list_elem_of_fmap.
  split.
  - intros [(root & -> & Hr)|(root & -> & Hr)]; exists root; auto.
  - intros (root & [Hr|Hr] & ->); [left|right]; by exists root.
Qed.

Lemma names_for_spec (license x : string) :
  x ∈ (list_to_set (concat (names_with_suffix license <$> COMMON_LICENSE_FILE_NAME_SUFFIXES))
       : gset string) ↔
  ∃ root suffix, suffix ∈ COMMON_LICENSE_FILE_NAME_SUFFIXES
                 ∧ (root ∈ default [] (assoc license COMMON_LICENSE_FILE_NAME_ROOTS)
                    ∨ root ∈ [ "license"; "licence" ])
                 ∧ x = root +:+ suffix.
Proof.
  rewrite elem_of_list_to_set, list_elem_of_In, in_concat. split.
  - intros (l & (suffix & -> & Hs)%list_elem_of_In%list_elem_of_fmap & Hx%list_elem_of_In).
    apply names_with_suffix_spec in Hx as (root & Hr & ->). by exists root, suffix.
  - intros (root & suffix & Hs & Hr & ->). exists (names_with_suffix license suffix).
    split.
    + apply list_elem_of_In, list_elem_of_fmap. by exists suffix.
    + apply list_elem_of_In, names_with_suffix_spec. by exists root.
Qed.

(** The names that the locator accepts for a license: a stem of the license
    or a generic stem, followed by one of the suffixes. *)
Lemma license_file_names_spec (license x : string) :
  x ∈ license_file_names license ↔
  ∃ root suffix, suffix ∈ [ ""; ".md"; ".txt" ]
                 ∧ (root ∈ default [] (assoc license COMMON_LICENSE_FILE_NAME_ROOTS)
                    ∨ root ∈ [ "license"; "licence" ])
                 ∧ x = root +:+ suffix.
Proof.
  unfold license_file_names, COMMON_LICENSE_FILE_NAMES.
  rewrite !(assoc_fmap_key
              (λ l, list_to_set (concat (names_with_suffix l <$> COMMON_LICENSE_FILE_NAME_SUFFIXES)))).
  destruct (assoc license COMMON_LICENSE_FILE_NAME_ROOTS) as [roots|] eqn:Hroots.
  - pose proof (names_for_spec license x) as Hn. rewrite Hroots in Hn. exact Hn.
  - pose proof (names_for_spec "" x) as Hn.
    change (assoc "" COMMON_LICENSE_FILE_NAME_ROOTS) with (Some [ "license"; "licence" ])
      in Hn.
    cbn [default] in *. etrans; [exact Hn|]. split.
    + intros (root & suffix & Hs & Hr & ->). exists root, suffix.
      split_and!; [done| |done]. right. by destruct Hr.
    + intros (root & suffix & Hs & [Hr|Hr] & ->); [by apply elem_of_nil in Hr|].
      exists root, suffix. auto.
Qed.

Lemma run_lift {A : Type} (w : world) (r : result A) : run w (lift r) = ([], r).
Proof. by destruct r. Qed.

(** C5: a declared license-file reference comes back as it is, with no look
    at the directory.  Without one, the locator lists the directory of the
    manifest and keeps the names whose lower-case form is a stem of the chosen
    license or a generic stem followed by one of the suffixes: one such name
    is the answer; two or more give the error that says that the files are
    ambiguous and lists them; none gives the error that says that no file
    was found and names the repository.  The two messages are different. *)
Theorem find_license_file_spec (id license : string) (pkgInfo : gmap string value) :
  let newline := String "010"%char EmptyString in
  (∀ ref, get pkgInfo "license_file" = ref → ref ≠ VNone →
          _find_license_file id license pkgInfo = Pure ref)
  ∧ (get pkgInfo "license_file" = VNone →
     ∀ manifest name repository,
       pkgInfo !! "manifest_path" = Some (VStr manifest) →
       pkgInfo !! "name" = Some name →
       pkgInfo !! "repository" = Some repository →
       ∃ k, _find_license_file id license pkgInfo = ListDir (os_path.dirname manifest) k
            ∧ ∀ listing,
                let found := filter (λ nm, Py.lower nm ∈ license_file_names license) listing in
                let ambiguous :=
                  "Multiple ambiguous license files found for '" +:+ str name +:+ "'."
                  +:+ newline
                  +:+ "Please select the correct license file and add it to `PACKAGE_METADATA_FIXUPS`."
                  +:+ newline
                  +:+ "Potential license files: " +:+ Repr.of_list found in
                let not_found :=
                  "Could not find license file for '" +:+ str name +:+ "'."
                  +:+ newline
                  +:+ "Please locate the correct license file and add it to `PACKAGE_METADATA_FIXUPS`."
                  +:+ newline
                  +:+ "You may need to poke around in the source repository at "
                  +:+ str repository in
                (∀ f, found = [f] → k listing = Pure (VStr f))
                ∧ (2 ≤ length found → k listing = Throw (RuntimeError ambiguous))
                ∧ (found = [] → k listing = Throw (RuntimeError not_found))
                ∧ ambiguous ≠ not_found)
  ∧ (∀ x, x ∈ license_file_names license ↔
          ∃ root suffix,
            suffix ∈ [ ""; ".md"; ".txt" ]
            ∧ (root ∈ default [] (assoc license COMMON_LICENSE_FILE_NAME_ROOTS)
               ∨ root ∈ [ "license"; "licence" ])
            ∧ x = root +:+ suffix).
Proof.
  intros newline. split_and!.
  - intros ref Href Hne. unfold _find_license_file. rewrite Href. by destruct ref.
  - intros Hnone manifest name repository Hmanifest Hname Hrepo.
    unfold _find_license_file. rewrite Hnone.
    apply getstr_Ok in Hmanifest. rewrite Hmanifest.
    eexists. split; [reflexivity|]. intros listing. cbv beta zeta.
    set (found := filter (λ nm, Py.lower nm ∈ license_file_names license) listing).
    unfold getitem. rewrite Hname, Hrepo.
    split_and!.
    + intros f Hf. by rewrite Hf.
    + intros Hlen. destruct found as [|f1 [|f2 found']] eqn:Hfound; simpl in Hlen; [lia..|].
      simpl. done.
    + intros Hnil. rewrite Hnil. done.
    + intros Heq. discriminate Heq.
  - apply license_file_names_spec.
Qed.

Example repr_of_candidates :
  Repr.of_list [ "LICENSE-APACHE"; "LICENCE-APACHE" ]
  = "['LICENSE-APACHE', 'LICENCE-APACHE']".
Proof. by vm_compute. Qed.

Lemma find_license_file_spec_witness :
  _find_license_file "foo 1.0.0" "Apache-2.0" (foo_info (VStr "COPYING"))
  = Pure (VStr "COPYING")
  ∧ run (small_world "/registry/foo-1.0.0" [ "LICENSE-APACHE.md" ] "" "")
        (_find_license_file "foo 1.0.0" "Apache-2.0" (foo_info VNone))
    = ([ EListDir "/registry/foo-1.0.0" ], Ok (VStr "LICENSE-APACHE.md"))
  ∧ run (small_world "/registry/foo-1.0.0" [ "LICENSE-APACHE"; "LICENCE-APACHE" ] "" "")
        (_find_license_file "foo 1.0.0" "Apache-2.0" (foo_info VNone))
    = ([ EListDir "/registry/foo-1.0.0" ],
       Raise (RuntimeError
                ("Multiple ambiguous license files found for 'foo'."
                 +:+ String "010"%char EmptyString
                 +:+ "Please select the correct license file and add it to `PACKAGE_METADATA_FIXUPS`."
                 +:+ String "010"%char EmptyString
                 +:+ "Potential license files: ['LICENSE-APACHE', 'LICENCE-APACHE']")))
  ∧ run (small_world "/registry/foo-1.0.0" [ "Cargo.toml"; "README.md"; "src" ] "" "")
        (_find_license_file "foo 1.0.0" "Apache-2.0" (foo_info VNone))
    = ([ EListDir "/registry/foo-1.0.0" ],
       Raise (RuntimeError
                ("Could not find license file for 'foo'."
                 +:+ String "010"%char EmptyString
                 +:+ "Please locate the correct license file and add it to `PACKAGE_METADATA_FIXUPS`."
                 +:+ String "010"%char EmptyString
                 +:+ "You may need to poke around in the source repository at https://example.org/foo"))).
Proof.
  split.
  { apply (find_license_file_spec "foo 1.0.0" "Apache-2.0" (foo_info (VStr "COPYING")));
      [reflexivity|discriminate]. }
  destruct (find_license_file_spec "foo 1.0.0" "Apache-2.0" (foo_info VNone))
    as (_ & Hprobe & _).
  destruct (Hprobe eq_refl "/registry/foo-1.0.0/Cargo.toml" (VStr "foo")
              (VStr "https://example.org/foo") eq_refl eq_refl eq_refl)
    as (k & -> & Hk).
  change (os_path.dirname "/registry/foo-1.0.0/Cargo.toml") with "/registry/foo-1.0.0".
  split_and!.
  - destruct (Hk [ "LICENSE-APACHE.md" ]) as (Hone & _ & _ & _).
    cbn [run small_world os_listdir]. rewrite String.eqb_refl.
    rewrite (Hone "LICENSE-APACHE.md"); [reflexivity|vm_compute; reflexivity].
  - destruct (Hk [ "LICENSE-APACHE"; "LICENCE-APACHE" ]) as (_ & Hmany & _ & _).
    cbn [run small_world os_listdir]. rewrite String.eqb_refl.
    rewrite Hmany; [|vm_compute; lia].
    replace (filter (λ nm, Py.lower nm ∈ license_file_names "Apache-2.0")
               [ "LICENSE-APACHE"; "LICENCE-APACHE" ])
      with [ "LICENSE-APACHE"; "LICENCE-APACHE" ] by (vm_compute; reflexivity).
    reflexivity.
  - destruct (Hk [ "Cargo.toml"; "README.md"; "src" ]) as (_ & _ & Hnone & _).
    cbn [run small_world os_listdir]. rewrite String.eqb_refl.
    rewrite Hnone; [reflexivity|vm_compute; reflexivity].
Defined.

(** ** The license text resolver *)

Lemma startswith_false (s p : string) :
  Py.startswith s p = false ↔ ¬ ∃ q, s = p +:+ q.
Proof.
  rewrite <- startswith_spec. destruct (Py.startswith s p); split; try done.
Qed.

(** C10: with a [license_text] field in the record, that text is the answer
    and nothing is read or fetched.  Without one, a reference that starts
    with [https://] is fetched; every other reference, an [http://] URL
    included, is read as a file, at the path that [os.path.join] makes of the
    directory of the manifest and the reference, and is never fetched. *)
Theorem fetch_license_text_source (id licenseFile : string)
    (pkgInfo : gmap string value) (w : world) :
  (∀ text, pkgInfo !! "license_text" = Some text →
           _fetch_license_text id licenseFile pkgInfo = Pure text
           ∧ run w (_fetch_license_text id licenseFile pkgInfo) = ([], Ok text))
  ∧ (pkgInfo !! "license_text" = None →
     (∃ rest, licenseFile = "https://" +:+ rest) →
     (∃ k, _fetch_license_text id licenseFile pkgInfo = HttpGet licenseFile k)
     ∧ (run w (_fetch_license_text id licenseFile pkgInfo)).1 = [ EHttpGet licenseFile ])
  ∧ (pkgInfo !! "license_text" = None →
     (¬ ∃ rest, licenseFile = "https://" +:+ rest) →
     ∀ manifest, pkgInfo !! "manifest_path" = Some (VStr manifest) →
       let path := os_path.join (os_path.dirname manifest) licenseFile in
       (∃ k, _fetch_license_text id licenseFile pkgInfo = ReadFile path k)
       ∧ (run w (_fetch_license_text id licenseFile pkgInfo)).1 = [ EReadFile path ]
       ∧ (∀ text, read_file w path = Ok text →
                  (run w (_fetch_license_text id licenseFile pkgInfo)).2 = Ok (VStr text))
       ∧ (∀ url, EHttpGet url ∉ (run w (_fetch_license_text id licenseFile pkgInfo)).1)).
Proof.
  split_and!.
  - intros text Htext. unfold _fetch_license_text. by rewrite Htext.
  - intros Hnone Hhttps%startswith_spec. unfold _fetch_license_text.
    rewrite Hnone, Hhttps. split; [by eexists|].
    cbn [run]. destruct (requests_get w licenseFile) as [resp|e]; [|done].
    by rewrite run_lift.
  - intros Hnone Hlocal%startswith_false manifest Hmanifest path.
    unfold _fetch_license_text. rewrite Hnone, Hlocal.
    apply getstr_Ok in Hmanifest. rewrite Hmanifest. fold path.
    split; [by eexists|]. cbn [run].
    destruct (read_file w path) as [text|e] eqn:Hread; cbn [fst snd].
    + split_and!; [done|by intros ? [= ->]|].
      intros url [[=]|Hin%elem_of_nil]%elem_of_cons. done.
    + split_and!; [done|done|].
      intros url [[=]|Hin%elem_of_nil]%elem_of_cons. done.
Qed.

Lemma fetch_license_text_source_witness :
  run (small_world "" [] "" "")
      (_fetch_license_text "ext-sqlite" "https://sqlite.org/copyright.html"
         (list_to_map [ ("name", VStr "sqlite"); ("license_text", VStr "Public domain.") ]))
  = ([], Ok (VStr "Public domain."))
  ∧ (run (small_world "" [] "" "")
         (_fetch_license_text "foo 1.0.0" "https://example.org/foo/LICENSE" (foo_info VNone))).1
    = [ EHttpGet "https://example.org/foo/LICENSE" ]
  ∧ run (small_world "" [] "/registry/foo-1.0.0/http://example.org/foo/LICENSE" "MIT License")
        (_fetch_license_text "foo 1.0.0" "http://example.org/foo/LICENSE" (foo_info VNone))
    = ([ EReadFile "/registry/foo-1.0.0/http://example.org/foo/LICENSE" ],
       Ok (VStr "MIT License")).
Proof.
  split_and!.
  - apply (fetch_license_text_source "ext-sqlite" "https://sqlite.org/copyright.html").
    reflexivity.
  - apply (fetch_license_text_source "foo 1.0.0" "https://example.org/foo/LICENSE");
      [reflexivity|]. exists "example.org/foo/LICENSE". reflexivity.
  - destruct (fetch_license_text_source "foo 1.0.0" "http://example.org/foo/LICENSE"
                (foo_info VNone)
                (small_world "" [] "/registry/foo-1.0.0/http://example.org/foo/LICENSE"
                   "MIT License"))
      as (_ & _ & Hlocal).
    destruct (Hlocal eq_refl) with (manifest := "/registry/foo-1.0.0/Cargo.toml")
      as (_ & Htrace & Htext & _).
    + intros [rest Hrest]. discriminate Hrest.
    + reflexivity.
    + specialize (Htext "MIT License" eq_refl).
      destruct (run _ _) as [trace r]. cbn [fst snd] in *. rewrite Htrace, Htext.
      reflexivity.
Defined.

(** ** Sorting *)

Section SortedFacts.
Context {A K : Type} (key : A → K) (ltb : K → K → bool).

Lemma insert_sorted_perm (x : A) (l : list A) :
  insert_sorted key ltb x l ≡ₚ x :: l.
Proof.
  induction l as [|y l IH]; simpl; [done|].
  destruct (ltb (key y) (key x)); [|done].
  rewrite IH. apply Permutation_swap.
Qed.

Lemma sorted_perm (l : list A) : sorted key ltb l ≡ₚ l.
Proof.
  induction l as [|x l IH]; simpl; [done|].
  by rewrite insert_sorted_perm, IH.
Qed.

Lemma elem_of_sorted (x : A) (l : list A) : x ∈ sorted key ltb l ↔ x ∈ l.
Proof. by rewrite sorted_perm. Qed.

Lemma sorted_nil_inv (l : list A) : sorted key ltb l = [] → l = [].
Proof.
  intros H. apply Permutation_nil_r. by rewrite <- H, sorted_perm.
Qed.
End SortedFacts.

(** ** The dictionary of the first loop *)

Lemma assoc_dict_append (key k : string) (info : license_info)
    (d : list (string * list license_info)) :
  assoc k (dict_append key info d)
  = if String.eqb k key then Some (default [] (assoc key d) ++ [info]) else assoc k d.
Proof.
  induction d as [|[k' l] d IH]; simpl.
  - destruct (String.eqb k key); done.
  - destruct (String.eqb_spec key k') as [->|Hne]; simpl.
    + destruct (String.eqb_spec k k') as [->|]; [done|done].
    + destruct (String.eqb_spec k k') as [->|].
      * destruct (String.eqb_spec k' key) as [->|]; [done|done].
      * apply IH.
Qed.

Lemma keys_dict_append (key : string) (info : license_info)
    (d : list (string * list license_info)) :
  (dict_append key info d).*1 = if bool_decide (key ∈ d.*1) then d.*1 else d.*1 ++ [key].
Proof.
  induction d as [|[k' l] d IH]; [done|].
  cbn [dict_append]. destruct (String.eqb_spec key k') as [->|Hne];
    rewrite !fmap_cons; cbn [fst].
  - rewrite bool_decide_eq_true_2; [done|left].
  - rewrite IH. case_bool_decide as H1; case_bool_decide as H2; try done.
    + exfalso. apply H2. by right.
    + exfalso. apply elem_of_cons in H2 as [?|?]; done.
Qed.

Lemma depsByLicenseTextHash_snoc (deps : list license_info) (info : license_info) :
  depsByLicenseTextHash (deps ++ [info])
  = dict_append (licenseTextHash info) info (depsByLicenseTextHash deps).
Proof. unfold depsByLicenseTextHash. by rewrite foldl_app. Qed.

Lemma depsByLicenseTextHash_keys_distinct (deps : list license_info) :
  NoDup (depsByLicenseTextHash deps).*1.
Proof.
  induction deps as [|info deps IH] using rev_ind; [constructor|].
  rewrite depsByLicenseTextHash_snoc, keys_dict_append.
  case_bool_decide; [done|].
  apply NoDup_app. split_and!; [done| |apply NoDup_singleton].
  intros k Hk ->%list_elem_of_singleton. done.
Qed.

(** An entry of the dictionary holds the records with its key, in the
    order of the input. *)
Lemma depsByLicenseTextHash_assoc (deps : list license_info) (k : string) :
  assoc k (depsByLicenseTextHash deps)
  = match List.filter (has_key k) deps with
    | [] => None
    | l => Some l
    end.
Proof.
  induction deps as [|info deps IH] using rev_ind; [done|].
  rewrite depsByLicenseTextHash_snoc, assoc_dict_append, List.filter_app. simpl.
  unfold has_key at 2. rewrite (String.eqb_sym (licenseTextHash info) k).
  destruct (String.eqb_spec k (licenseTextHash info)) as [->|Hne].
  - rewrite IH. destruct (List.filter _ deps); done.
  - rewrite app_nil_r. apply IH.
Qed.

Lemma elem_of_assoc {A : Type} (d : list (string * A)) (k : string) (a : A) :
  NoDup d.*1 → (k, a) ∈ d ↔ assoc k d = Some a.
Proof.
  intros Hnd. split; [|apply assoc_elem_of].
  induction d as [|[k' b] d IH]; [by intros ?%elem_of_nil|].
  apply NoDup_cons in Hnd as [Hk Hnd]. simpl.
  intros [[= -> ->]|Hin]%elem_of_cons.
  - by rewrite String.eqb_refl.
  - destruct (String.eqb_spec k k') as [->|]; [|by apply IH].
    exfalso. apply Hk. apply list_elem_of_fmap. by exists (k', a).
Qed.

Lemma depsByLicenseTextHash_entry (deps : list license_info) (k : string)
    (l : list license_info) :
  (k, l) ∈ depsByLicenseTextHash deps ↔ l = List.filter (has_key k) deps ∧ l ≠ [].
Proof.
  rewrite (elem_of_assoc _ _ _ (depsByLicenseTextHash_keys_distinct deps)),
    depsByLicenseTextHash_assoc.
  destruct (List.filter (has_key k) deps) as [|x l']; split.
  - done.
  - by intros [-> ?].
  - by intros [= <-].
  - by intros [-> _].
Qed.

(** ** Groups *)

Lemma find_apache_text_Ok (l : list license_info) (text : string) :
  find_apache_text l = Ok text ↔
  ∃ pre dep post,
    l = pre ++ dep :: post
    ∧ Forall (λ d, is_canonical_apache_text (info_license_text d) = false) pre
    ∧ is_canonical_apache_text (info_license_text dep) = true
    ∧ text = info_license_text dep.
Proof.
  induction l as [|d l IH]; simpl.
  - split; [done|]. intros (pre & dep & post & H & _). by destruct pre.
  - destruct (is_canonical_apache_text (info_license_text d)) eqn:Hd.
    + split.
      * intros [= <-]. exists [], d, l. by split_and!.
      * intros (pre & dep & post & H & Hpre & Hdep & ->).
        destruct pre as [|p pre]; simplify_eq/=; [done|].
        apply Forall_cons in Hpre as [Hp _]. congruence.
    + rewrite IH. split.
      * intros (pre & dep & post & -> & Hpre & Hdep & ->).
        exists (d :: pre), dep, post. split_and!; [done| |done..].
        by apply Forall_cons.
      * intros (pre & dep & post & H & Hpre & Hdep & ->).
        destruct pre as [|p pre]; simplify_eq/=; [congruence|].
        apply Forall_cons in Hpre as [_ Hpre]. by exists pre, dep, post.
Qed.

Lemma find_apache_text_Raise (l : list license_info) (e : exn) :
  find_apache_text l = Raise e ↔
  e = no_apache_text
  ∧ Forall (λ d, is_canonical_apache_text (info_license_text d) = false) l.
Proof.
  induction l as [|d l IH]; simpl.
  - split; [by intros [= <-]|by intros [-> _]].
  - destruct (is_canonical_apache_text (info_license_text d)) eqn:Hd.
    + split; [done|]. intros [_ [? _]%Forall_cons]. congruence.
    + rewrite IH. split; intros [-> H]; (split; [done|]).
      * by apply Forall_cons.
      * by apply Forall_cons in H as [_ ?].
Qed.

Lemma make_group_Ok (k : string) (l : list license_info) (g : group) :
  make_group k l = Ok g →
  group_dependencies g = sorted member_key pair_ltb l
  ∧ group_license_text_hash g = k
  ∧ ∃ first rest,
      sorted member_key pair_ltb l = first :: rest
      ∧ group_license g = info_license first
      ∧ group_license_url g = info_license_url first
      ∧ (k ≠ "Apache-2.0" → group_license_text g = info_license_text first)
      ∧ (k = "Apache-2.0" →
         find_apache_text (sorted member_key pair_ltb l) = Ok (group_license_text g)).
Proof.
  unfold make_group. fold member_key.
  destruct (sorted member_key pair_ltb l) as [|first rest] eqn:Hsorted; [done|].
  destruct (String.eqb_spec k "Apache-2.0") as [->|Hk]; cbn [negb].
  - destruct (find_apache_text (first :: rest)) as [text|] eqn:Htext; [|done].
    intros [= <-]. cbn. split_and!; [done..|]. exists first, rest. by split_and!.
  - intros [= <-]. cbn. split_and!; [done..|]. exists first, rest. by split_and!.
Qed.

Lemma make_group_other (k : string) (l : list license_info) :
  k ≠ "Apache-2.0" → l ≠ [] → ∃ g, make_group k l = Ok g.
Proof.
  intros Hk Hl. unfold make_group.
  destruct (sorted _ pair_ltb l) as [|first rest] eqn:Hsorted.
  - by apply sorted_nil_inv in Hsorted.
  - apply String.eqb_neq in Hk. rewrite Hk. by eexists.
Qed.

Lemma make_groups_Ok (d : list (string * list license_info)) (gs : list group) :
  make_groups d = Ok gs → Forall2 (λ e g, make_group e.1 e.2 = Ok g) d gs.
Proof.
  revert gs. induction d as [|[k l] d IH]; intros gs; simpl.
  - intros [= <-]. constructor.
  - destruct (make_group k l) as [g|] eqn:Hg; [|done]. simpl.
    destruct (make_groups d) as [gs'|]; [|done]. simpl.
    intros [= <-]. constructor; [done|]. by apply IH.
Qed.

Lemma Forall2_elem_of_r {A B : Type} (P : A → B → Prop) (l : list A) (k : list B) (y : B) :
  Forall2 P l k → y ∈ k → ∃ x, x ∈ l ∧ P x y.
Proof.
  induction 1 as [|x y' l k HP _ IH]; [by intros ?%elem_of_nil|].
  intros [->|Hy]%elem_of_cons.
  - exists x. split; [left|done].
  - destruct (IH Hy) as (x' & ? & ?). exists x'. split; [by right|done].
Qed.

Lemma Forall2_elem_of_l {A B : Type} (P : A → B → Prop) (l : list A) (k : list B) (x : A) :
  Forall2 P l k → x ∈ l → ∃ y, y ∈ k ∧ P x y.
Proof.
  induction 1 as [|x' y l k HP _ IH]; [by intros ?%elem_of_nil|].
  intros [->|Hx]%elem_of_cons.
  - exists y. split; [left|done].
  - destruct (IH Hx) as (y' & ? & ?). exists y'. split; [by right|done].
Qed.

Lemma make_groups_hashes (d : list (string * list license_info)) (gs : list group) :
  make_groups d = Ok gs → group_license_text_hash <$> gs = d.*1.
Proof.
  intros H%make_groups_Ok. induction H as [|[k l] g d gs Hg _ IH]; [done|].
  rewrite !fmap_cons, IH. f_equal. by apply make_group_Ok in Hg as (_ & ? & _).
Qed.

Lemma elem_of_filter_has_key (k : string) (deps : list license_info) (a : license_info) :
  a ∈ List.filter (has_key k) deps ↔ a ∈ deps ∧ licenseTextHash a = k.
Proof.
  rewrite !list_elem_of_In, List.filter_In. unfold has_key.
  by rewrite String.eqb_eq.
Qed.

(** What the groups are: one for every key that occurs, holding the records
    with that key. *)
Lemma groups_Ok (deps : list license_info) (groups : list group) :
  group_dependencies_for_printing deps = Ok groups →
  (∀ g, g ∈ groups →
        group_dependencies g = members_of (group_license_text_hash g) deps
        ∧ List.filter (has_key (group_license_text_hash g)) deps ≠ []
        ∧ make_group (group_license_text_hash g)
            (List.filter (has_key (group_license_text_hash g)) deps) = Ok g)
  ∧ (∀ a, a ∈ deps → ∃ g, g ∈ groups ∧ group_license_text_hash g = licenseTextHash a)
  ∧ NoDup (group_license_text_hash <$> groups).
Proof.
  unfold group_dependencies_for_printing.
  intros (gs & Hgs & [= <-])%bind_Ok.
  pose proof (make_groups_Ok _ _ Hgs) as Hall.
  split_and!.
  - intros g Hg%elem_of_sorted.
    destruct (Forall2_elem_of_r _ _ _ _ Hall Hg) as ([k l] & Hin & Hmake). simpl in Hmake.
    apply depsByLicenseTextHash_entry in Hin as [-> Hne].
    pose proof (make_group_Ok _ _ _ Hmake) as (Hdeps & Hhash & _).
    rewrite Hhash. done.
  - intros a Ha.
    assert ((licenseTextHash a, List.filter (has_key (licenseTextHash a)) deps)
            ∈ depsByLicenseTextHash deps) as Hin.
    { apply depsByLicenseTextHash_entry. split; [done|]. intros Hnil.
      assert (a ∈ List.filter (has_key (licenseTextHash a)) deps) as Hin
        by by apply elem_of_filter_has_key.
      rewrite Hnil in Hin. by apply elem_of_nil in Hin. }
    destruct (Forall2_elem_of_l _ _ _ _ Hall Hin) as (g & Hg & Hmake). simpl in Hmake.
    exists g. split; [by apply elem_of_sorted|].
    by apply make_group_Ok in Hmake as (_ & ? & _).
  - rewrite sorted_perm, (make_groups_hashes _ _ Hgs).
    apply depsByLicenseTextHash_keys_distinct.
Qed.

Lemma elem_of_group (deps : list license_info) (groups : list group) (g : group)
    (a : license_info) :
  group_dependencies_for_printing deps = Ok groups →
  g ∈ groups →
  a ∈ group_dependencies g ↔ a ∈ deps ∧ licenseTextHash a = group_license_text_hash g.
Proof.
  intros (Hmem & _ & _)%groups_Ok Hg. destruct (Hmem g Hg) as (-> & _).
  unfold members_of. by rewrite elem_of_sorted, elem_of_filter_has_key.
Qed.

Lemma NoDup_fmap_inj_on {A B : Type} (f : A → B) (l : list A) (x y : A) :
  NoDup (f <$> l) → x ∈ l → y ∈ l → f x = f y → x = y.
Proof.
  induction l as [|z l IH]; [by intros _ ?%elem_of_nil|].
  rewrite fmap_cons. intros [Hz Hnd]%NoDup_cons [->|Hx]%elem_of_cons [->|Hy]%elem_of_cons Hf.
  - done.
  - exfalso. apply Hz. rewrite Hf. by apply list_elem_of_fmap_2.
  - exfalso. apply Hz. rewrite <- Hf. by apply list_elem_of_fmap_2.
  - by apply IH.
Qed.

(** ** The digest

    Test vectors of FIPS 180-4 and of the two-block padding case. *)

Example sha256_empty :
  SHA256.hexdigest (SHA256.utf8 "")
  = "e3b0c44298fc1c149afbf4c8996fb92427ae41e4649b934ca495991b7852b855".
Proof. by vm_compute. Qed.

Example sha256_abc :
  SHA256.hexdigest (SHA256.utf8 "abc")
  = "ba7816bf8f01cfea414140de5dae2223b00361a396177a9cb410ff61f20015ad".
Proof. by vm_compute. Qed.

Example sha256_two_blocks :
  SHA256.hexdigest
    (SHA256.utf8 "abcdbcdecdefdefgefghfghighijhijkijkljklmklmnlmnomnopnopq")
  = "248d6a61d20638b8e5c026930c3e6039a33ce45964ff2167f6ecedd419db06c1".
Proof. by vm_compute. Qed.

(** ** The grouping key *)

Lemma has_shared_text_spec (license : string) :
  has_shared_text license = true ↔ shared_license license.
Proof.
  unfold has_shared_text, shared_license.
  rewrite !orb_true_iff, !String.eqb_eq, startswith_spec. tauto.
Qed.

Lemma has_shared_text_false (license : string) :
  has_shared_text license = false ↔ ¬ shared_license license.
Proof.
  rewrite <- has_shared_text_spec. by destruct (has_shared_text license).
Qed.

Lemma length_append (s t : string) :
  String.length (s +:+ t) = String.length s + String.length t.
Proof. induction s as [|c s IH]; [done|]. rewrite append_cons. simpl. by rewrite IH. Qed.

Lemma hex32_length (w : N) : String.length (SHA256.hex32 w) = 8.
Proof. reflexivity. Qed.

Lemma hexdigest_length (msg : list N) : String.length (SHA256.hexdigest msg) = 64.
Proof.
  unfold SHA256.hexdigest. cbv zeta. cbn [String.concat].
  change String.append with (λ s t, s +:+ t). cbv beta.
  rewrite !length_append, !hex32_length. reflexivity.
Qed.

Lemma append_inj_length (s1 s2 t1 t2 : string) :
  s1 +:+ t1 = s2 +:+ t2 → String.length t1 = String.length t2 → s1 = s2 ∧ t1 = t2.
Proof.
  revert s2. induction s1 as [|c s1 IH]; intros [|d s2] H Hlen.
  - done.
  - exfalso. rewrite append_nil_l in H. rewrite H, append_cons in Hlen.
    simpl in Hlen. rewrite length_append in Hlen. lia.
  - exfalso. rewrite append_nil_l in H. rewrite <- H, append_cons in Hlen.
    simpl in Hlen. rewrite length_append in Hlen. lia.
  - rewrite !append_cons in H. injection H as -> H.
    destruct (IH _ H Hlen) as [-> ->]. done.
Qed.

Lemma string_cons_inj (c : ascii) (s t : string) : String c s = String c t → s = t.
Proof. by intros [= ->]. Qed.

Lemma key_shared (a : license_info) :
  shared_license (info_license a) → licenseTextHash a = info_license a.
Proof. intros H%has_shared_text_spec. unfold licenseTextHash. by rewrite H. Qed.

Lemma key_other (a : license_info) :
  ¬ shared_license (info_license a) →
  licenseTextHash a = info_license a +:+ ":" +:+ text_digest a.
Proof. intros H%has_shared_text_false. unfold licenseTextHash. by rewrite H. Qed.

Lemma key_other_eq (a b : license_info) :
  ¬ shared_license (info_license a) → ¬ shared_license (info_license b) →
  licenseTextHash a = licenseTextHash b ↔
  info_license a = info_license b ∧ text_digest a = text_digest b.
Proof.
  intros Ha Hb. rewrite (key_other a Ha), (key_other b Hb). split.
  - intros H. apply append_inj_length in H as [-> H].
    + split; [done|]. rewrite !append_cons, !append_nil_l in H.
      exact (string_cons_inj _ _ _ H).
    + rewrite !length_append. unfold text_digest. by rewrite !hexdigest_length.
  - by intros [-> ->].
Qed.

Lemma key_shared_other (a b : license_info) :
  shared_license (info_license a) → ¬ shared_license (info_license b) →
  licenseTextHash a ≠ licenseTextHash b.
Proof.
  intros Ha Hb. rewrite (key_shared a Ha), (key_other b Hb). intros H.
  assert (String.length (info_license a)
          = String.length (info_license b) + 65) as Hlen.
  { rewrite H, !length_append. unfold text_digest. rewrite hexdigest_length.
    simpl. lia. }
  destruct Ha as [Ha|[Ha|[rest Ha]]].
  - rewrite Ha in Hlen. simpl in Hlen. lia.
  - rewrite Ha in Hlen. simpl in Hlen. lia.
  - apply Hb. right; right. rewrite Ha in H.
    destruct (info_license b) as [|c1 [|c2 [|c3 [|c4 l]]]];
      rewrite ?append_cons, ?append_nil_l in H; try discriminate H.
    injection H as <- <- <- <- _. by exists l.
Qed.

Lemma key_Apache (a : license_info) :
  licenseTextHash a = "Apache-2.0" ↔ info_license a = "Apache-2.0".
Proof.
  destruct (has_shared_text (info_license a)) eqn:Hs.
  - apply has_shared_text_spec in Hs. by rewrite (key_shared a Hs).
  - apply has_shared_text_false in Hs. rewrite (key_other a Hs). split.
    + intros H. exfalso.
      assert (String.length (info_license a +:+ ":" +:+ text_digest a) = 10) as Hlen
        by by rewrite H.
      rewrite !length_append in Hlen. unfold text_digest in Hlen.
      rewrite hexdigest_length in Hlen. lia.
    + intros H. exfalso. apply Hs. right; by left.
Qed.

(** C3: when the groups are made, two records of the input are in one group
    exactly when they have the same key, and every record is in a group.
    The key of a record whose license is MPL-2.0, Apache-2.0 or starts with
    [EXT-] is the license alone, so that such records share a group whenever
    they share the license; the key of any other record is the license, a
    colon and the SHA-256 digest of the text without its whitespace, so that
    such records share a group exactly when they agree on the license and on
    the digest, as they do when the texts without whitespace are the same;
    a key of the first kind is never one of the second kind.  Two such
    records whose texts do not collide under SHA-256 share a group exactly
    when they agree on the license and on the text without whitespace: with
    notices that differ they are in different groups. *)
Theorem same_group_iff_same_key (deps : list license_info) (groups : list group) :
  group_dependencies_for_printing deps = Ok groups →
  (∀ a b, a ∈ deps → b ∈ deps →
     (∃ g, g ∈ groups ∧ a ∈ group_dependencies g ∧ b ∈ group_dependencies g) ↔
     licenseTextHash a = licenseTextHash b)
  ∧ (∀ a, a ∈ deps → ∃ g, g ∈ groups ∧ a ∈ group_dependencies g)
  ∧ (∀ a, shared_license (info_license a) → licenseTextHash a = info_license a)
  ∧ (∀ a, ¬ shared_license (info_license a) →
          licenseTextHash a
          = info_license a +:+ ":"
            +:+ SHA256.hexdigest
                  (SHA256.utf8 (Py.remove_whitespace (info_license_text a))))
  ∧ (∀ a b, shared_license (info_license a) → shared_license (info_license b) →
            licenseTextHash a = licenseTextHash b ↔ info_license a = info_license b)
  ∧ (∀ a b, ¬ shared_license (info_license a) → ¬ shared_license (info_license b) →
            licenseTextHash a = licenseTextHash b ↔
            info_license a = info_license b ∧ text_digest a = text_digest b)
  ∧ (∀ a b, ¬ shared_license (info_license a) → ¬ shared_license (info_license b) →
            info_license a = info_license b →
            Py.remove_whitespace (info_license_text a)
            = Py.remove_whitespace (info_license_text b) →
            licenseTextHash a = licenseTextHash b)
  ∧ (∀ a b, shared_license (info_license a) → ¬ shared_license (info_license b) →
            licenseTextHash a ≠ licenseTextHash b)
  ∧ (∀ a b, a ∈ deps → b ∈ deps →
            ¬ shared_license (info_license a) → ¬ shared_license (info_license b) →
            (SHA256.hexdigest (SHA256.utf8 (Py.remove_whitespace (info_license_text a)))
             = SHA256.hexdigest (SHA256.utf8 (Py.remove_whitespace (info_license_text b)))
             → Py.remove_whitespace (info_license_text a)
               = Py.remove_whitespace (info_license_text b)) →
            (∃ g, g ∈ groups ∧ a ∈ group_dependencies g ∧ b ∈ group_dependencies g) ↔
            info_license a = info_license b
            ∧ Py.remove_whitespace (info_license_text a)
              = Py.remove_whitespace (info_license_text b)).
Proof.
  intros Hrun. pose proof (groups_Ok deps groups Hrun) as (Hmem & Hall & Hnd).
  assert (∀ a b, a ∈ deps → b ∈ deps →
     (∃ g, g ∈ groups ∧ a ∈ group_dependencies g ∧ b ∈ group_dependencies g) ↔
     licenseTextHash a = licenseTextHash b) as Hsame.
  { intros a b Ha Hb. split.
    + intros (g & Hg & Hag & Hbg).
      apply (elem_of_group deps groups g a Hrun Hg) in Hag as [_ ->].
      apply (elem_of_group deps groups g b Hrun Hg) in Hbg as [_ ->]. done.
    + intros Hkey. destruct (Hall a Ha) as (g & Hg & Hhash). exists g.
      split_and!; [done|..]; apply (elem_of_group deps groups g _ Hrun Hg).
      * by split.
      * split; [done|]. by rewrite Hhash. }
  split_and!.
  - exact Hsame.
  - intros a Ha. destruct (Hall a Ha) as (g & Hg & Hhash). exists g. split; [done|].
    by apply (elem_of_group deps groups g a Hrun Hg).
  - apply key_shared.
  - apply key_other.
  - intros a b Ha Hb. by rewrite (key_shared a Ha), (key_shared b Hb).
  - apply key_other_eq.
  - intros a b Ha Hb Hl Ht. apply key_other_eq; [done..|]. split; [done|].
    unfold text_digest. by rewrite Ht.
  - apply key_shared_other.
  - intros a b Ha Hb Hsa Hsb Hfree.
    rewrite (Hsame a b Ha Hb), (key_other_eq a b Hsa Hsb). unfold text_digest. split.
    + intros [Hl Hd]. split; [done|]. by apply Hfree.
    + intros [Hl Ht]. split; [done|]. by rewrite Ht.
Qed.

(** ** The canonical text of a group *)

Lemma contains_spec (s p : string) :
  Py.contains s p = true ↔ ∃ a b, s = a +:+ p +:+ b.
Proof.
  induction s as [|c s IH]; cbn [Py.contains].
  - rewrite orb_false_r, startswith_spec. split.
    + intros [q Hq]. by exists "", q.
    + intros (a & b & H). destruct a; [by exists b|]. rewrite append_cons in H. done.
  - rewrite orb_true_iff, startswith_spec, IH. split.
    + intros [[q Hq]|(a & b & ->)]; [by exists "", q|].
      by exists (String c a), b.
    + intros (a & b & H). destruct a as [|d a].
      * left. by exists b.
      * right. rewrite append_cons in H. injection H as -> ->. by exists a, b.
Qed.

Lemma is_canonical_apache_text_spec (text : string) :
  is_canonical_apache_text text = true ↔
  (∃ a b, text = a +:+ "[yyyy]" +:+ b) ∧ ¬ (∃ a b, text = a +:+ "NSS" +:+ b).
Proof.
  unfold is_canonical_apache_text.
  rewrite andb_true_iff, negb_true_iff, <- !contains_spec.
  destruct (Py.contains text "NSS"); intuition congruence.
Qed.

(** The second loop stops at the Apache-2.0 entry when no text of it qualifies. *)
Lemma make_groups_Raise (d : list (string * list license_info)) (l : list license_info)
    (e : exn) :
  NoDup d.*1 →
  (∀ k l', (k, l') ∈ d → l' ≠ []) →
  ("Apache-2.0", l) ∈ d →
  find_apache_text (sorted member_key pair_ltb l) = Raise e →
  make_groups d = Raise e.
Proof.
  induction d as [|[k l'] d IH]; [by intros _ _ ?%elem_of_nil|].
  rewrite fmap_cons. intros [Hk Hnd]%NoDup_cons Hne Hin Hfail. cbn [make_groups].
  destruct (String.eqb_spec k "Apache-2.0") as [->|Hother].
  - apply elem_of_cons in Hin as [[= <-]|Hin].
    + unfold make_group. fold member_key.
      destruct (sorted member_key pair_ltb l) as [|first rest] eqn:Hsorted.
      * apply sorted_nil_inv in Hsorted. exfalso. by apply (Hne "Apache-2.0" l); [left|].
      * change (negb (String.eqb "Apache-2.0" "Apache-2.0")) with false. cbv iota.
        by rewrite Hfail.
    + exfalso. apply Hk. apply list_elem_of_fmap. by exists ("Apache-2.0", l).
  - apply elem_of_cons in Hin as [[= ? ?]|Hin]; [done|].
    destruct (make_group_other k l' Hother) as [g ->]; [by apply (Hne k l'); left|].
    cbn. rewrite IH; [done|done| |done|done].
    intros k' l'' H. apply (Hne k' l''). by right.
Qed.

(** C7: in the group with the key [Apache-2.0] the text of the group is that
    of the first member, in the order by name and identifier, whose text has
    [[yyyy]] in it and not [NSS]; when the input has records with that key and
    none of them has such a text, grouping raises.  In every other group the
    text is that of the first member in that order. *)
Theorem canonical_license_text (deps : list license_info) :
  (∀ groups g,
     group_dependencies_for_printing deps = Ok groups → g ∈ groups →
     group_dependencies g
     = sorted (λ i, (info_name i, info_id i)) pair_ltb
         (List.filter (λ i, String.eqb (licenseTextHash i) (group_license_text_hash g)) deps)
     ∧ (group_license_text_hash g = "Apache-2.0" →
        ∃ pre dep post,
          group_dependencies g = pre ++ dep :: post
          ∧ Forall (λ d, is_canonical_apache_text (info_license_text d) = false) pre
          ∧ is_canonical_apache_text (info_license_text dep) = true
          ∧ group_license_text g = info_license_text dep)
     ∧ (group_license_text_hash g ≠ "Apache-2.0" →
        ∃ first rest,
          group_dependencies g = first :: rest
          ∧ group_license_text g = info_license_text first))
  ∧ ((∃ a, a ∈ deps ∧ info_license a = "Apache-2.0") →
     (∀ a, a ∈ deps → info_license a = "Apache-2.0" →
           is_canonical_apache_text (info_license_text a) = false) →
     group_dependencies_for_printing deps
     = Raise (RuntimeError "Could not find appropriate apache license text"))
  ∧ (∀ text, is_canonical_apache_text text = true ↔
             (∃ a b, text = a +:+ "[yyyy]" +:+ b) ∧ ¬ (∃ a b, text = a +:+ "NSS" +:+ b))
  ∧ (∀ a, licenseTextHash a = "Apache-2.0" ↔ info_license a = "Apache-2.0").
Proof.
  split_and!.
  - intros groups g Hrun Hg.
    pose proof (groups_Ok deps groups Hrun) as (Hmem & _ & _).
    destruct (Hmem g Hg) as (Hdeps & Hne & Hmake).
    apply make_group_Ok in Hmake as (_ & _ & first & rest & Hsorted & _ & _ & Hother & Hapache).
    split_and!.
    + exact Hdeps.
    + intros Hk. specialize (Hapache Hk).
      apply find_apache_text_Ok in Hapache as (pre & dep & post & Hl & Hpre & Hdep & Htext).
      exists pre, dep, post. rewrite Hdeps. unfold members_of. by split_and!.
    + intros Hk. exists first, rest. rewrite Hdeps. unfold members_of. split; [done|].
      by apply Hother.
  - intros (a & Ha & Hlicense) Hnone. unfold group_dependencies_for_printing.
    rewrite (make_groups_Raise (depsByLicenseTextHash deps)
               (List.filter (has_key "Apache-2.0") deps) no_apache_text); [done|..].
    + apply depsByLicenseTextHash_keys_distinct.
    + intros k l' H. by apply depsByLicenseTextHash_entry in H as [_ ?].
    + apply depsByLicenseTextHash_entry. split; [done|]. intros Hnil.
      assert (a ∈ List.filter (has_key "Apache-2.0") deps) as Hin.
      { apply elem_of_filter_has_key. split; [done|]. by apply key_Apache. }
      rewrite Hnil in Hin. by apply elem_of_nil in Hin.
    + apply find_apache_text_Raise. split; [done|].
      apply Forall_forall. intros x [Hx Hkey]%elem_of_sorted%elem_of_filter_has_key.
      apply Hnone; [done|]. by apply key_Apache.
  - apply is_canonical_apache_text_spec.
  - apply key_Apache.
Qed.

Ltac elem_of_list := repeat first [ apply list_elem_of_here | apply list_elem_of_further ].

Lemma same_group_iff_same_key_witness :
  (∃ groups,
     group_dependencies_for_printing mixed_deps = Ok groups
     ∧ (∃ g, g ∈ groups ∧ mpl_a ∈ group_dependencies g ∧ mpl_b ∈ group_dependencies g)
     ∧ (∃ g, g ∈ groups ∧ bsd_a ∈ group_dependencies g ∧ bsd_c ∈ group_dependencies g)
     ∧ ¬ (∃ g, g ∈ groups ∧ bsd_a ∈ group_dependencies g ∧ bsd_b ∈ group_dependencies g))
  ∧ ∃ groups,
      group_dependencies_for_printing notice_deps = Ok groups
      ∧ licenseTextHash foo_1
        = "MIT:937b049ee671be768acbe51f28179777eb42419a7b4c28355587101d84d887a2"
      ∧ licenseTextHash foo_2
        = "MIT:654ef40ce1026785ddcd51523e63db531c7e8341d23cc6c5356ebc398ea5989a"
      ∧ (∃ g, g ∈ groups ∧ foo_1 ∈ group_dependencies g ∧ foo_3 ∈ group_dependencies g)
      ∧ ¬ (∃ g, g ∈ groups ∧ foo_1 ∈ group_dependencies g ∧ foo_2 ∈ group_dependencies g).
Proof.
  split.
  - assert (is_ok (group_dependencies_for_printing mixed_deps) = true) as Hrun
      by (vm_compute; reflexivity).
    destruct (group_dependencies_for_printing mixed_deps) as [groups|e] eqn:E;
      [clear Hrun|discriminate Hrun].
    destruct (same_group_iff_same_key mixed_deps groups E) as (Hiff & _).
    exists groups. split; [reflexivity|]. split_and!.
    + apply Hiff; [elem_of_list..|]. vm_compute. reflexivity.
    + apply Hiff; [elem_of_list..|]. vm_compute. reflexivity.
    + intros H. apply Hiff in H; [|elem_of_list..]. vm_compute in H. discriminate H.
  - assert (is_ok (group_dependencies_for_printing notice_deps) = true) as Hrun
      by (vm_compute; reflexivity).
    destruct (group_dependencies_for_printing notice_deps) as [groups|e] eqn:E;
      [clear Hrun|discriminate Hrun].
    destruct (same_group_iff_same_key notice_deps groups E)
      as (_ & _ & _ & Hkey & _ & _ & _ & _ & Hexact).
    assert (¬ shared_license "MIT") as Hmit.
    { intros [H|[H|[rest H]]]; discriminate H. }
    exists groups. split; [reflexivity|]. split_and!.
    + rewrite (Hkey foo_1 Hmit). vm_compute. reflexivity.
    + rewrite (Hkey foo_2 Hmit). vm_compute. reflexivity.
    + apply (Hexact foo_1 foo_3); [elem_of_list..|exact Hmit|exact Hmit| |].
      * intros _. vm_compute. reflexivity.
      * split; vm_compute; reflexivity.
    + intros H. apply (Hexact foo_1 foo_2) in H; [|elem_of_list..|exact Hmit|exact Hmit|].
      * destruct H as [_ H]. vm_compute in H. discriminate H.
      * intros Hd. vm_compute in Hd. discriminate Hd.
Defined.

Lemma canonical_license_text_witness :
  (∃ g rest,
     group_dependencies_for_printing apache_deps = Ok (g :: rest)
     ∧ group_license_text_hash g = "Apache-2.0"
     ∧ group_dependencies g = [ apache_a; apache_b; apache_c; apache_d ]
     ∧ group_license_text g = info_license_text apache_c
     ∧ ∃ pre dep post,
         group_dependencies g = pre ++ dep :: post
         ∧ Forall (λ d, is_canonical_apache_text (info_license_text d) = false) pre
         ∧ is_canonical_apache_text (info_license_text dep) = true
         ∧ group_license_text g = info_license_text dep)
  ∧ group_dependencies_for_printing [ apache_b; mit_m; apache_a ]
    = Raise (RuntimeError "Could not find appropriate apache license text").
Proof.
  split.
  - eexists _, _. split; [vm_compute; reflexivity|].
    split_and!; [reflexivity..|].
    pose proof (proj1 (canonical_license_text apache_deps)) as Hok.
    edestruct Hok as (_ & Hapache & _); [vm_compute; reflexivity|elem_of_list|].
    apply Hapache. reflexivity.
  - apply (canonical_license_text [ apache_b; mit_m; apache_a ]).
    + exists apache_b. split; [elem_of_list|reflexivity].
    + intros a Ha Hl.
      apply elem_of_cons in Ha as [->|Ha]; [vm_compute; reflexivity|].
      apply elem_of_cons in Ha as [->|Ha]; [discriminate Hl|].
      apply elem_of_cons in Ha as [->|Ha]; [vm_compute; reflexivity|].
      apply elem_of_nil in Ha. destruct Ha.
Defined.

(** ** The order of the groups *)

(** C4: two versions of a package, under the same license with texts that
    differ, make two groups with the same sort key; the stable sort leaves
    them in the order in which their keys were first met, so the two orders
    of the same two records give the groups in two different orders. *)
Theorem group_order_follows_input_order :
  [ foo_1; foo_2 ] ≡ₚ [ foo_2; foo_1 ]
  ∧ info_id foo_1 ≠ info_id foo_2
  ∧ group_dependencies_for_printing [ foo_1; foo_2 ] = Ok [ foo_group_1; foo_group_2 ]
  ∧ group_dependencies_for_printing [ foo_2; foo_1 ] = Ok [ foo_group_2; foo_group_1 ]
  ∧ sort_key foo_group_1 = sort_key foo_group_2
  ∧ foo_group_1 ≠ foo_group_2.
Proof.
  split_and!.
  - apply Permutation_swap.
  - by vm_compute.
  - by vm_compute.
  - by vm_compute.
  - by vm_compute.
  - intros H. apply (f_equal group_license_text) in H. vm_compute in H. discriminate H.
Qed.

(** ** Sorted lists are ordered, and unique *)

Section SortedOrder.
Context {A K : Type} (key : A → K) (ltb : K → K → bool).
Hypothesis Hord : strict_total ltb.

Lemma ltb_asym (a b : K) : ltb a b = true → ltb b a = false.
Proof.
  destruct Hord as (Hirr & Htrans & _). intros Hab.
  destruct (ltb b a) eqn:Hba; [|done].
  by rewrite <- (Hirr a), (Htrans a b a Hab Hba).
Qed.

Lemma ordered_by_trans (x y z : A) :
  ordered_by key ltb x y → ordered_by key ltb y z → ordered_by key ltb x z.
Proof.
  destruct Hord as (Hirr & Htrans & Htotal). unfold ordered_by. intros Hxy Hyz.
  destruct (ltb (key z) (key x)) eqn:Hzx; [|done]. exfalso.
  destruct (ltb (key y) (key z)) eqn:Hyz'.
  - destruct (ltb (key x) (key y)) eqn:Hxy'.
    + pose proof (Htrans _ _ _ Hxy' Hyz') as Hxz.
      pose proof (Htrans _ _ _ Hxz Hzx) as Hxx. by rewrite Hirr in Hxx.
    + rewrite (Htotal _ _ Hxy' Hxy) in Hzx. congruence.
  - rewrite <- (Htotal _ _ Hyz' Hyz) in Hzx. congruence.
Qed.

Lemma insert_sorted_ordered (x : A) (l : list A) :
  StronglySorted (ordered_by key ltb) l →
  StronglySorted (ordered_by key ltb) (insert_sorted key ltb x l).
Proof.
  induction 1 as [|y l Hl IH Hy]; simpl.
  - repeat constructor.
  - destruct (ltb (key y) (key x)) eqn:Hyx.
    + constructor; [done|]. rewrite insert_sorted_perm. constructor; [|done].
      by apply ltb_asym.
    + constructor; [by constructor|]. constructor; [done|].
      eapply Forall_impl; [exact Hy|]. intros z Hz.
      by apply (ordered_by_trans x y z).
Qed.

Lemma sorted_ordered (l : list A) : StronglySorted (ordered_by key ltb) (sorted key ltb l).
Proof.
  induction l as [|x l IH]; simpl; [constructor|]. by apply insert_sorted_ordered.
Qed.

(** With keys that are all different, the order of the input is forgotten. *)
Lemma sorted_unique (l l' : list A) :
  l ≡ₚ l' → NoDup (key <$> l) → sorted key ltb l = sorted key ltb l'.
Proof.
  intros Hperm Hnd. apply (StronglySorted_unique_strong (ordered_by key ltb)).
  - intros x y Hx%elem_of_sorted Hy%elem_of_sorted Hxy Hyx.
    rewrite <- Hperm in Hy. apply (NoDup_fmap_inj_on key l x y Hnd Hx Hy).
    destruct Hord as (_ & _ & Htotal). by apply Htotal.
  - apply sorted_ordered.
  - apply sorted_ordered.
  - by rewrite !sorted_perm.
Qed.

End SortedOrder.

Lemma StronglySorted_lookup_lt {A : Type} (R : relation A) (l : list A) (i j : nat) (x y : A) :
  StronglySorted R l → i < j → l !! i = Some x → l !! j = Some y → R x y.
Proof.
  intros Hl. revert i j. induction Hl as [|z l Hl IH Hz]; intros i j Hij Hi Hj.
  - by destruct i.
  - destruct j as [|j]; [lia|]. destruct i as [|i]; simpl in *.
    + injection Hi as ->. rewrite Forall_forall in Hz. apply Hz.
      by apply list_elem_of_lookup_2 in Hj.
    + apply (IH i j); [lia|done..].
Qed.

(** ** The orders of the tool *)

Lemma string_ltb_leb (a b : string) : String.ltb a b = negb (String.leb b a).
Proof.
  unfold String.ltb, String.leb. rewrite (String.compare_antisym b a).
  by destruct (String.compare a b).
Qed.

Lemma strict_total_string : strict_total String.ltb.
Proof.
  split_and!.
  - intros a. rewrite string_ltb_leb.
    assert (String.le a a) as H by done. unfold String.le in H.
    by destruct (String.leb a a).
  - intros a b c. rewrite !string_ltb_leb, !negb_true_iff. intros Hba Hcb.
    destruct (String.leb c a) eqn:Hca; [|done]. exfalso.
    assert (String.le a b) as Hab.
    { destruct (String.leb_total a b) as [H|H]; [by unfold String.le; rewrite H|congruence]. }
    assert (String.le c a) as Hca' by (by unfold String.le; rewrite Hca).
    assert (String.le c b) as Hcb' by (by etrans).
    unfold String.le in Hcb'. by rewrite Hcb in Hcb'.
  - intros a b. rewrite !string_ltb_leb, !negb_false_iff. intros Hba Hab.
    by apply String.leb_antisym.
Qed.

Lemma string_eqb_ltb (a b : string) : String.eqb a b = true → String.ltb a b = false.
Proof. intros ->%String.eqb_eq. apply strict_total_string. Qed.

Lemma strict_total_pair : strict_total pair_ltb.
Proof.
  destruct strict_total_string as (Hirr & Htrans & Htotal).
  unfold pair_ltb. split_and!.
  - intros [a1 a2]. simpl. by rewrite !Hirr, andb_false_r.
  - intros [a1 a2] [b1 b2] [c1 c2]. simpl.
    rewrite !orb_true_iff, !andb_true_iff, !String.eqb_eq.
    intros [H1|[-> H1]] [H2|[-> H2]]; eauto.
  - intros [a1 a2] [b1 b2]. simpl.
    rewrite !orb_false_iff, !andb_false_iff. intros [H1 H1'] [H2 H2'].
    assert (a1 = b1) as <- by by apply Htotal.
    rewrite String.eqb_refl in H1', H2'.
    destruct H1' as [?|H1']; [done|]. destruct H2' as [?|H2']; [done|].
    by rewrite (Htotal _ _ H1' H2').
Qed.

Lemma strict_total_list : strict_total list_ltb.
Proof.
  destruct strict_total_string as (Hirr & Htrans & Htotal). split_and!.
  - intros a. induction a as [|x a IH]; simpl; [done|].
    by rewrite Hirr, String.eqb_refl, IH.
  - intros a. induction a as [|x a IH]; intros [|y b] [|z c]; simpl; try done.
    rewrite !orb_true_iff, !andb_true_iff, !String.eqb_eq.
    intros [H1|[-> H1]] [H2|[-> H2]]; eauto.
  - intros a. induction a as [|x a IH]; intros [|y b]; simpl; try done.
    rewrite !orb_false_iff, !andb_false_iff. intros [H1 H1'] [H2 H2'].
    assert (x = y) as <- by by apply Htotal.
    rewrite String.eqb_refl in H1', H2'.
    destruct H1' as [?|H1']; [done|]. destruct H2' as [?|H2']; [done|].
    by rewrite (IH _ H1' H2').
Qed.

Lemma strict_total_sort_key : strict_total sort_key_ltb.
Proof.
  destruct strict_total_list as (Hirr & Htrans & Htotal).
  unfold sort_key_ltb. split_and!.
  - intros [n a]. simpl. rewrite Hirr, andb_false_r, orb_false_r. apply Nat.ltb_irrefl.
  - intros [n a] [m b] [k c]. simpl.
    rewrite !orb_true_iff, !andb_true_iff, !Nat.ltb_lt, !Nat.eqb_eq.
    intros [H1|[-> H1]] [H2|[-> H2]]; eauto. left. lia.
  - intros [n a] [m b]. simpl.
    rewrite !orb_false_iff, !andb_false_iff, !Nat.ltb_ge, !Nat.eqb_neq.
    intros [H1 H1'] [H2 H2']. assert (n = m) as <- by lia.
    destruct H1' as [?|H1']; [done|]. destruct H2' as [?|H2']; [done|].
    by rewrite (Htotal _ _ H1' H2').
Qed.

(** ** The groups in print order *)

Lemma preference_index_le (prefs : list string) (license : string) :
  preference_index prefs license ≤ length prefs.
Proof.
  induction prefs as [|l prefs IH]; simpl; [lia|].
  destruct (String.eqb license l); lia.
Qed.


Lemma groups_sorted (deps : list license_info) (groups : list group) :
  group_dependencies_for_printing deps = Ok groups →
  StronglySorted (ordered_by sort_key sort_key_ltb) groups.
Proof.
  unfold group_dependencies_for_printing. intros (gs & _ & [= <-])%bind_Ok.
  apply sorted_ordered, strict_total_sort_key.
Qed.


(** X2: the members of a group come in the order of their names, and those
    of one name in the order of their identifiers. *)
Theorem members_listed_by_name_and_id (deps : list license_info) (groups : list group)
    (g : group) (i j : nat) (a b : license_info) :
  group_dependencies_for_printing deps = Ok groups → g ∈ groups →
  i < j → group_dependencies g !! i = Some a → group_dependencies g !! j = Some b →
  String.ltb (info_name b) (info_name a) = false
  ∧ (info_name a = info_name b → String.ltb (info_id b) (info_id a) = false).
Proof.
  intros Hrun Hg Hij Hi Hj.
  pose proof (groups_Ok deps groups Hrun) as (Hmem & _ & _).
  destruct (Hmem g Hg) as (Hdeps & _). rewrite Hdeps in Hi, Hj. unfold members_of in *.
  pose proof (StronglySorted_lookup_lt _ _ _ _ _ _
                (sorted_ordered member_key pair_ltb strict_total_pair _) Hij Hi Hj) as H.
  unfold ordered_by, pair_ltb, member_key in H. cbn [fst snd] in H.
  apply orb_false_iff in H as [Hlt Heq]. split; [done|].
  intros Hsame. rewrite Hsame, String.eqb_refl in Heq. done.
Qed.

Lemma key_license (a b : license_info) :
  licenseTextHash a = licenseTextHash b → info_license a = info_license b.
Proof.
  intros H.
  destruct (has_shared_text (info_license a)) eqn:Ha;
    destruct (has_shared_text (info_license b)) eqn:Hb.
  - apply has_shared_text_spec in Ha, Hb. by rewrite (key_shared a Ha), (key_shared b Hb) in H.
  - apply has_shared_text_spec in Ha. apply has_shared_text_false in Hb.
    by destruct (key_shared_other a b Ha Hb).
  - apply has_shared_text_spec in Hb. apply has_shared_text_false in Ha.
    by destruct (key_shared_other b a Hb Ha).
  - apply has_shared_text_false in Ha, Hb. by apply (key_other_eq a b Ha Hb) in H as [? _].
Qed.

(** X3: no group is empty, and the license of a group is the license of
    every member. *)
Theorem group_members_share_license (deps : list license_info) (groups : list group)
    (g : group) :
  group_dependencies_for_printing deps = Ok groups → g ∈ groups →
  group_dependencies g ≠ []
  ∧ ∀ a, a ∈ group_dependencies g → a ∈ deps ∧ info_license a = group_license g.
Proof.
  intros Hrun Hg. pose proof (groups_Ok deps groups Hrun) as (Hmem & _ & _).
  destruct (Hmem g Hg) as (Hdeps & Hne & Hmake).
  apply make_group_Ok in Hmake as (Hgd & _ & first & rest & Hsorted & Hlicense & _).
  split.
  - rewrite Hgd, Hsorted. done.
  - intros a Ha. pose proof Ha as [Hin Hkey]%(elem_of_group deps groups g a Hrun Hg).
    split; [done|]. rewrite Hlicense. apply key_license. rewrite Hkey.
    assert (first ∈ group_dependencies g) as Hfirst by (rewrite Hgd, Hsorted; left).
    by apply (elem_of_group deps groups g first Hrun Hg) in Hfirst as [_ ->].
Qed.

Lemma join_cons {A : Type} (x : list A) (ls : list (list A)) :
  mjoin (x :: ls) = x ++ mjoin ls.
Proof. reflexivity. Qed.

Lemma concat_join {A : Type} (ls : list (list A)) : concat ls = mjoin ls.
Proof. induction ls as [|x ls IH]; [done|]. simpl. by rewrite IH. Qed.

Lemma dict_append_values (key : string) (info : license_info)
    (d : list (string * list license_info)) :
  mjoin (dict_append key info d).*2 ≡ₚ mjoin d.*2 ++ [info].
Proof.
  induction d as [|[k l] d IH]; [done|]. cbn [dict_append].
  destruct (String.eqb key k); rewrite !fmap_cons, !join_cons; cbn [snd].
  - rewrite <- !(assoc_L (++)). f_equiv. apply Permutation_app_comm.
  - rewrite IH. by rewrite (assoc_L (++)).
Qed.

Lemma depsByLicenseTextHash_values (deps : list license_info) :
  mjoin (depsByLicenseTextHash deps).*2 ≡ₚ deps.
Proof.
  induction deps as [|info deps IH] using rev_ind; [done|].
  by rewrite depsByLicenseTextHash_snoc, dict_append_values, IH.
Qed.

Lemma make_groups_members (d : list (string * list license_info)) (gs : list group) :
  make_groups d = Ok gs → mjoin (group_dependencies <$> gs) ≡ₚ mjoin d.*2.
Proof.
  intros H%make_groups_Ok. induction H as [|[k l] g d gs Hg _ IH]; [done|].
  rewrite !fmap_cons, !join_cons. cbn [snd].
  apply make_group_Ok in Hg as (-> & _). rewrite sorted_perm. cbn [snd].
  by rewrite IH.
Qed.

(** X4: the groups divide the input: their members, taken together, are the
    records of the input, each as often as the input has it. *)
Theorem groups_partition_input (deps : list license_info) (groups : list group) :
  group_dependencies_for_printing deps = Ok groups →
  concat (group_dependencies <$> groups) ≡ₚ deps.
Proof.
  unfold group_dependencies_for_printing. intros (gs & Hgs & [= <-])%bind_Ok.
  rewrite concat_join, sorted_perm, (make_groups_members _ _ Hgs).
  apply depsByLicenseTextHash_values.
Qed.

(** X5: the records under MPL-2.0, under Apache-2.0 and under each [EXT-]
    license are in one group: two groups with such a license are the same
    group. *)
Theorem shared_license_single_group (deps : list license_info) (groups : list group)
    (g1 g2 : group) :
  group_dependencies_for_printing deps = Ok groups → g1 ∈ groups → g2 ∈ groups →
  shared_license (group_license g1) → group_license g1 = group_license g2 →
  g1 = g2.
Proof.
  intros Hrun Hg1 Hg2 Hshared Hsame.
  pose proof (groups_Ok deps groups Hrun) as (Hmem & _ & Hnd).
  apply (NoDup_fmap_inj_on group_license_text_hash groups g1 g2 Hnd Hg1 Hg2).
  assert (∀ g, g ∈ groups → shared_license (group_license g) →
               group_license_text_hash g = group_license g) as Hkey.
  { intros g Hg Hs. destruct (Hmem g Hg) as (_ & _ & Hmake).
    apply make_group_Ok in Hmake as (Hgd & _ & first & rest & Hsorted & Hlicense & _).
    assert (first ∈ group_dependencies g) as Hfirst by (rewrite Hgd, Hsorted; left).
    apply (elem_of_group deps groups g first Hrun Hg) in Hfirst as [_ <-].
    rewrite Hlicense in *. by apply key_shared. }
  rewrite (Hkey g1 Hg1 Hshared), (Hkey g2 Hg2); [done|]. by rewrite <- Hsame.
Qed.

(** ** The order of the input *)

Lemma filter_perm {A : Type} (p : A → bool) (l l' : list A) :
  l ≡ₚ l' → List.filter p l ≡ₚ List.filter p l'.
Proof.
  induction 1 as [|x l l' _ IH|x y l|l l' l'' _ IH1 _ IH2]; simpl.
  - done.
  - destruct (p x); [by f_equiv|done].
  - destruct (p x), (p y); try done. apply Permutation_swap.
  - by etrans.
Qed.

Lemma NoDup_fmap_filter {A B : Type} (f : A → B) (p : A → bool) (l : list A) :
  NoDup (f <$> l) → NoDup (f <$> List.filter p l).
Proof.
  induction l as [|x l IH]; [done|]. rewrite fmap_cons. intros [Hx Hnd]%NoDup_cons.
  simpl. destruct (p x); [|by apply IH]. rewrite fmap_cons. apply NoDup_cons.
  split; [|by apply IH]. intros (y & Hy & Hin)%list_elem_of_fmap.
  apply Hx. apply list_elem_of_fmap. exists y. split; [done|].
  apply list_elem_of_In, List.filter_In in Hin as [Hin _]. by apply list_elem_of_In.
Qed.

Lemma make_group_sorted (k : string) (l l' : list license_info) :
  sorted member_key pair_ltb l = sorted member_key pair_ltb l' →
  make_group k l = make_group k l'.
Proof. intros H. unfold make_group. fold member_key. by rewrite H. Qed.

Lemma make_groups_total (d : list (string * list license_info)) :
  (∀ e, e ∈ d → ∃ g, make_group e.1 e.2 = Ok g) → ∃ gs, make_groups d = Ok gs.
Proof.
  induction d as [|[k l] d IH]; intros H; [by eexists|].
  destruct (H (k, l)) as [g Hg]; [left|]. destruct IH as [gs Hgs].
  { intros e He. apply H. by right. }
  exists (g :: gs). cbn [make_groups]. cbn [fst snd] in Hg. by rewrite Hg, Hgs.
Qed.

(** The groups are the results of [make_group] on the keys that occur. *)
Lemma elem_of_groups (deps : list license_info) (groups : list group) (g : group) :
  group_dependencies_for_printing deps = Ok groups →
  g ∈ groups ↔
  List.filter (has_key (group_license_text_hash g)) deps ≠ []
  ∧ make_group (group_license_text_hash g)
      (List.filter (has_key (group_license_text_hash g)) deps) = Ok g.
Proof.
  intros Hrun. pose proof (groups_Ok deps groups Hrun) as (Hmem & Hall & Hnd). split.
  - intros Hg. by destruct (Hmem g Hg) as (_ & ? & ?).
  - intros [Hne Hmake].
    destruct (List.filter (has_key (group_license_text_hash g)) deps) as [|a l] eqn:Hf; [done|].
    assert (a ∈ deps ∧ licenseTextHash a = group_license_text_hash g) as [Ha Hkey].
    { apply elem_of_filter_has_key. rewrite Hf. left. }
    destruct (Hall a Ha) as (g' & Hg' & Hhash). rewrite Hkey in Hhash.
    destruct (Hmem g' Hg') as (_ & _ & Hmake'). rewrite Hhash, Hf, Hmake in Hmake'.
    by injection Hmake' as ->.
Qed.

Lemma members_of_perm (deps deps' : list license_info) (k : string) :
  deps ≡ₚ deps' → NoDup (member_key <$> deps) →
  sorted member_key pair_ltb (List.filter (has_key k) deps)
  = sorted member_key pair_ltb (List.filter (has_key k) deps').
Proof.
  intros Hperm Hnd. apply sorted_unique.
  - apply strict_total_pair.
  - by apply filter_perm.
  - by apply NoDup_fmap_filter.
Qed.

(** X6: for records that differ in name or identifier, the order of the
    input decides nothing as long as no two groups have the same sort key:
    every rearrangement of the input gives the same list of groups. *)
Theorem grouping_independent_of_order_without_ties (deps deps' : list license_info)
    (groups : list group) :
  deps ≡ₚ deps' →
  NoDup ((λ i, (info_name i, info_id i)) <$> deps) →
  group_dependencies_for_printing deps = Ok groups →
  NoDup (sort_key <$> groups) →
  group_dependencies_for_printing deps' = Ok groups.
Proof.
  intros Hperm Hnd Hrun Hties. fold member_key in Hnd.
  assert (∀ k, List.filter (has_key k) deps' ≠ [] → List.filter (has_key k) deps ≠ [])
    as Hne.
  { intros k H Hnil. apply H. apply Permutation_nil_r.
    by rewrite <- Hnil, (filter_perm _ _ _ Hperm). }
  assert (∀ k, make_group k (List.filter (has_key k) deps')
               = make_group k (List.filter (has_key k) deps)) as Hmake.
  { intros k. symmetry. by apply make_group_sorted, members_of_perm. }
  destruct (make_groups_total (depsByLicenseTextHash deps')) as [gs' Hgs'].
  { intros [k l] [-> Hl]%depsByLicenseTextHash_entry. cbn [fst snd]. rewrite Hmake.
    assert ((k, List.filter (has_key k) deps) ∈ depsByLicenseTextHash deps) as Hin.
    { apply depsByLicenseTextHash_entry. split; [done|]. by apply Hne. }
    pose proof Hrun as (gs & Hgs & _)%bind_Ok.
    destruct (Forall2_elem_of_l _ _ _ _ (make_groups_Ok _ _ Hgs) Hin) as (g & _ & Hg).
    by exists g. }
  assert (group_dependencies_for_printing deps'
          = Ok (sorted sort_key sort_key_ltb gs')) as Hrun'.
  { unfold group_dependencies_for_printing. by rewrite Hgs'. }
  rewrite Hrun'. f_equal. set (groups' := sorted sort_key sort_key_ltb gs') in *.
  assert (∀ g, g ∈ groups' ↔ g ∈ groups) as Hsame.
  { intros g. rewrite (elem_of_groups deps' groups' g Hrun'),
      (elem_of_groups deps groups g Hrun), Hmake. split.
    - intros [H1 H2]. split; [by apply Hne|done].
    - intros [H1 H2]. split; [|done]. intros Hnil. apply H1. apply Permutation_nil_r.
      by rewrite <- Hnil, (filter_perm _ _ _ Hperm). }
  apply (StronglySorted_unique_strong (ordered_by sort_key sort_key_ltb)).
  - intros g1 g2 Hg1%Hsame Hg2 H12 H21.
    apply (NoDup_fmap_inj_on sort_key groups g1 g2 Hties Hg1 Hg2).
    destruct strict_total_sort_key as (_ & _ & Htotal). by apply Htotal.
  - by apply (groups_sorted deps').
  - by apply (groups_sorted deps).
  - apply NoDup_Permutation; [| |done].
    + eapply NoDup_fmap_1. by apply (groups_Ok deps' groups' Hrun').
    + eapply NoDup_fmap_1. by apply (groups_Ok deps groups Hrun).
Qed.

(** ** Titles *)

Lemma remove_dups_perm (l l' : list string) : l ≡ₚ l' → remove_dups l ≡ₚ remove_dups l'.
Proof.
  intros H. apply NoDup_Permutation; [apply NoDup_remove_dups..|].
  intros x. by rewrite !elem_of_remove_dups, H.
Qed.

Lemma sorted_set_perm (names names' : list string) :
  names ≡ₚ names' → sorted_set names = sorted_set names'.
Proof.
  intros H. unfold sorted_set. apply sorted_unique.
  - apply strict_total_string.
  - by apply remove_dups_perm.
  - rewrite list_fmap_id. apply NoDup_remove_dups.
Qed.

Lemma elem_of_sorted_set (names : list string) (x : string) :
  x ∈ sorted_set names ↔ x ∈ names.
Proof. unfold sorted_set. by rewrite elem_of_sorted, elem_of_remove_dups. Qed.

(** X7: the title made for a license and its dependencies does not depend on
    the order of the dependencies, nor on how often a name occurs among
    them. *)
Theorem make_license_title_names_as_set (license : string) (deps deps' : list license_info) :
  (∀ name, name ∈ info_name <$> deps ↔ name ∈ info_name <$> deps') →
  make_license_title license (Some deps) = make_license_title license (Some deps').
Proof.
  intros Hsame.
  assert (sorted_set (info_name <$> deps) = sorted_set (info_name <$> deps')) as Hnames.
  { unfold sorted_set. apply sorted_unique.
    - apply strict_total_string.
    - apply NoDup_Permutation; [apply NoDup_remove_dups..|].
      intros x. by rewrite !elem_of_remove_dups.
    - rewrite list_fmap_id. apply NoDup_remove_dups. }
  unfold make_license_title.
  destruct deps as [|d ds], deps' as [|d' ds'].
  - done.
  - exfalso. destruct (Hsame (info_name d')) as [_ H].
    rewrite fmap_cons in H. specialize (H (list_elem_of_here _ _)). by apply elem_of_nil in H.
  - exfalso. destruct (Hsame (info_name d)) as [H _].
    rewrite fmap_cons in H. specialize (H (list_elem_of_here _ _)). by apply elem_of_nil in H.
  - by rewrite Hnames.
Qed.

(** ** The properties on the sample records *)

Ltac run_grouping deps E :=
  let v := eval vm_compute in (group_dependencies_for_printing deps) in
  assert (group_dependencies_for_printing deps = v) as E by (vm_compute; reflexivity).


Lemma members_listed_by_name_and_id_witness :
  ∃ groups g a b,
    group_dependencies_for_printing apache_deps = Ok groups
    ∧ g ∈ groups
    ∧ group_dependencies g !! 0 = Some a ∧ group_dependencies g !! 3 = Some b
    ∧ info_name a = "aaa" ∧ info_name b = "ddd"
    ∧ String.ltb (info_name b) (info_name a) = false.
Proof.
  run_grouping apache_deps E.
  eexists _, _, _, _. split; [exact E|]. split; [apply list_elem_of_here|].
  split_and!; [reflexivity..|].
  eapply (members_listed_by_name_and_id apache_deps _ _ 0 3 _ _ E);
    [apply list_elem_of_here|lia|reflexivity..].
Defined.

Lemma group_members_share_license_witness :
  ∃ groups g,
    group_dependencies_for_printing mixed_deps = Ok groups
    ∧ g ∈ groups ∧ group_license g = "MPL-2.0"
    ∧ mpl_a ∈ group_dependencies g ∧ mpl_b ∈ group_dependencies g
    ∧ ∀ a, a ∈ group_dependencies g → a ∈ mixed_deps ∧ info_license a = group_license g.
Proof.
  run_grouping mixed_deps E.
  eexists _, _. split; [exact E|]. split; [apply list_elem_of_here|].
  split_and!; [reflexivity|elem_of_list..|].
  eapply (group_members_share_license mixed_deps _ _ E). apply list_elem_of_here.
Defined.

Lemma groups_partition_input_witness :
  ∃ groups,
    group_dependencies_for_printing mixed_deps = Ok groups
    ∧ length groups = 3
    ∧ concat (group_dependencies <$> groups) ≡ₚ mixed_deps.
Proof.
  run_grouping mixed_deps E.
  eexists. split; [exact E|]. split; [reflexivity|].
  exact (groups_partition_input mixed_deps _ E).
Defined.

Lemma shared_license_single_group_witness :
  ∃ groups,
    group_dependencies_for_printing mixed_deps = Ok groups
    ∧ ∀ g1 g2, g1 ∈ groups → g2 ∈ groups →
               group_license g1 = "MPL-2.0" → group_license g2 = "MPL-2.0" → g1 = g2.
Proof.
  run_grouping mixed_deps E.
  eexists. split; [exact E|]. intros g1 g2 Hg1 Hg2 H1 H2.
  apply (shared_license_single_group mixed_deps _ g1 g2 E Hg1 Hg2).
  - rewrite H1. left. reflexivity.
  - rewrite H1, H2. reflexivity.
Defined.

Lemma grouping_independent_of_order_without_ties_witness :
  group_dependencies_for_printing (reverse mixed_deps)
  = group_dependencies_for_printing mixed_deps.
Proof.
  run_grouping mixed_deps E. rewrite E.
  apply (grouping_independent_of_order_without_ties mixed_deps (reverse mixed_deps)).
  - symmetry. apply reverse_Permutation.
  - apply (bool_decide_unpack _). vm_compute. exact I.
  - exact E.
  - apply (bool_decide_unpack _). vm_compute. exact I.
Defined.

Lemma make_license_title_names_as_set_witness :
  make_license_title "MIT" (Some [ foo_1; mit_m; foo_2 ])
  = make_license_title "MIT" (Some [ mit_m; foo_2 ])
  ∧ make_license_title "MIT" (Some [ mit_m; foo_2 ]) = "MIT License: foo, mmm".
Proof.
  split; [|vm_compute; reflexivity].
  apply make_license_title_names_as_set. intros name.
  change (info_name <$> [ foo_1; mit_m; foo_2 ]) with [ "foo"; "mmm"; "foo" ].
  change (info_name <$> [ mit_m; foo_2 ]) with [ "mmm"; "foo" ].
  rewrite !elem_of_cons, !elem_of_nil. tauto.
Defined.

(** ** The catalog built by the constructor *)

Lemma in_set_Ok (name : value) (s : gset string) (b : bool) :
  in_set name s = Ok b →
  hash_key name = Ok tt ∧ (b = true ↔ ∃ k, name = VStr k ∧ k ∈ s).
Proof.
  unfold in_set. destruct name as [|k|shown]; simpl; [| |done].
  - intros [= <-]. split; [done|]. split; [done|]. by intros (k & [=] & _).
  - intros [= <-]. split; [done|]. rewrite bool_decide_eq_true. split.
    + intros Hk. by exists k.
    + by intros (k' & [= ->] & Hk).
Qed.

Lemma assoc_value_Some {A : Type} (name : value) (d : list (string * A)) (a : A) :
  assoc_value name d = Ok (Some a) → ∃ k, name = VStr k ∧ assoc k d = Some a.
Proof.
  unfold assoc_value. destruct name as [|k|shown]; cbn [hash_key mbind result_bind];
    [done| |done].
  intros H. exists k. split; [done|]. congruence.
Qed.

(** What one round of the loop over the packages does when it passes. *)
Lemma load_package_cases (info info' : gmap string value)
    (byId byPath byId' byPath' : gmap value (gmap string value)) :
  load_package info byId byPath = Ok (info', byId', byPath') →
  ∃ name, info !! "name" = Some name ∧ hash_key name = Ok tt
    ∧ ((excluded_name name ∧ info' = info ∧ byId' = byId ∧ byPath' = byPath)
       ∨ (¬ excluded_name name ∧ fixed_up name info = Ok info'
          ∧ ∃ id path,
              info' !! "id" = Some id ∧ byId !! id = None
              ∧ byId' = <[id := info']> byId
              ∧ info' !! "manifest_path" = Some path ∧ byPath !! path = None
              ∧ byPath' = <[path := info']> byPath)).
Proof.
  intros H. rewrite load_package_eq in H.
  destruct (getitem info "name") as [name|] eqn:Hname; simpl in H; [|done].
  apply getitem_Ok in Hname. exists name. split; [done|].
  destruct (in_set name EXCLUDED_PACKAGES) as [excluded|] eqn:Hset; simpl in H; [|done].
  apply in_set_Ok in Hset as [Hhash Hex]. split; [done|].
  destruct excluded.
  { left. injection H as <- <- <-.
    split_and!; [by apply Hex|reflexivity..]. }
  right. split; [intros Hn; by apply Hex in Hn|].
  destruct (fixed_up name info) as [info1|]; simpl in H; [|done].
  destruct (getitem info1 "id") as [id|] eqn:Hid; simpl in H; [|done].
  destruct (index_new id info1 byId) as [byId1|] eqn:HbyId; simpl in H; [|done].
  destruct (getitem info1 "manifest_path") as [path|] eqn:Hpath; simpl in H; [|done].
  destruct (index_new path info1 byPath) as [byPath1|] eqn:HbyPath; simpl in H; [|done].
  injection H as <- <- <-.
  apply getitem_Ok in Hid, Hpath.
  apply index_new_Ok in HbyId as [? ->]. apply index_new_Ok in HbyPath as [? ->].
  split; [done|]. by exists id, path.
Qed.

(** The rules leave alone every field that the table does not name. *)
Lemma fixed_up_frame (name : value) (key : string) (info info' : gmap string value) :
  key ∉ ["license"; "licence"; "license_file"; "license_url"; "repository"; "version"] →
  fixed_up name info = Ok info' →
  info' !! key = info !! key.
Proof.
  intros Hkey H. unfold fixed_up in H.
  destruct (assoc_value name PACKAGE_METADATA_FIXUPS) as [[fixups|]|] eqn:Hfix;
    cbn [mbind result_bind] in H; [|by injection H as <-|done].
  apply (apply_fixups_frame _ _ _ _ H). intros rule Hrule. exfalso. apply Hkey.
  apply assoc_value_Some in Hfix as (k & -> & Hfix).
  apply assoc_elem_of in Hfix. rename k into name.
  pose proof (proj1 (Forall_forall _ _) fixup_table_fields (name, fixups) Hfix) as Hf.
  exact (proj1 (Forall_forall _ _) Hf (key, rule) Hrule).
Qed.

Lemma fixed_up_name (name : value) (info info' : gmap string value) :
  fixed_up name info = Ok info' → info' !! "name" = info !! "name".
Proof. apply fixed_up_frame. by apply (bool_decide_unpack _). Qed.

Lemma fixed_up_id (name : value) (info info' : gmap string value) :
  fixed_up name info = Ok info' → info' !! "id" = info !! "id".
Proof. apply fixed_up_frame. by apply (bool_decide_unpack _). Qed.

Lemma fixed_up_manifest_path (name : value) (info info' : gmap string value) :
  fixed_up name info = Ok info' → info' !! "manifest_path" = info !! "manifest_path".
Proof. apply fixed_up_frame. by apply (bool_decide_unpack _). Qed.

Lemma indexed_empty : indexed [] ∅ ∅.
Proof. split; intros ? ? H; by rewrite lookup_empty in H. Qed.

Lemma indexed_step (seen : list (gmap string value)) (info info' : gmap string value)
    (byId byPath byId' byPath' : gmap value (gmap string value)) :
  indexed seen byId byPath →
  load_package info byId byPath = Ok (info', byId', byPath') →
  indexed (seen ++ [info]) byId' byPath'.
Proof.
  intros [HI HP] H.
  apply load_package_cases in H
    as (name & Hname & Hhash
        & [(Hex & -> & -> & ->)
          |(Hex & Hfix & id & path & Hid & Hfid & -> & Hpath & Hfpath & ->)]).
  - split; [|exact HP]. intros i x Hx.
    destruct (HI i x Hx) as (orig & n & p & Hin & Hrest).
    exists orig, n, p. split; [|exact Hrest]. apply elem_of_app. by left.
  - split.
    + intros i x Hx. destruct (decide (i = id)) as [->|Hne].
      * rewrite lookup_insert_eq in Hx. injection Hx as <-.
        exists info, name, path. split_and!; try done.
        -- apply elem_of_app. right. by apply list_elem_of_singleton.
        -- by rewrite lookup_insert_eq.
      * rewrite lookup_insert_ne in Hx by done.
        destruct (HI i x Hx)
          as (orig & n & p & Hin & Hn & Hnh & Hnex & Hf & Hi & Hp & Hby).
        exists orig, n, p. split_and!; try done.
        -- apply elem_of_app. by left.
        -- rewrite lookup_insert_ne; [done|]. intros <-. congruence.
    + intros p x Hx. destruct (decide (p = path)) as [->|Hne].
      * rewrite lookup_insert_eq in Hx. injection Hx as <-.
        split; [done|]. exists id. split; [done|]. by rewrite lookup_insert_eq.
      * rewrite lookup_insert_ne in Hx by done.
        destruct (HP p x Hx) as (Hp & i & Hi & Hby).
        split; [done|]. exists i. split; [done|].
        rewrite lookup_insert_ne; [done|]. intros <-. congruence.
Qed.

Lemma load_packages_indexed (infos infos' seen : list (gmap string value))
    (byId byPath byId' byPath' : gmap value (gmap string value)) :
  indexed seen byId byPath →
  load_packages infos byId byPath = Ok (infos', byId', byPath') →
  indexed (seen ++ infos) byId' byPath'.
Proof.
  revert infos' seen byId byPath. induction infos as [|info infos IH];
    intros infos' seen byId byPath Hinv H; simpl in H.
  - injection H as <- <- <-. by rewrite app_nil_r.
  - destruct (load_package info byId byPath) as [[[info1 byId1] byPath1]|] eqn:H1;
      simpl in H; [|done].
    destruct (load_packages infos byId1 byPath1) as [[[rest byId2] byPath2]|] eqn:H2;
      simpl in H; [|done].
    injection H as <- <- <-.
    replace (seen ++ info :: infos) with ((seen ++ [info]) ++ infos)
      by (by rewrite <- app_assoc).
    eapply IH; [|exact H2]. by eapply indexed_step.
Qed.

(** The loop over the table of fake packages adds its entries and nothing else. *)
Lemma load_extras_spec (extras : list (string * gmap string value))
    (byId byId' : gmap value (gmap string value)) :
  load_extras extras byId = Ok byId' →
  NoDup extras.*1
  ∧ (∀ key, key ∈ extras.*1 → byId !! VStr key = None)
  ∧ ∀ id info, byId' !! id = Some info ↔
                byId !! id = Some info ∨ ∃ key, id = VStr key ∧ (key, info) ∈ extras.
Proof.
  revert byId. induction extras as [|[name x] extras IH]; intros byId H; simpl in H.
  - injection H as <-. split_and!.
    + constructor.
    + intros key Hkey. by apply elem_of_nil in Hkey.
    + intros id info. split; [by left|]. intros [?|(key & _ & Hin)]; [done|].
      by apply elem_of_nil in Hin.
  - destruct (index_new (VStr name) x byId) as [byId1|] eqn:H1; simpl in H; [|done].
    apply index_new_Ok in H1 as [Hfresh ->].
    destruct (IH _ H) as (Hnd & Hnone & Hspec). split_and!.
    + cbn [fmap list_fmap fst]. constructor; [|done]. intros Hin.
      specialize (Hnone name Hin). by rewrite lookup_insert_eq in Hnone.
    + intros key Hkey. cbn [fmap list_fmap fst] in Hkey.
      apply elem_of_cons in Hkey as [->|Hkey]; [done|].
      specialize (Hnone key Hkey).
      destruct (decide (key = name)) as [->|Hne]; [done|].
      rewrite lookup_insert_ne in Hnone; [done|congruence].
    + intros id info. rewrite Hspec. split.
      * intros [Hk|(key & -> & Hin)]; [|right; exists key; split; [done|by right]].
        destruct (decide (id = VStr name)) as [->|Hne].
        -- rewrite lookup_insert_eq in Hk. injection Hk as <-. right.
           exists name. split; [done|left].
        -- rewrite lookup_insert_ne in Hk by done. by left.
      * intros [Hk|(key & -> & [[= -> ->]|Hin]%elem_of_cons)].
        -- left. rewrite lookup_insert_ne; [done|]. congruence.
        -- left. by rewrite lookup_insert_eq.
        -- right. by exists key.
Qed.

Lemma extra_packages_named :
  Forall (λ entry, ∃ name, entry.2 !! "name" = Some (VStr name)
                           ∧ (name ∉ EXCLUDED_PACKAGES)
                           ∧ entry.2 !! "source" = None
                           ∧ entry.2 !! "id" = None)
         EXTRA_PACKAGE_METADATA.
Proof.
  assert (forallb (λ entry : string * gmap string value,
                     match entry.2 !! "name" with
                     | Some (VStr name) =>
                         bool_decide (name ∉ EXCLUDED_PACKAGES)
                         && bool_decide (entry.2 !! "source" = None)
                         && bool_decide (entry.2 !! "id" = None)
                     | _ => false
                     end) EXTRA_PACKAGE_METADATA = true) as H
    by (vm_compute; reflexivity).
  apply Forall_forall. intros entry Hin%list_elem_of_In.
  pose proof (proj1 (forallb_forall _ _) H entry Hin) as He. cbv beta in He.
  destruct (entry.2 !! "name") as [[|name|]|]; try discriminate He.
  apply andb_prop in He as [He H3]. apply andb_prop in He as [H1 H2].
  apply bool_decide_eq_true in H1, H2, H3.
  exists name. split_and!; [reflexivity|assumption..].
Qed.

(** What a catalog is made of. *)
Lemma init_parts (md : cargo_metadata) (ws : WorkspaceMetadata) :
  init md = Ok ws →
  ∃ infos byId,
    load_packages (packages md) ∅ ∅ = Ok (infos, byId, pkgInfoByManifestPath ws)
    ∧ load_extras EXTRA_PACKAGE_METADATA byId = Ok (pkgInfoById ws)
    ∧ load_members (workspace_members md) (pkgInfoById ws) ∅
      = Ok (workspaceMembersByName ws)
    ∧ workspace_root (metadata ws) = workspace_root md.
Proof.
  intros H. unfold init in H.
  apply bind_Ok in H as ([[infos byId] byPath] & H1 & H).
  apply bind_Ok in H as (byId' & H2 & H).
  apply bind_Ok in H as (members & H3 & H).
  injection H as <-. by exists infos, byId.
Qed.

(** Where an entry of the catalog comes from. *)
Lemma init_entry (md : cargo_metadata) (ws : WorkspaceMetadata)
    (id : value) (info : gmap string value) :
  init md = Ok ws →
  pkgInfoById ws !! id = Some info →
  (∃ key, id = VStr key ∧ (key, info) ∈ EXTRA_PACKAGE_METADATA ∧ info !! "id" = None)
  ∨ ∃ orig name path,
      orig ∈ packages md ∧ orig !! "name" = Some name ∧ hash_key name = Ok tt
      ∧ ¬ excluded_name name ∧ fixed_up name orig = Ok info
      ∧ info !! "id" = Some id
      ∧ info !! "manifest_path" = Some path
      ∧ pkgInfoByManifestPath ws !! path = Some info.
Proof.
  intros (infos & byId & H1 & H2 & _)%init_parts Hid.
  apply (load_packages_indexed _ _ [] _ _ _ _ indexed_empty) in H1 as [HI _].
  apply load_extras_spec in H2 as (_ & _ & Hspec).
  apply Hspec in Hid as [Hid|(key & -> & Hin)].
  - right. exact (HI id info Hid).
  - left. exists key. split_and!; [done..|].
    destruct (proj1 (Forall_forall _ _) extra_packages_named (key, info) Hin)
      as (? & _ & _ & _ & ?). done.
Qed.

(** The name of a record of the catalog can be hashed, and is not excluded. *)
Lemma init_entry_name (md : cargo_metadata) (ws : WorkspaceMetadata)
    (id : value) (info : gmap string value) :
  init md = Ok ws →
  pkgInfoById ws !! id = Some info →
  ∃ name, info !! "name" = Some name ∧ hash_key name = Ok tt ∧ ¬ excluded_name name.
Proof.
  intros Hinit Hid.
  destruct (init_entry md ws id info Hinit Hid)
    as [(key & -> & Hin & _)|(orig & name & path & _ & Hname & Hhash & Hex & Hfix & _)].
  - destruct (proj1 (Forall_forall _ _) extra_packages_named (key, info) Hin)
      as (name & ? & ? & _). exists (VStr name). split_and!; [done..|].
    by intros (s & [= <-] & Hs).
  - exists name. split_and!; [|done..]. by rewrite (fixed_up_name _ _ _ Hfix).
Qed.

Lemma init_extras (md : cargo_metadata) (ws : WorkspaceMetadata)
    (key : string) (info : gmap string value) :
  init md = Ok ws →
  (key, info) ∈ EXTRA_PACKAGE_METADATA →
  pkgInfoById ws !! VStr key = Some info.
Proof.
  intros (infos & byId & _ & H2 & _)%init_parts Hin.
  apply load_extras_spec in H2 as (_ & _ & Hspec). apply Hspec. right. by exists key.
Qed.

Lemma has_package_spec (self : WorkspaceMetadata) (id : string) :
  has_package self id = true ↔ ∃ info, pkgInfoById self !! VStr id = Some info.
Proof. unfold has_package. by rewrite bool_decide_eq_true. Qed.

(** An entry of the table of fake packages, in a catalog. *)
Lemma init_extra_external (md : cargo_metadata) (ws : WorkspaceMetadata)
    (key : string) (info : gmap string value) :
  init md = Ok ws →
  (key, info) ∈ EXTRA_PACKAGE_METADATA →
  has_package ws key = true
  ∧ get_package_by_id ws key = Ok info
  ∧ is_external_dependency ws key = Ok true.
Proof.
  intros Hinit Hin. pose proof (init_extras md ws key info Hinit Hin) as Hkey.
  destruct (proj1 (Forall_forall _ _) extra_packages_named (key, info) Hin)
    as (name & _ & _ & Hsource & _). cbn [snd] in Hsource.
  split_and!.
  - apply has_package_spec. by exists info.
  - unfold get_package_by_id. by rewrite Hkey.
  - unfold is_external_dependency, get_package_by_id. rewrite Hkey.
    cbn [mbind result_bind]. by rewrite Hsource.
Qed.

(** X8: in a catalog that the constructor returns, the record found under a
    manifest path carries that path and an identifier, and is filed in the
    index by identifier under the value of this identifier; when this value
    is a string, the lookup by it gives the same record and its manifest
    path. *)
Theorem manifest_index_agrees_with_id_index (md : cargo_metadata) (ws : WorkspaceMetadata)
    (path : string) (info : gmap string value) :
  init md = Ok ws →
  get_package_by_manifest_path ws path = Ok info →
  info !! "manifest_path" = Some (VStr path)
  ∧ ∃ id, info !! "id" = Some id
          ∧ pkgInfoById ws !! id = Some info
          ∧ ∀ s, id = VStr s →
                 get_package_by_id ws s = Ok info
                 ∧ get_manifest_path ws s = Ok (VStr path).
Proof.
  intros (infos & byId & H1 & H2 & _)%init_parts Hget.
  unfold get_package_by_manifest_path in Hget.
  destruct (pkgInfoByManifestPath ws !! VStr path) as [x|] eqn:Hpath; [|done].
  injection Hget as ->.
  apply (load_packages_indexed _ _ [] _ _ _ _ indexed_empty) in H1 as [_ HP].
  destruct (HP (VStr path) info Hpath) as (Hp & id & Hid & Hby).
  split; [done|]. exists id. split; [done|].
  assert (pkgInfoById ws !! id = Some info) as Hws by (by eapply load_extras_mono).
  split; [done|]. intros s ->.
  unfold get_manifest_path, get_package_by_id. rewrite Hws. simpl.
  unfold getitem. by rewrite Hp.
Qed.

(** X9: a record of the catalog that is not one of the fake packages is the
    corrected record of a package of the input, is filed under its own
    identifier, and the index by manifest path holds it under its manifest
    path, so that the lookup by this path gives it back. *)
Theorem manifest_path_round_trip (md : cargo_metadata) (ws : WorkspaceMetadata)
    (id : string) (info : gmap string value) :
  init md = Ok ws →
  get_package_by_id ws id = Ok info →
  id ∉ EXTRA_PACKAGE_METADATA.*1 →
  info !! "id" = Some (VStr id)
  ∧ (∃ orig name, orig ∈ packages md ∧ orig !! "name" = Some name
                  ∧ fixed_up name orig = Ok info)
  ∧ ∃ path, get_manifest_path ws id = Ok path
            ∧ pkgInfoByManifestPath ws !! path = Some info
            ∧ ∀ s, path = VStr s → get_package_by_manifest_path ws s = Ok info.
Proof.
  intros Hinit Hget Hextra. unfold get_package_by_id in Hget.
  destruct (pkgInfoById ws !! VStr id) as [x|] eqn:Hid; [|done]. injection Hget as ->.
  destruct (init_entry md ws (VStr id) info Hinit Hid)
    as [(key & [= <-] & Hin & _)
       |(orig & name & path & Hin & Hname & _ & _ & Hfix & Hi & Hp & Hby)].
  - exfalso. apply Hextra. apply list_elem_of_fmap. by exists (id, info).
  - split; [done|]. split; [by exists orig, name|]. exists path.
    unfold get_manifest_path, get_package_by_id, get_package_by_manifest_path.
    rewrite Hid. simpl. unfold getitem. rewrite Hp. split_and!; [done..|].
    intros s ->. by rewrite Hby.
Qed.

(** X10: no record of the catalog bears the name of an excluded package:
    every record, under whatever key it is filed, has a name, and this name
    is none of the excluded ones. *)
Theorem excluded_packages_never_catalogued (md : cargo_metadata) (ws : WorkspaceMetadata)
    (key : value) (info : gmap string value) :
  init md = Ok ws →
  pkgInfoById ws !! key = Some info →
  ∃ name, info !! "name" = Some name
          ∧ ∀ s, name = VStr s → s ∉ EXCLUDED_PACKAGES.
Proof.
  intros Hinit Hid.
  destruct (init_entry_name md ws key info Hinit Hid) as (name & Hname & _ & Hex).
  exists name. split; [done|]. intros s -> Hs. apply Hex. by exists s.
Qed.

(** *** Identifiers and manifest paths are used once *)

Lemma load_packages_fresh (infos infos' : list (gmap string value))
    (byId byPath byId' byPath' : gmap value (gmap string value))
    (info : gmap string value) (name : value) :
  load_packages infos byId byPath = Ok (infos', byId', byPath') →
  info ∈ infos →
  info !! "name" = Some name →
  ¬ excluded_name name →
  ∃ id path, info !! "id" = Some id ∧ byId !! id = None
             ∧ info !! "manifest_path" = Some path ∧ byPath !! path = None.
Proof.
  revert infos' byId byPath. induction infos as [|i infos IH];
    intros infos' byId byPath H Hin Hname Hex; simpl in H.
  - by apply elem_of_nil in Hin.
  - destruct (load_package i byId byPath) as [[[info1 byId1] byPath1]|] eqn:H1;
      simpl in H; [|done].
    destruct (load_packages infos byId1 byPath1) as [[[rest byId2] byPath2]|] eqn:H2;
      simpl in H; [|done].
    injection H as <- <- <-.
    apply load_package_cases in H1
      as (n & Hn & _
          & [(Hnex & -> & -> & ->)
            |(Hnex & Hfix & id & path & Hid & Hfid & -> & Hpath & Hfpath & ->)]).
    + apply elem_of_cons in Hin as [->|Hin]; [congruence|]. by eapply IH.
    + apply elem_of_cons in Hin as [->|Hin].
      * exists id, path. rewrite <- (fixed_up_id _ _ _ Hfix).
        by rewrite <- (fixed_up_manifest_path _ _ _ Hfix).
      * destruct (IH _ _ _ H2 Hin Hname Hex) as (id' & path' & ? & Hf1 & ? & Hf2).
        exists id', path'. split_and!; [done| |done|].
        -- destruct (decide (id' = id)) as [->|Hne];
             [by rewrite lookup_insert_eq in Hf1|by rewrite lookup_insert_ne in Hf1].
        -- destruct (decide (path' = path)) as [->|Hne];
             [by rewrite lookup_insert_eq in Hf2|by rewrite lookup_insert_ne in Hf2].
Qed.

Lemma load_packages_app (pre post : list (gmap string value))
    (byId byPath : gmap value (gmap string value)) :
  load_packages (pre ++ post) byId byPath
  = ('(pre', byId1, byPath1) ← load_packages pre byId byPath;
     '(post', byId2, byPath2) ← load_packages post byId1 byPath1;
     Ok (pre' ++ post', byId2, byPath2)).
Proof.
  revert byId byPath. induction pre as [|i pre IH]; intros byId byPath; simpl.
  - by destruct (load_packages post byId byPath) as [[[? ?] ?]|].
  - destruct (load_package i byId byPath) as [[[info1 byId1] byPath1]|]; simpl; [|done].
    rewrite IH.
    destruct (load_packages pre byId1 byPath1) as [[[pre' byId2] byPath2]|]; simpl;
      [|done].
    by destruct (load_packages post byId2 byPath2) as [[[? ?] ?]|].
Qed.

Lemma not_excluded_str (name : string) :
  name ∉ EXCLUDED_PACKAGES → ¬ excluded_name (VStr name).
Proof. intros Hex (s & [= <-] & Hs). by apply Hex. Qed.

(** X11: two packages of the input that are not excluded and have the same
    identifier, or the same manifest path, leave no catalog. *)
Theorem duplicate_packages_rejected (md : cargo_metadata)
    (pre rest : list (gmap string value)) (a b : gmap string value)
    (name_a name_b : string) :
  packages md = pre ++ a :: rest →
  b ∈ rest →
  a !! "name" = Some (VStr name_a) → name_a ∉ EXCLUDED_PACKAGES →
  b !! "name" = Some (VStr name_b) → name_b ∉ EXCLUDED_PACKAGES →
  a !! "id" = b !! "id" ∨ a !! "manifest_path" = b !! "manifest_path" →
  is_ok (init md) = false.
Proof.
  intros Hpk Hb Ha Hexa Hnb Hexb Hsame.
  destruct (init md) as [ws|] eqn:Hinit; [exfalso|done].
  apply init_parts in Hinit as (infos & byId & H1 & _).
  rewrite Hpk, load_packages_app in H1.
  apply bind_Ok in H1 as ([[pre' byId1] byPath1] & _ & H1).
  apply bind_Ok in H1 as ([[post' byId2] byPath2] & H1 & _).
  simpl in H1.
  destruct (load_package a byId1 byPath1) as [[[a' byId3] byPath3]|] eqn:Hload;
    simpl in H1; [|done].
  destruct (load_packages rest byId3 byPath3) as [[[rest' byId4] byPath4]|] eqn:Hrest;
    simpl in H1; [|done].
  apply load_package_cases in Hload
    as (n & Hn & _
        & [(Hnex & _)
          |(_ & Hfix & id & path & Hid & _ & -> & Hpath & _ & ->)]).
  { rewrite Ha in Hn. injection Hn as <-. by apply (not_excluded_str name_a). }
  destruct (load_packages_fresh _ _ _ _ _ _ _ _ Hrest Hb Hnb (not_excluded_str _ Hexb))
    as (id' & path' & Hid' & Hf1 & Hpath' & Hf2).
  rewrite (fixed_up_id _ _ _ Hfix) in Hid.
  rewrite (fixed_up_manifest_path _ _ _ Hfix) in Hpath.
  destruct Hsame as [Hs|Hs].
  - rewrite Hs, Hid' in Hid. injection Hid as ->. by rewrite lookup_insert_eq in Hf1.
  - rewrite Hs, Hpath' in Hpath. injection Hpath as ->.
    by rewrite lookup_insert_eq in Hf2.
Qed.

(** *** The fake packages *)

(** X12: every entry of [EXTRA_PACKAGE_METADATA] is in every catalog under
    its key, with the record of the table, and counts as an external
    dependency. *)
Theorem extra_packages_always_catalogued (md : cargo_metadata) (ws : WorkspaceMetadata)
    (key : string) (info : gmap string value) :
  init md = Ok ws →
  (key, info) ∈ EXTRA_PACKAGE_METADATA →
  has_package ws key = true
  ∧ get_package_by_id ws key = Ok info
  ∧ is_external_dependency ws key = Ok true.
Proof.
  apply init_extra_external.
Qed.

(** X13: when every resolved dependency is in a catalog that the constructor
    returned, the lookup of the extra dependencies returns, and each of them is
    in the catalog. *)
Theorem extra_dependencies_catalogued (md : cargo_metadata) (ws : WorkspaceMetadata)
    (name : string) (targets : list string) (deps : gset string) :
  init md = Ok ws →
  (∀ dep, dep ∈ deps → has_package ws dep = true) →
  ∃ extras,
    get_extra_dependencies_not_managed_by_cargo ws name targets deps = Ok extras
    ∧ ∀ x, x ∈ extras → has_package ws x = true ∧ is_external_dependency ws x = Ok true.
Proof.
  intros Hinit Hdeps. unfold get_extra_dependencies_not_managed_by_cargo.
  destruct (add_package_extras_spec ws (elements deps)
              (foldl add_target_extras ∅ targets)) as (extras & Hrun & Hspec).
  { intros dep Hdep%elem_of_elements. specialize (Hdeps dep Hdep).
    apply has_package_spec in Hdeps as [info Hinfo].
    destruct (init_entry_name md ws (VStr dep) info Hinit Hinfo) as (n & Hn & Hhash & _).
    by exists info, n. }
  exists extras. split; [done|]. intros x Hx.
  assert (x ∈ EXTRA_PACKAGE_METADATA.*1) as Hkey.
  { apply Hspec in Hx as [Hx|(dep & info & n & more & _ & _ & _ & Hmore & Hx)].
    - apply target_extras_spec in Hx as [Hx|[[[->| ->] _]|[-> _]]];
        [by apply not_elem_of_empty in Hx|by apply (bool_decide_unpack _)..].
    - assert (∃ more, assoc n PACKAGES_WITH_EXTRA_DEPENDENCIES = Some more ∧ x ∈ more)
        as Hex by (by exists more).
      apply extra_packages_of in Hex
        as [[_ [->| ->]]|[[_ ->]|[[_ ->]|[_ ->]]]]; by apply (bool_decide_unpack _). }
  apply list_elem_of_fmap in Hkey as ([key info] & -> & Hin). cbn [fst].
  destruct (init_extra_external md ws key info Hinit Hin) as (? & _ & ?). done.
Qed.

(** *** Workspace members *)

Lemma load_members_spec (ids : list string) (byId : gmap value (gmap string value))
    (members members' : gmap value string) :
  load_members ids byId members = Ok members' →
  (∀ id, id ∈ ids → ∃ info name, byId !! VStr id = Some info
                                  ∧ info !! "name" = Some name
                                  ∧ members !! name = None)
  ∧ ∀ name id, members' !! name = Some id ↔
               members !! name = Some id
               ∨ (id ∈ ids ∧ ∃ info, byId !! VStr id = Some info
                                      ∧ info !! "name" = Some name).
Proof.
  revert members. induction ids as [|i ids IH]; intros members H; simpl in H.
  - injection H as <-. split.
    + intros id Hid. by apply elem_of_nil in Hid.
    + intros name id. split; [by left|]. intros [?|[Hin _]]; [done|].
      by apply elem_of_nil in Hin.
  - destruct (byId !! VStr i) as [info|] eqn:Hi; [|done].
    destruct (getitem info "name") as [n|] eqn:Hn; simpl in H; [|done].
    apply getitem_Ok in Hn.
    destruct (index_new n i members) as [members1|] eqn:H1; simpl in H; [|done].
    apply index_new_Ok in H1 as [Hfresh ->].
    destruct (IH _ H) as [Hids Hspec]. split.
    + intros id [->|Hid]%elem_of_cons.
      * by exists info, n.
      * destruct (Hids id Hid) as (x & m & Hx & Hm & Hnone).
        exists x, m. split_and!; [done..|].
        destruct (decide (m = n)) as [->|Hne];
          [by rewrite lookup_insert_eq in Hnone|by rewrite lookup_insert_ne in Hnone].
    + intros name id. rewrite Hspec. split.
      * intros [Hk|[Hin Hrest]]; [|right; split; [by right|done]].
        destruct (decide (name = n)) as [->|Hne].
        -- rewrite lookup_insert_eq in Hk. injection Hk as <-. right.
           split; [left|by exists info].
        -- rewrite lookup_insert_ne in Hk by done. by left.
      * intros [Hk|[[->|Hin]%elem_of_cons (x & Hx & Hm)]].
        -- left. rewrite lookup_insert_ne; [done|]. congruence.
        -- left. rewrite Hi in Hx. injection Hx as <-. rewrite Hn in Hm.
           injection Hm as <-. by rewrite lookup_insert_eq.
        -- right. split; [done|]. by exists x.
Qed.

(** X14: the workspace members of a catalog, by name: a name leads to an
    identifier exactly when the identifier is a workspace member whose record
    in the catalog has this name; every workspace member is in the catalog. *)
Theorem workspace_members_by_name (md : cargo_metadata) (ws : WorkspaceMetadata) :
  init md = Ok ws →
  (∀ id, id ∈ workspace_members md → has_package ws id = true)
  ∧ ∀ name id,
      workspaceMembersByName ws !! name = Some id ↔
      id ∈ workspace_members md
      ∧ ∃ info, get_package_by_id ws id = Ok info ∧ info !! "name" = Some name.
Proof.
  intros (infos & byId & _ & _ & H3 & _)%init_parts.
  apply load_members_spec in H3 as [Hids Hspec]. split.
  - intros id Hid. destruct (Hids id Hid) as (info & ? & Hinfo & _).
    apply has_package_spec. by eexists.
  - intros name id. rewrite Hspec, lookup_empty. unfold get_package_by_id. split.
    + intros [?|[Hin (info & Hinfo & Hname)]]; [done|]. split; [done|].
      exists info. by rewrite Hinfo.
    + intros [Hin (info & Hinfo & Hname)]. right. split; [done|].
      destruct (pkgInfoById ws !! VStr id) as [x|]; [|done]. injection Hinfo as ->.
      by exists info.
Qed.

(** *** External dependencies *)

Lemma common_prefix_loop_Ok (s1 s2 : string) :
  String.ltb s2 s1 = false →
  common_prefix_loop s1 s2 = Ok (longest_common_prefix s1 s2).
Proof.
  revert s2. induction s1 as [|c s1 IH]; intros s2 H; [by destruct s2|].
  destruct s2 as [|d s2]; [done|]. simpl.
  destruct (Ascii.eqb_spec c d) as [->|Hne]; [|done].
  rewrite IH; [done|]. unfold String.ltb in *. simpl in H.
  unfold Ascii.compare in H. by rewrite N.compare_refl in H.
Qed.

Lemma longest_common_prefix_comm (a b : string) :
  longest_common_prefix a b = longest_common_prefix b a.
Proof.
  revert b. induction a as [|c a IH]; intros [|d b]; simpl; try done.
  rewrite (Ascii.eqb_sym d c). destruct (Ascii.eqb_spec c d) as [->|]; [|done].
  by rewrite IH.
Qed.

Lemma longest_common_prefix_startswith (s p : string) :
  String.eqb (longest_common_prefix s p) p = Py.startswith s p.
Proof.
  revert s. induction p as [|d p IH]; intros [|c s]; simpl; try done.
  rewrite (Ascii.eqb_sym d c).
  destruct (Ascii.eqb_spec c d) as [->|Hne]; simpl; [|done].
  rewrite Ascii.eqb_refl. apply IH.
Qed.

Lemma ltb_antisym (a b : string) : String.ltb a b = true → String.ltb b a = false.
Proof.
  unfold String.ltb. rewrite (String.compare_antisym a b).
  by destruct (String.compare b a).
Qed.

(** [os.path.commonprefix] of two strings never raises and gives their longest
    common prefix. *)
Lemma commonprefix_Ok (a b : string) :
  commonprefix a b = Ok (longest_common_prefix a b).
Proof.
  unfold commonprefix.
  destruct (String.ltb b a) eqn:Hba.
  - rewrite (ltb_antisym _ _ Hba).
    rewrite common_prefix_loop_Ok; [|by apply ltb_antisym].
    by rewrite longest_common_prefix_comm.
  - destruct (String.ltb a b) eqn:Hab.
    + by apply common_prefix_loop_Ok.
    + destruct strict_total_string as (Hirr & _ & Heq).
      rewrite <- (Heq a b Hab Hba). apply common_prefix_loop_Ok, Hirr.
Qed.

(** X15: a package of the catalog counts as internal exactly when its source
    is [None] and its manifest path starts with the workspace root as a
    string; with another source, or none, it is external, and the manifest
    path is not read. *)
Theorem is_external_dependency_spec (self : WorkspaceMetadata) (id : string)
    (pkgInfo : gmap string value) :
  pkgInfoById self !! VStr id = Some pkgInfo →
  (pkgInfo !! "source" ≠ Some VNone → is_external_dependency self id = Ok true)
  ∧ (pkgInfo !! "source" = Some VNone →
     ∀ manifest, pkgInfo !! "manifest_path" = Some (VStr manifest) →
       is_external_dependency self id
       = Ok (negb (Py.startswith manifest (workspace_root (metadata self))))
       ∧ (is_external_dependency self id = Ok false ↔
          ∃ rest, manifest = workspace_root (metadata self) +:+ rest)).
Proof.
  intros Hid. unfold is_external_dependency, get_package_by_id. rewrite Hid. simpl.
  split.
  - intros Hsource. by destruct (pkgInfo !! "source") as [[| |]|].
  - intros -> manifest Hm. apply getstr_Ok in Hm. rewrite Hm. simpl.
    rewrite commonprefix_Ok. simpl. rewrite longest_common_prefix_startswith.
    rewrite <- startswith_spec.
    destruct (Py.startswith manifest (workspace_root (metadata self))); simpl.
    + split; [done|]. by split.
    + split; [done|]. split; [done|]. intros [=].
Qed.


(** *** The properties on the sample workspaces *)

Lemma logins_catalog_built : init logins_metadata = Ok logins_catalog.
Proof. apply (bool_decide_unpack _). vm_compute. exact I. Qed.

Lemma scratch_catalog_built : init scratch_metadata = Ok scratch_catalog.
Proof. apply (bool_decide_unpack _). vm_compute. exact I. Qed.

Lemma manifest_index_agrees_with_id_index_witness :
  logins_info !! "manifest_path"
  = Some (VStr "/home/user/src/components/logins/Cargo.toml")
  ∧ ∃ id, logins_info !! "id" = Some id
          ∧ pkgInfoById logins_catalog !! id = Some logins_info
          ∧ ∀ s, id = VStr s →
                 get_package_by_id logins_catalog s = Ok logins_info
                 ∧ get_manifest_path logins_catalog s
                   = Ok (VStr "/home/user/src/components/logins/Cargo.toml").
Proof.
  apply (manifest_index_agrees_with_id_index logins_metadata logins_catalog).
  - exact logins_catalog_built.
  - reflexivity.
Defined.

Lemma manifest_path_round_trip_witness :
  scratch_info !! "id" = Some (VStr scratch_id)
  ∧ (∃ orig name, orig ∈ packages scratch_metadata ∧ orig !! "name" = Some name
                  ∧ fixed_up name orig = Ok scratch_info)
  ∧ ∃ path, get_manifest_path scratch_catalog scratch_id = Ok path
            ∧ pkgInfoByManifestPath scratch_catalog !! path = Some scratch_info
            ∧ ∀ s, path = VStr s →
                   get_package_by_manifest_path scratch_catalog s = Ok scratch_info.
Proof.
  apply (manifest_path_round_trip scratch_metadata scratch_catalog).
  - exact scratch_catalog_built.
  - reflexivity.
  - apply (bool_decide_unpack _). vm_compute. exact I.
Defined.

Lemma excluded_packages_never_catalogued_witness :
  ∃ name, scratch_info !! "name" = Some name
          ∧ ∀ s, name = VStr s → s ∉ EXCLUDED_PACKAGES.
Proof.
  apply (excluded_packages_never_catalogued scratch_metadata scratch_catalog
           (VStr scratch_id)).
  - exact scratch_catalog_built.
  - reflexivity.
Defined.

Lemma duplicate_packages_rejected_witness :
  is_ok (init (workspace_of [rusqlite_info; logins_info; rusqlite_info])) = false.
Proof.
  apply (duplicate_packages_rejected
           (workspace_of [rusqlite_info; logins_info; rusqlite_info])
           [] [logins_info; rusqlite_info] rusqlite_info rusqlite_info
           "rusqlite" "rusqlite").
  - reflexivity.
  - right. left.
  - reflexivity.
  - apply (bool_decide_unpack _). vm_compute. exact I.
  - reflexivity.
  - apply (bool_decide_unpack _). vm_compute. exact I.
  - left. reflexivity.
Defined.

Lemma extra_packages_always_catalogued_witness :
  ∃ info,
    has_package logins_catalog "ext-sqlite" = true
    ∧ get_package_by_id logins_catalog "ext-sqlite" = Ok info
    ∧ is_external_dependency logins_catalog "ext-sqlite" = Ok true.
Proof.
  assert (is_Some (assoc "ext-sqlite" EXTRA_PACKAGE_METADATA)) as [info E]
    by (by eexists).
  exists info.
  apply (extra_packages_always_catalogued logins_metadata logins_catalog).
  - exact logins_catalog_built.
  - apply assoc_elem_of. exact E.
Defined.

Lemma extra_dependencies_catalogued_witness :
  ∃ extras,
    get_extra_dependencies_not_managed_by_cargo logins_catalog "megazord"
      [ "aarch64-linux-android" ] {[ rusqlite_id ]} = Ok extras
    ∧ ∀ x, x ∈ extras →
           has_package logins_catalog x = true
           ∧ is_external_dependency logins_catalog x = Ok true.
Proof.
  apply (extra_dependencies_catalogued logins_metadata logins_catalog).
  - exact logins_catalog_built.
  - intros dep Hdep. apply elem_of_singleton in Hdep. rewrite Hdep.
    reflexivity.
Defined.

Lemma workspace_members_by_name_witness :
  (∀ id, id ∈ workspace_members logins_metadata → has_package logins_catalog id = true)
  ∧ ∀ name id,
      workspaceMembersByName logins_catalog !! name = Some id ↔
      id ∈ workspace_members logins_metadata
      ∧ ∃ info, get_package_by_id logins_catalog id = Ok info
                ∧ info !! "name" = Some name.
Proof.
  apply (workspace_members_by_name logins_metadata logins_catalog).
  exact logins_catalog_built.
Defined.

Lemma is_external_dependency_spec_witness :
  is_external_dependency logins_catalog logins_id = Ok false.
Proof.
  destruct (is_external_dependency_spec logins_catalog logins_id logins_info)
    as [_ Hnone].
  - reflexivity.
  - destruct (Hnone eq_refl "/home/user/src/components/logins/Cargo.toml" eq_refl)
      as [Hrun _].
    rewrite Hrun. reflexivity.
Defined.


(** ** Printing the summary *)

(** *** Replacing single characters *)

Lemma str_replace_char (s : string) (old : ascii) (new : string) :
  str_replace s (String old EmptyString) new = substitute (replace_char old new) s.
Proof.
  unfold str_replace. induction s as [|c s IH]; [done|].
  cbn [replace_from substitute]. rewrite startswith_cons. unfold replace_char at 1.
  destruct (Ascii.eqb old c).
  - cbn [Py.startswith String.length Nat.sub]. by rewrite IH.
  - by rewrite IH.
Qed.

Lemma contains_char_cons (c d : ascii) (s : string) :
  Py.contains (String d s) (String c EmptyString)
  = Ascii.eqb c d || Py.contains s (String c EmptyString).
Proof.
  cbn [Py.contains]. rewrite startswith_cons. by destruct (Ascii.eqb c d).
Qed.

Lemma contains_char_nil (c : ascii) : Py.contains "" (String c EmptyString) = false.
Proof. reflexivity. Qed.

Lemma contains_char_app (c : ascii) (a b : string) :
  Py.contains (a +:+ b) (String c EmptyString)
  = Py.contains a (String c EmptyString) || Py.contains b (String c EmptyString).
Proof.
  induction a as [|d a IH]; [done|].
  rewrite append_cons, !contains_char_cons, IH. by rewrite orb_assoc.
Qed.

(** A substitution that writes no [c] leaves none. *)
Lemma substitute_removes (f : ascii → string) (c : ascii) (s : string) :
  (∀ d, Py.contains (f d) (String c EmptyString) = false) →
  Py.contains (substitute f s) (String c EmptyString) = false.
Proof.
  intros Hf. induction s as [|d s IH]; [done|].
  cbn [substitute]. by rewrite contains_char_app, Hf, IH.
Qed.

(** A substitution that writes no [c] for the other characters brings none in. *)
Lemma substitute_keeps_out (f : ascii → string) (c : ascii) (s : string) :
  (∀ d, d ≠ c → Py.contains (f d) (String c EmptyString) = false) →
  Py.contains s (String c EmptyString) = false →
  Py.contains (substitute f s) (String c EmptyString) = false.
Proof.
  intros Hf. induction s as [|d s IH]; [done|].
  rewrite contains_char_cons. intros [Hd Hs]%orb_false_iff.
  cbn [substitute]. rewrite contains_char_app, (IH Hs), orb_false_r.
  apply Hf. intros ->. by rewrite Ascii.eqb_refl in Hd.
Qed.

Lemma replace_char_removes (old : ascii) (new : string) (d : ascii) :
  Py.contains new (String old EmptyString) = false →
  Py.contains (replace_char old new d) (String old EmptyString) = false.
Proof.
  intros Hnew. unfold replace_char. destruct (Ascii.eqb old d) eqn:E; [done|].
  by rewrite contains_char_cons, E.
Qed.

Lemma replace_char_keeps_out (old : ascii) (new : string) (c d : ascii) :
  Py.contains new (String c EmptyString) = false →
  d ≠ c →
  Py.contains (replace_char old new d) (String c EmptyString) = false.
Proof.
  intros Hnew Hd. unfold replace_char. destruct (Ascii.eqb old d); [done|].
  rewrite contains_char_cons, orb_false_r. apply Ascii.eqb_neq. congruence.
Qed.

Lemma lower_app (a b : string) : Py.lower (a +:+ b) = Py.lower a +:+ Py.lower b.
Proof. induction a as [|c a IH]; [done|]. rewrite append_cons. simpl. by rewrite IH. Qed.

Lemma lower_char_idemp (c : ascii) : Py.lower_char (Py.lower_char c) = Py.lower_char c.
Proof. by destruct c as [[] [] [] [] [] [] [] []]. Qed.

Lemma lower_idemp (s : string) : Py.lower (Py.lower s) = Py.lower s.
Proof. induction s as [|c s IH]; [done|]. simpl. by rewrite lower_char_idemp, IH. Qed.

(** Replacing a character that is not a letter, by text in lower case, goes
    through [lower]. *)
Lemma lower_substitute (old : ascii) (new : string) (s : string) :
  (∀ d, Ascii.eqb old (Py.lower_char d) = Ascii.eqb old d) →
  Py.lower new = new →
  Py.lower (substitute (replace_char old new) s)
  = substitute (replace_char old new) (Py.lower s).
Proof.
  intros Hold Hnew. induction s as [|d s IH]; [done|].
  cbn [substitute Py.lower]. rewrite lower_app, IH. f_equal.
  unfold replace_char. rewrite Hold. by destruct (Ascii.eqb old d).
Qed.

Lemma lower_char_keeps (old : ascii) :
  old ∈ [" "; "."; ","; ":"]%char →
  ∀ d, Ascii.eqb old (Py.lower_char d) = Ascii.eqb old d.
Proof.
  rewrite !elem_of_cons, elem_of_nil.
  intros [->|[->|[->|[->|[]]]]] d; by destruct d as [[] [] [] [] [] [] [] []].
Qed.

Lemma anchor_eq (header : string) :
  anchor header
  = substitute (replace_char ":" "")
      (substitute (replace_char "," "")
         (substitute (replace_char "." "")
            (substitute (replace_char " " "-") (Py.lower header)))).
Proof. unfold anchor. by rewrite !str_replace_char. Qed.

(** X19: the anchor of a title has no space, full stop, comma or colon, and
    no upper-case letter: it is its own lower-case form. *)
Theorem anchor_has_no_punctuation (header : string) :
  Py.contains (anchor header) " " = false
  ∧ Py.contains (anchor header) "." = false
  ∧ Py.contains (anchor header) "," = false
  ∧ Py.contains (anchor header) ":" = false
  ∧ Py.lower (anchor header) = anchor header.
Proof.
  rewrite anchor_eq. split_and!.
  - do 3 (apply substitute_keeps_out;
          [intros d Hd; by apply replace_char_keeps_out|]).
    apply substitute_removes. intros d. by apply replace_char_removes.
  - do 2 (apply substitute_keeps_out;
          [intros d Hd; by apply replace_char_keeps_out|]).
    apply substitute_removes. intros d. by apply replace_char_removes.
  - apply substitute_keeps_out; [intros d Hd; by apply replace_char_keeps_out|].
    apply substitute_removes. intros d. by apply replace_char_removes.
  - apply substitute_removes. intros d. by apply replace_char_removes.
  - rewrite !lower_substitute, lower_idemp; try done;
      apply lower_char_keeps; set_solver.
Qed.

(** *** The sections and their fences *)

Lemma print_sections_complete (sections : list group) (out : list string) :
  Forall (λ section, Py.contains (group_license_text section) "```" = false) sections →
  print_sections sections out = (out ++ concat (section_block <$> sections), Ok tt).
Proof.
  intros H. revert out. induction H as [|section rest Hfree _ IH]; intros out.
  - simpl. by rewrite app_nil_r.
  - cbn [print_sections]. rewrite Hfree, IH.
    cbn [fmap list_fmap concat]. unfold section_block, section_opening.
    by rewrite <- !app_assoc.
Qed.

Lemma print_sections_stops (pre post : list group) (section : group) (out : list string) :
  Forall (λ section, Py.contains (group_license_text section) "```" = false) pre →
  Py.contains (group_license_text section) "```" = true →
  print_sections (pre ++ section :: post) out
  = (out ++ concat (section_block <$> pre) ++ section_opening section,
     Raise (AssertionError "")).
Proof.
  intros H Hfence. revert out. induction H as [|s rest Hfree _ IH]; intros out.
  - cbn [app print_sections]. by rewrite Hfence.
  - cbn [app print_sections]. rewrite Hfree, IH.
    cbn [fmap list_fmap concat]. unfold section_block at 2, section_opening at 3.
    by rewrite <- !app_assoc.
Qed.

(** X17: when a license text contains a fence, printing stops with an
    [AssertionError] at the first such section: the preamble, the table of
    contents of all sections, the earlier sections and the lines of the
    section up to its opening fence have been printed by then. *)
Theorem markdown_stops_at_fence (deps : list license_info)
    (pre post : list group) (section : group) :
  group_dependencies_for_printing deps = Ok (pre ++ section :: post) →
  (∀ s, s ∈ pre → Py.contains (group_license_text s) "```" = false) →
  Py.contains (group_license_text section) "```" = true →
  print_dependency_summary_markdown deps
  = (markdown_preamble
     ++ (contents_line <$> pre ++ section :: post)
     ++ [ "-------------" ]
     ++ concat (section_block <$> pre)
     ++ section_opening section,
     Raise (AssertionError "")).
Proof.
  intros Hgroups Hpre Hfence. unfold print_dependency_summary_markdown.
  rewrite Hgroups, print_sections_stops; [|by apply Forall_forall|done].
  unfold markdown_preamble. by rewrite <- !app_assoc.
Qed.

(** X18: printing returns exactly when grouping returns and no license text
    contains a fence; the output is then the preamble, one line of contents
    for each section, a rule, and the sections in the order of the grouping,
    each license text between two fences.  When grouping raises, the
    preamble has been printed. *)
Theorem markdown_prints_every_section (deps : list license_info) :
  (∀ sections,
     group_dependencies_for_printing deps = Ok sections →
     (∀ s, s ∈ sections → Py.contains (group_license_text s) "```" = false) →
     print_dependency_summary_markdown deps
     = (markdown_preamble ++ (contents_line <$> sections) ++ [ "-------------" ]
        ++ concat (section_block <$> sections),
        Ok tt))
  ∧ (∀ e, group_dependencies_for_printing deps = Raise e →
          print_dependency_summary_markdown deps = (markdown_preamble, Raise e))
  ∧ (is_ok (print_dependency_summary_markdown deps).2 = true →
     ∃ sections,
       group_dependencies_for_printing deps = Ok sections
       ∧ ∀ s, s ∈ sections → Py.contains (group_license_text s) "```" = false).
Proof.
  split_and!.
  - intros sections Hgroups Hfree. unfold print_dependency_summary_markdown.
    rewrite Hgroups, print_sections_complete; [|by apply Forall_forall].
    unfold markdown_preamble. by rewrite <- !app_assoc.
  - intros e Hgroups. unfold print_dependency_summary_markdown. by rewrite Hgroups.
  - unfold print_dependency_summary_markdown.
    destruct (group_dependencies_for_printing deps) as [sections|e]; [|done].
    intros Hok. exists sections. split; [done|].
    apply Forall_forall.
    destruct (decide (Forall (λ s, Py.contains (group_license_text s) "```" = false)
                        sections)) as [|Hnot]; [done|exfalso].
    apply not_Forall_Exists in Hnot; [|apply _].
    revert Hok. generalize (([ "# Licenses for Third-Party Dependencies";
      "";
      "Binary distributions of this software incorporate code from a number of third-party dependencies.";
      "These dependencies are available under a variety of free and open source licenses,";
      "the details of which are reproduced below.";
      "" ] ++ (contents_line <$> sections)) ++ [ "-------------" ]).
    induction Hnot as [s rest Hs|s rest _ IH]; intros out; cbn [print_sections].
    + destruct (Py.contains (group_license_text s) "```") eqn:E;
        [cbn [snd is_ok]; discriminate|]. by destruct (Hs E).
    + destruct (Py.contains (group_license_text s) "```");
        [cbn [snd is_ok]; discriminate|]. apply IH.
Qed.

(** *** Escaping for XML *)

Lemma substitute_app (f : ascii → string) (a b : string) :
  substitute f (a +:+ b) = substitute f a +:+ substitute f b.
Proof.
  induction a as [|c a IH]; [done|].
  rewrite append_cons. cbn [substitute]. rewrite IH.
  by rewrite append_assoc.
Qed.

Lemma substitute_substitute (f g : ascii → string) (s : string) :
  substitute g (substitute f s) = substitute (λ c, substitute g (f c)) s.
Proof.
  induction s as [|c s IH]; [done|].
  cbn [substitute]. by rewrite substitute_app, IH.
Qed.

Lemma substitute_ext (f g : ascii → string) (s : string) :
  (∀ c, f c = g c) → substitute f s = substitute g s.
Proof. intros H. induction s as [|c s IH]; [done|]. cbn [substitute]. by rewrite H, IH. Qed.

Lemma escape_char_eq (c : ascii) :
  substitute (λ d, substitute (replace_char "<" "&lt;") (replace_char ">" "&gt;" d))
    (replace_char "&" "&amp;" c)
  = escape_char c.
Proof. by destruct c as [[] [] [] [] [] [] [] []]. Qed.

(** [escape] works character by character. *)
Lemma escape_eq (data : string) : escape data = substitute escape_char data.
Proof.
  unfold escape. rewrite !str_replace_char, !substitute_substitute.
  apply substitute_ext. intros c. apply escape_char_eq.
Qed.

Lemma escape_char_no_markup (c : ascii) :
  Py.contains (escape_char c) "<" = false ∧ Py.contains (escape_char c) ">" = false.
Proof. by destruct c as [[] [] [] [] [] [] [] []]. Qed.

(** X20: the text that [escape] returns contains neither [<] nor [>], and an
    ampersand in it begins one of the three entities: without the entities,
    no ampersand is left. *)
Theorem escape_leaves_no_markup (data : string) :
  Py.contains (escape data) "<" = false
  ∧ Py.contains (escape data) ">" = false
  ∧ Py.contains
      (str_replace (str_replace (str_replace (escape data) "&amp;" "") "&gt;" "")
         "&lt;" "")
      "&" = false.
Proof.
  rewrite escape_eq. split_and!.
  - apply substitute_removes. intros d. apply escape_char_no_markup.
  - apply substitute_removes. intros d. apply escape_char_no_markup.
  - assert (∀ s, str_replace (substitute escape_char s) "&amp;" ""
                 = substitute (λ c, if Ascii.eqb c "&" then "" else escape_char c) s)
      as ->.
    { intros s. unfold str_replace. induction s as [|c s IH]; [done|].
      cbn [substitute]. rewrite <- IH.
      by destruct c as [[] [] [] [] [] [] [] []]. }
    assert (∀ s, str_replace
                   (substitute (λ c, if Ascii.eqb c "&" then "" else escape_char c) s)
                   "&gt;" ""
                 = substitute (λ c, if Ascii.eqb c "&" || Ascii.eqb c ">" then ""
                                    else escape_char c) s)
      as ->.
    { intros s. unfold str_replace. induction s as [|c s IH]; [done|].
      cbn [substitute]. rewrite <- IH.
      by destruct c as [[] [] [] [] [] [] [] []]. }
    assert (∀ s, str_replace
                   (substitute (λ c, if Ascii.eqb c "&" || Ascii.eqb c ">" then ""
                                     else escape_char c) s)
                   "&lt;" ""
                 = substitute (λ c, if Ascii.eqb c "&" || Ascii.eqb c ">"
                                       || Ascii.eqb c "<" then ""
                                    else String c EmptyString) s)
      as ->.
    { intros s. unfold str_replace. induction s as [|c s IH]; [done|].
      cbn [substitute]. rewrite <- IH.
      by destruct c as [[] [] [] [] [] [] [] []]. }
    apply substitute_removes. intros d. by destruct d as [[] [] [] [] [] [] [] []].
Qed.

(** The three replacements of [unescape], on an escaped text. *)
Lemma unescape_lt (s : string) :
  str_replace (substitute escape_char s) "&lt;" "<"
  = substitute (λ c, if Ascii.eqb c "<" then "<" else escape_char c) s.
Proof.
  unfold str_replace. induction s as [|c s IH]; [done|].
  cbn [substitute]. rewrite <- IH. by destruct c as [[] [] [] [] [] [] [] []].
Qed.

Lemma unescape_gt (s : string) :
  str_replace (substitute (λ c, if Ascii.eqb c "<" then "<" else escape_char c) s)
    "&gt;" ">"
  = substitute (λ c, if Ascii.eqb c "&" then "&amp;" else String c EmptyString) s.
Proof.
  unfold str_replace. induction s as [|c s IH]; [done|].
  cbn [substitute]. rewrite <- IH. by destruct c as [[] [] [] [] [] [] [] []].
Qed.

Lemma unescape_amp (s : string) :
  str_replace (substitute (λ c, if Ascii.eqb c "&" then "&amp;" else String c EmptyString) s)
    "&amp;" "&"
  = s.
Proof.
  unfold str_replace. induction s as [|c s IH]; [done|].
  cbn [substitute]. rewrite <- IH at 2. by destruct c as [[] [] [] [] [] [] [] []].
Qed.

(** X21: [unescape] undoes [escape]: the text can be read back from the
    output, so two different texts are never printed alike. *)
Theorem unescape_escape (data : string) : unescape (escape data) = data.
Proof.
  unfold unescape. by rewrite escape_eq, unescape_lt, unescape_gt, unescape_amp.
Qed.

(** *** The entries of the [.pom] file *)

Lemma strict_total_triple : strict_total triple_ltb.
Proof.
  destruct strict_total_string as (Hirr & Htrans & Htotal).
  destruct strict_total_pair as (Hirr2 & Htrans2 & Htotal2).
  unfold triple_ltb. split_and!.
  - intros [a1 a2]. cbn [fst snd]. by rewrite Hirr2, Hirr, andb_false_r.
  - intros [[a1 a1'] a2] [[b1 b1'] b2] [[c1 c1'] c2]. cbn [fst snd].
    rewrite !orb_true_iff, !andb_true_iff, !String.eqb_eq.
    intros [H1|[[-> ->] H1]] [H2|[[-> ->] H2]]; eauto.
  - intros [[a1 a1'] a2] [[b1 b1'] b2]. cbn [fst snd].
    rewrite !orb_false_iff. intros [H1 H1'] [H2 H2'].
    pose proof (Htotal2 _ _ H1 H2) as [= <- <-].
    rewrite !String.eqb_refl in H1', H2'. cbn [andb] in H1', H2'.
    by rewrite (Htotal _ _ H1' H2').
Qed.

Lemma sorted_strictly {A : Type} (ltb : A → A → bool) (l : list A) :
  strict_total ltb →
  NoDup l →
  StronglySorted (λ a b, ltb a b = true) (sorted (λ a, a) ltb l).
Proof.
  intros Hord Hnd.
  assert (NoDup (sorted (λ a, a) ltb l)) as Hnd' by (by rewrite sorted_perm).
  pose proof (sorted_ordered (λ a, a) ltb Hord l) as Hs.
  induction Hs as [|x rest Hrest IH Hx]; [constructor|].
  apply NoDup_cons in Hnd' as [Hin Hnd']. constructor; [by apply IH|].
  apply Forall_forall. intros y Hy.
  pose proof (proj1 (Forall_forall _ _) Hx y Hy) as Hxy. unfold ordered_by in Hxy.
  destruct (ltb x y) eqn:E; [done|exfalso].
  destruct Hord as (_ & _ & Htotal). apply Hin. by rewrite (Htotal x y E Hxy).
Qed.

(** X22: the entries printed for a section are the tuples (name, license,
    license URL) of its dependencies, each of them once, in increasing
    order. *)
Theorem pom_entries_distinct_sorted (section : group) :
  NoDup (pom_entries section)
  ∧ StronglySorted (λ a b, triple_ltb a b = true) (pom_entries section)
  ∧ ∀ name license license_url,
      (name, license, license_url) ∈ pom_entries section ↔
      ∃ d, d ∈ group_dependencies section
           ∧ info_name d = name ∧ info_license d = license
           ∧ info_license_url d = license_url.
Proof.
  unfold pom_entries. split_and!.
  - rewrite sorted_perm. apply NoDup_remove_dups.
  - apply sorted_strictly; [apply strict_total_triple|apply NoDup_remove_dups].
  - intros name license license_url.
    rewrite elem_of_sorted, elem_of_remove_dups, list_elem_of_fmap. split.
    + intros (d & [= -> -> ->] & Hd). by exists d.
    + intros (d & Hd & <- & <- & <-). by exists d.
Qed.

Lemma print_license_lines (entry : string * string * string) (line : string) :
  line ∈ print_license entry → pom_line line.
Proof.
  destruct entry as [[name license] license_url]. unfold print_license.
  cbn [info_license info_license_url].
  rewrite !elem_of_cons, elem_of_nil. intros [->|[->|[->|[->|[]]]]].
  - by left.
  - right; right. eexists "    <name>", "</name>", _. split; [done|].
    split; [left|]. split; apply escape_leaves_no_markup.
  - right; right. eexists "    <url>", "</url>", _. split; [done|].
    split; [right; left|]. split; apply escape_leaves_no_markup.
  - right; left. done.
Qed.

Lemma print_license_length (entries : list (string * string * string)) :
  length (concat (print_license <$> entries)) = 4 * length entries.
Proof.
  induction entries as [|[[n l] u] entries IH]; [done|].
  rewrite fmap_cons. cbn [concat]. rewrite length_app, IH.
  cbn [print_license length]. lia.
Qed.

(** X23: the [.pom] printer raises only when grouping raises, having printed
    the opening tag and the comment by then; otherwise it prints, between
    the preamble and the closing tag, four lines for each entry of each
    section, in which [<] and [>] occur in the tags alone. *)
Theorem pom_output_well_formed (deps : list license_info) :
  (∀ e, group_dependencies_for_printing deps = Raise e →
        print_dependency_summary_pom deps = (pom_preamble, Raise e))
  ∧ (∀ sections,
       group_dependencies_for_printing deps = Ok sections →
       ∃ body,
         print_dependency_summary_pom deps
         = (pom_preamble ++ body ++ [ "</licenses>" ], Ok tt)
         ∧ length body = 4 * length (concat (pom_entries <$> sections))
         ∧ ∀ line, line ∈ body → pom_line line).
Proof.
  unfold print_dependency_summary_pom. split.
  - intros e ->. done.
  - intros sections ->.
    exists (concat ((λ section, concat (print_license <$> pom_entries section))
                      <$> sections)).
    split_and!.
    + unfold pom_preamble. by rewrite <- app_assoc.
    + induction sections as [|s sections IH]; [done|].
      rewrite !fmap_cons. cbn [concat].
      rewrite !length_app, IH, print_license_length. lia.
    + intros line Hline. apply list_elem_of_In, in_concat in Hline as (ls & Hls & Hline).
      apply list_elem_of_In, list_elem_of_fmap in Hls as (s & -> & _).
      apply in_concat in Hline as (ls & Hls & Hline).
      apply list_elem_of_In, list_elem_of_fmap in Hls as (entry & -> & _).
      apply list_elem_of_In in Hline. by eapply print_license_lines.
Qed.

(** *** The properties on the sample records *)

Lemma markdown_stops_at_fence_witness :
  ∃ out,
    print_dependency_summary_markdown fenced_deps = (out, Raise (AssertionError ""))
    ∧ length out = 6 + 2 + 1 + 8 + 5
    ∧ last out = Some "```".
Proof.
  run_grouping fenced_deps E.
  match type of E with
  | _ = Ok [?g1; ?g2] =>
      pose proof (markdown_stops_at_fence fenced_deps [g1] [] g2 E) as H
  end.
  eexists. split.
  - apply H.
    + intros s Hs. apply list_elem_of_singleton in Hs. rewrite Hs. reflexivity.
    + reflexivity.
  - split; reflexivity.
Defined.

Lemma markdown_prints_every_section_witness :
  ∃ sections,
    group_dependencies_for_printing mixed_deps = Ok sections
    ∧ print_dependency_summary_markdown mixed_deps
      = (markdown_preamble ++ (contents_line <$> sections) ++ [ "-------------" ]
         ++ concat (section_block <$> sections),
         Ok tt).
Proof.
  run_grouping mixed_deps E.
  eexists. split; [exact E|].
  destruct (markdown_prints_every_section mixed_deps) as (Hall & _ & _).
  apply (Hall _ E). intros s Hs.
  rewrite !elem_of_cons, elem_of_nil in Hs.
  destruct Hs as [->|[->|[->|[]]]]; reflexivity.
Defined.

Lemma pom_output_well_formed_witness :
  ∃ body,
    print_dependency_summary_pom mixed_deps
    = (pom_preamble ++ body ++ [ "</licenses>" ], Ok tt)
    ∧ length body = 4 * 5
    ∧ ∀ line, line ∈ body → pom_line line.
Proof.
  run_grouping mixed_deps E.
  destruct (pom_output_well_formed mixed_deps) as (_ & Hall).
  destruct (Hall _ E) as (body & Hrun & Hlen & Hlines).
  exists body. split; [exact Hrun|]. split; [|exact Hlines].
  rewrite Hlen. reflexivity.
Defined.

(** ** The license URL *)

Lemma run_io_bind {A B : Type} (w : world) (m : io A) (k : A → io B) :
  run w (io_bind m k)
  = match run w m with
    | (t, Ok a) => let '(t', r) := run w (k a) in (t ++ t', r)
    | (t, Raise e) => (t, Raise e)
    end.
Proof.
  induction m as [a|e|path f IH|path f IH|url f IH]; cbn [io_bind run].
  - by destruct (run w (k a)).
  - done.
  - destruct (os_listdir w path) as [names|e]; [|done]. rewrite IH.
    destruct (run w (f names)) as [t [a|e]]; [|done]. by destruct (run w (k a)).
  - destruct (read_file w path) as [text|e]; [|done]. rewrite IH.
    destruct (run w (f text)) as [t [a|e]]; [|done]. by destruct (run w (k a)).
  - destruct (requests_get w url) as [r|e]; [|done]. rewrite IH.
    destruct (run w (f r)) as [t [a|e]]; [|done]. by destruct (run w (k a)).
Qed.

Lemma startswith_app (p s : string) : Py.startswith (p +:+ s) p = true.
Proof. apply startswith_spec. by exists s. Qed.

(** *** The locations that are probed *)

Lemma probe_found (w : world) (repo licenseFile : string) (pre post : list string)
    (path : string) (r : http_response) :
  (∀ p, p ∈ pre → not_live w (license_url_candidate repo licenseFile p)) →
  requests_get w (license_url_candidate repo licenseFile path) = Ok r →
  status_code r = 200%Z →
  run w (probe_license_url repo licenseFile (pre ++ path :: post))
  = (EHttpGet <$> (license_url_candidate repo licenseFile <$> pre ++ [path]),
     Ok (Some (license_url_candidate repo licenseFile path))).
Proof.
  intros Hpre Hget Hstatus. induction pre as [|p pre IH]; cbn [app probe_license_url run].
  - fold (license_url_candidate repo licenseFile path). rewrite Hget, Hstatus. done.
  - fold (license_url_candidate repo licenseFile p).
    destruct (Hpre p) as (r' & -> & Hr'); [left|].
    apply Z.eqb_neq in Hr'. rewrite Hr', IH; [done|].
    intros q Hq. apply Hpre. by right.
Qed.

Lemma probe_failed (w : world) (repo licenseFile : string) (pre post : list string)
    (path : string) (e : exn) :
  (∀ p, p ∈ pre → not_live w (license_url_candidate repo licenseFile p)) →
  requests_get w (license_url_candidate repo licenseFile path) = Raise e →
  run w (probe_license_url repo licenseFile (pre ++ path :: post))
  = (EHttpGet <$> (license_url_candidate repo licenseFile <$> pre ++ [path]), Raise e).
Proof.
  intros Hpre Hget. induction pre as [|p pre IH]; cbn [app probe_license_url run].
  - fold (license_url_candidate repo licenseFile path). by rewrite Hget.
  - fold (license_url_candidate repo licenseFile p).
    destruct (Hpre p) as (r' & -> & Hr'); [left|].
    apply Z.eqb_neq in Hr'. rewrite Hr', IH; [done|].
    intros q Hq. apply Hpre. by right.
Qed.

Lemma probe_none (w : world) (repo licenseFile : string) (paths : list string) :
  (∀ p, p ∈ paths → not_live w (license_url_candidate repo licenseFile p)) →
  run w (probe_license_url repo licenseFile paths)
  = (EHttpGet <$> (license_url_candidate repo licenseFile <$> paths), Ok None).
Proof.
  intros Hall. induction paths as [|p paths IH]; cbn [probe_license_url run]; [done|].
  fold (license_url_candidate repo licenseFile p).
  destruct (Hall p) as (r' & -> & Hr'); [left|].
  apply Z.eqb_neq in Hr'. rewrite Hr', IH; [done|].
  intros q Hq. apply Hall. by right.
Qed.

(** *** Raw addresses and page addresses *)

Lemma re_sub_skip (a b : string) :
  re_sub_from (String.length a) (a +:+ b) = re_sub_from 0 b.
Proof. induction a as [|c a IH]; [done|]. exact IH. Qed.

Lemma span_segment_app (seg rest : string) :
  Py.contains seg "/" = false →
  span_segment (seg +:+ "/" +:+ rest) = (seg, "/" +:+ rest).
Proof.
  induction seg as [|c seg IH]; [done|].
  rewrite contains_char_cons. intros [Hc Hseg]%orb_false_iff.
  rewrite append_cons. cbn [span_segment].
  rewrite Ascii.eqb_sym, Hc. by rewrite (IH Hseg).
Qed.

Lemma match_segment_app (seg rest : string) :
  seg ≠ "" →
  Py.contains seg "/" = false →
  match_segment (seg +:+ "/" +:+ rest) = Some (seg, rest).
Proof.
  intros Hne Hseg. unfold match_segment. rewrite (span_segment_app _ _ Hseg).
  by destruct seg.
Qed.

Lemma match_dots_cons (p c : ascii) (pat s : string) :
  match_dots (String p pat) (String c s)
  = if (if Ascii.eqb p "." then negb (Ascii.eqb c "010") else Ascii.eqb p c)
    then match_dots pat s else None.
Proof. reflexivity. Qed.

Lemma match_raw_url_startswith (s : string) (x : string * string * string) :
  match_raw_url s = Some x → Py.startswith s "raw" = true.
Proof.
  unfold match_raw_url.
  destruct (match_dots "raw.githubusercontent.com/" s) as [rest|] eqn:E; [|done].
  intros _.
  destruct s as [|c1 s]; [done|]. rewrite match_dots_cons in E.
  change (Ascii.eqb "r" ".") with false in E. cbv iota in E.
  rewrite startswith_cons. destruct (Ascii.eqb "r" c1); [|done].
  destruct s as [|c2 s]; [done|]. rewrite match_dots_cons in E.
  change (Ascii.eqb "a" ".") with false in E. cbv iota in E.
  rewrite startswith_cons. destruct (Ascii.eqb "a" c2); [|done].
  destruct s as [|c3 s]; [done|]. rewrite match_dots_cons in E.
  change (Ascii.eqb "w" ".") with false in E. cbv iota in E.
  rewrite startswith_cons. by destruct (Ascii.eqb "w" c3).
Qed.

Lemma re_sub_no_match (s : string) :
  Py.contains s "raw" = false → re_sub_from 0 s = s.
Proof.
  induction s as [|c s IH]; [done|].
  cbn [Py.contains]. intros [Hstart Hrest]%orb_false_iff. cbn [re_sub_from].
  destruct (match_raw_url (String c s)) as [[[owner repo] rest]|] eqn:E.
  - apply match_raw_url_startswith in E. congruence.
  - by rewrite (IH Hrest).
Qed.

Lemma re_sub_other (c : ascii) (s : string) :
  Ascii.eqb "r" c = false →
  re_sub_from 0 (String c s) = String c (re_sub_from 0 s).
Proof.
  intros Hc. cbn [re_sub_from]. unfold match_raw_url. rewrite match_dots_cons.
  change (Ascii.eqb "r" ".") with false. cbv iota. by rewrite Hc.
Qed.

Lemma re_sub_from_match (c : ascii) (s owner repo rest : string) :
  match_raw_url (String c s) = Some (owner, repo, rest) →
  re_sub_from 0 (String c s)
  = "github.com/" +:+ owner +:+ "/" +:+ repo +:+ "/blob/"
    +:+ re_sub_from (String.length (String c s) - String.length rest - 1) s.
Proof. intros H. cbn [re_sub_from]. by rewrite H. Qed.

Lemma match_dots_app (pat s : string) :
  Py.contains pat (String "010" EmptyString) = false →
  match_dots pat (pat +:+ s) = Some s.
Proof.
  induction pat as [|p pat IH]; [done|].
  rewrite contains_char_cons. intros [Hp Hpat]%orb_false_iff.
  rewrite append_cons, match_dots_cons, (Ascii.eqb_sym p "010"), Hp, Ascii.eqb_refl.
  rewrite (IH Hpat). by destruct (Ascii.eqb p ".").
Qed.

Lemma match_raw_url_app (owner repo rest : string) :
  owner ≠ "" → repo ≠ "" →
  Py.contains owner "/" = false → Py.contains repo "/" = false →
  match_raw_url
    ("raw.githubusercontent.com/" +:+ owner +:+ "/" +:+ repo +:+ "/" +:+ rest)
  = Some (owner, repo, rest).
Proof.
  intros Ho Hr Hos Hrs. unfold match_raw_url.
  rewrite match_dots_app by reflexivity. cbn [mbind option_bind].
  rewrite (match_segment_app _ _ Ho Hos). cbn [mbind option_bind].
  by rewrite (match_segment_app _ _ Hr Hrs).
Qed.

Lemma re_sub_match (owner repo rest : string) :
  owner ≠ "" → repo ≠ "" →
  Py.contains owner "/" = false → Py.contains repo "/" = false →
  re_sub_from 0
    ("raw.githubusercontent.com/" +:+ owner +:+ "/" +:+ repo +:+ "/" +:+ rest)
  = "github.com/" +:+ owner +:+ "/" +:+ repo +:+ "/blob/" +:+ re_sub_from 0 rest.
Proof.
  intros Ho Hr Hos Hrs.
  pose proof (match_raw_url_app owner repo rest Ho Hr Hos Hrs) as Hm.
  rewrite (append_cons "r" "aw.githubusercontent.com/") in Hm |- *.
  rewrite (re_sub_from_match _ _ _ _ _ Hm). do 5 f_equal.
  rewrite <- (re_sub_skip ("aw.githubusercontent.com/" +:+ owner +:+ "/" +:+ repo +:+ "/")
                rest).
  rewrite <- !append_assoc. f_equal.
  cbn [String.length]. rewrite !length_append. cbn [String.length]. lia.
Qed.

Lemma re_sub_prefix (p s : string) :
  Py.contains p "r" = false → re_sub_from 0 (p +:+ s) = p +:+ re_sub_from 0 s.
Proof.
  induction p as [|c p IH]; [done|].
  rewrite contains_char_cons. intros [Hc Hp]%orb_false_iff.
  by rewrite !append_cons, (re_sub_other _ _ Hc), (IH Hp).
Qed.

(** X24: the human-friendly form of a raw GitHub address
    [https://raw.githubusercontent.com/OWNER/REPO/REST] is the page address
    [https://github.com/OWNER/REPO/blob/REST]; another address is left as it
    is. *)
Theorem raw_url_becomes_blob_url (owner repo rest : string) :
  owner ≠ "" → repo ≠ "" →
  Py.contains owner "/" = false → Py.contains repo "/" = false →
  Py.contains rest "raw" = false →
  human_friendly
    ("https://raw.githubusercontent.com/" +:+ owner +:+ "/" +:+ repo +:+ "/" +:+ rest)
  = "https://github.com/" +:+ owner +:+ "/" +:+ repo +:+ "/blob/" +:+ rest
  ∧ ∀ url, Py.startswith url "https://raw.githubusercontent.com/" = false →
           human_friendly url = url.
Proof.
  intros Ho Hr Hos Hrs Hrest. split.
  - unfold human_friendly. rewrite startswith_app. unfold re_sub_raw_url.
    change ("https://raw.githubusercontent.com/" +:+ owner +:+ "/" +:+ repo +:+ "/"
            +:+ rest)
      with ("https://" +:+ "raw.githubusercontent.com/" +:+ owner +:+ "/" +:+ repo
            +:+ "/" +:+ rest).
    rewrite (re_sub_prefix "https://") by reflexivity.
    by rewrite (re_sub_match _ _ _ Ho Hr Hos Hrs), (re_sub_no_match _ Hrest).
  - intros url Hurl. unfold human_friendly. by rewrite Hurl.
Qed.

(** *** Computations in sequence *)

Lemma run_io_bind_inv {A B : Type} (w : world) (m : io A) (k : A → io B)
    (t : list event) (r : result B) :
  run w (io_bind m k) = (t, r) →
  (∃ e, run w m = (t, Raise e) ∧ r = Raise e)
  ∨ ∃ t1 a t2, run w m = (t1, Ok a) ∧ run w (k a) = (t2, r) ∧ t = t1 ++ t2.
Proof.
  rewrite run_io_bind. destruct (run w m) as [t1 [a|e]].
  - destruct (run w (k a)) as [t2 r2] eqn:E. intros [= <- <-]. right.
    by exists t1, a, t2.
  - intros [= <- <-]. left. by exists e.
Qed.

Lemma run_io_bind_Ok {A B : Type} (w : world) (m : io A) (k : A → io B)
    (t : list event) (b : B) :
  run w (io_bind m k) = (t, Ok b) →
  ∃ t1 a t2, run w m = (t1, Ok a) ∧ run w (k a) = (t2, Ok b) ∧ t = t1 ++ t2.
Proof.
  intros [(e & _ & [=])|H]%run_io_bind_inv. exact H.
Qed.

Lemma run_lift_inv {A : Type} (w : world) (x : result A) (t : list event) (r : result A) :
  run w (lift x) = (t, r) → t = [] ∧ r = x.
Proof. rewrite run_lift. by intros [= <- <-]. Qed.

(** The locator of the license file only lists a directory, and what it
    returns is not [None]. *)
Lemma find_license_file_run (w : world) (id license : string)
    (pkgInfo : gmap string value) (t : list event) (r : result value) :
  run w (_find_license_file id license pkgInfo) = (t, r) →
  Forall is_listing t ∧ ∀ v, r = Ok v → v ≠ VNone.
Proof.
  unfold _find_license_file.
  destruct (get pkgInfo "license_file") as [|file|shown].
  - destruct (getstr pkgInfo "manifest_path") as [manifest|e]; cbn [run].
    + destruct (os_listdir w (os_path.dirname manifest)) as [listing|e].
      * cbv zeta.
        destruct (filter (λ nm, Py.lower nm ∈ license_file_names license) listing)
          as [|found [|another rest]].
        -- rewrite run_lift. intros [= <- <-]. split.
           ++ constructor; [by eexists|constructor].
           ++ intros v Hv. destruct (getitem pkgInfo "name"); [|done].
              cbn in Hv. by destruct (getitem pkgInfo "repository").
        -- cbn [run]. intros [= <- <-]. split.
           ++ constructor; [by eexists|constructor].
           ++ by intros v [= <-].
        -- rewrite run_lift. intros [= <- <-]. split.
           ++ constructor; [by eexists|constructor].
           ++ intros v Hv. by destruct (getitem pkgInfo "name").
      * intros [= <- <-]. split; [|done]. constructor; [by eexists|constructor].
    + intros [= <- <-]. split; [constructor|done].
  - cbn [run]. intros [= <- <-]. split; [constructor|]. by intros v [= <-].
  - cbn [run]. intros [= <- <-]. split; [constructor|]. by intros v [= <-].
Qed.

Section LicenseUrlFacts.
Variable urlparse_scheme : string → result string.

(** X25: without a declared URL and without a scheme in the license file, a
    package whose repository is [None], empty or not on GitHub gets no URL:
    the error names the package, the repository, the license and the
    license file, and no request is made. *)
Theorem license_url_not_inferred (id chosenLicense licenseFile : string)
    (pkgInfo : gmap string value) (w : world) (name repo : value) :
  get pkgInfo "license_url" = VNone →
  urlparse_scheme licenseFile = Ok "" →
  pkgInfo !! "name" = Some name →
  pkgInfo !! "repository" = Some repo →
  repo = VNone
  ∨ (∃ s, repo = VStr s ∧ Py.startswith s "http://github.com/" = false
          ∧ Py.startswith s "https://github.com/" = false) →
  run w (_find_license_url urlparse_scheme id chosenLicense licenseFile pkgInfo)
  = ([], Raise (RuntimeError
                  ("Could not infer license URL for '" +:+ str name +:+ "'."
                   +:+ String "010"%char EmptyString
                   +:+ "Please locate the correct license URL and add it to `PACKAGE_METADATA_FIXUPS`."
                   +:+ String "010"%char EmptyString
                   +:+ "You may need to poke around in the source repository at "
                   +:+ str repo
                   +:+ " for a " +:+ chosenLicense +:+ " license file named "
                   +:+ licenseFile +:+ "."))).
Proof.
  intros Hurl Hscheme Hname Hrepo Hcases.
  change (run w (_find_license_url urlparse_scheme id chosenLicense licenseFile pkgInfo)
          = ([], Raise (license_url_not_found name repo chosenLicense licenseFile))).
  unfold _find_license_url.
  rewrite Hurl, Hscheme. cbn [String.eqb negb]. unfold getitem at 1. rewrite Hrepo.
  assert (run w (no_license_url repo chosenLicense licenseFile pkgInfo)
          = ([], Raise (license_url_not_found name repo chosenLicense licenseFile)))
    as Hfail.
  { unfold no_license_url. rewrite run_lift. unfold getitem. by rewrite Hname. }
  destruct Hcases as [->|(s & -> & Hhttp & Hhttps)]; [done|].
  destruct (String.eqb s ""); [done|]. by rewrite Hhttp, Hhttps.
Qed.

(** X26: for a repository on GitHub, without a declared URL and without a
    scheme in the license file, the four locations are requested in their
    order until one answers with status 200: its address is the URL, in its
    human-friendly form, and no later location is requested.  A request
    that fails ends the search with its error, and when no location is live
    the error names the repository without its suffix. *)
Theorem github_locations_probed_in_order (id chosenLicense licenseFile : string)
    (pkgInfo : gmap string value) (w : world) (name : value) (repo : string) :
  get pkgInfo "license_url" = VNone →
  urlparse_scheme licenseFile = Ok "" →
  pkgInfo !! "name" = Some name →
  pkgInfo !! "repository" = Some (VStr repo) →
  Py.startswith repo "https://github.com/" = true →
  let run_it :=
    run w (_find_license_url urlparse_scheme id chosenLicense licenseFile pkgInfo) in
  let candidates := license_url_candidates repo name licenseFile in
  (∀ pre url post r,
     candidates = pre ++ url :: post →
     (∀ u, u ∈ pre → not_live w u) →
     requests_get w url = Ok r → status_code r = 200%Z →
     run_it = (EHttpGet <$> pre ++ [url], Ok (VStr (human_friendly url))))
  ∧ (∀ pre url post e,
       candidates = pre ++ url :: post →
       (∀ u, u ∈ pre → not_live w u) →
       requests_get w url = Raise e →
       run_it = (EHttpGet <$> pre ++ [url], Raise e))
  ∧ ((∀ u, u ∈ candidates → not_live w u) →
     run_it = (EHttpGet <$> candidates,
               Raise (RuntimeError
                        ("Could not infer license URL for '" +:+ str name +:+ "'."
                         +:+ String "010"%char EmptyString
                         +:+ "Please locate the correct license URL and add it to `PACKAGE_METADATA_FIXUPS`."
                         +:+ String "010"%char EmptyString
                         +:+ "You may need to poke around in the source repository at "
                         +:+ stripped_repository repo name
                         +:+ " for a " +:+ chosenLicense +:+ " license file named "
                         +:+ licenseFile +:+ ".")))).
Proof.
  intros Hurl Hscheme Hname Hrepo Hgithub run_it candidates.
  change (RuntimeError _)
    with (license_url_not_found name (VStr (stripped_repository repo name))
            chosenLicense licenseFile).
  assert (run_it
          = match run w (probe_license_url (stripped_repository repo name) licenseFile
                           [ "/main/"; "/master/";
                             "/main/" +:+ str name +:+ "/";
                             "/master/" +:+ str name +:+ "/" ]) with
            | (t, Ok (Some url)) => (t, Ok (VStr (human_friendly url)))
            | (t, Ok None) =>
                (t, Raise (license_url_not_found name
                             (VStr (stripped_repository repo name))
                             chosenLicense licenseFile))
            | (t, Raise e) => (t, Raise e)
            end) as Hrun.
  { unfold run_it, _find_license_url. rewrite Hurl, Hscheme. cbn [String.eqb negb].
    unfold getitem. rewrite Hrepo, Hname.
    pose proof Hgithub as Hq. apply startswith_spec in Hq as [q ->].
    change (String.eqb ("https://github.com/" +:+ q) "") with false.
    change (Py.startswith ("https://github.com/" +:+ q) "http://github.com/") with false.
    cbv iota. rewrite Hgithub. rewrite run_io_bind.
    fold (stripped_repository ("https://github.com/" +:+ q) name).
    destruct (run w (probe_license_url _ _ _)) as [t [[url|]|e]]; [| |done].
    - cbn [run]. by rewrite app_nil_r.
    - unfold no_license_url. rewrite run_lift. unfold getitem. rewrite Hname.
      cbn [mbind result_bind]. by rewrite app_nil_r. }
  unfold candidates, license_url_candidates. split_and!.
  - intros pre url post r Hsplit Hpre Hget Hstatus.
    apply fmap_app_inv in Hsplit as (pre' & rest & -> & Hrest & Hpaths).
    symmetry in Hrest. apply fmap_cons_inv in Hrest as (path & post' & -> & -> & ->).
    rewrite Hrun, Hpaths.
    rewrite (probe_found w _ _ pre' post' path r); [|..|done|done].
    + by rewrite fmap_app.
    + intros p Hp. apply Hpre. apply list_elem_of_fmap. by exists p.
  - intros pre url post e Hsplit Hpre Hget.
    apply fmap_app_inv in Hsplit as (pre' & rest & -> & Hrest & Hpaths).
    symmetry in Hrest. apply fmap_cons_inv in Hrest as (path & post' & -> & -> & ->).
    rewrite Hrun, Hpaths.
    rewrite (probe_failed w _ _ pre' post' path e); [|..|done].
    + by rewrite fmap_app.
    + intros p Hp. apply Hpre. apply list_elem_of_fmap. by exists p.
  - intros Hall. rewrite Hrun, probe_none; [done|].
    intros p Hp. apply Hall. apply list_elem_of_fmap. by exists p.
Qed.

Lemma probe_trace_prefix (w : world) (repo licenseFile : string) (paths : list string) :
  (run w (probe_license_url repo licenseFile paths)).1
  `prefix_of` EHttpGet <$> (license_url_candidate repo licenseFile <$> paths).
Proof.
  induction paths as [|p paths IH]; cbn [probe_license_url run]; [done|].
  fold (license_url_candidate repo licenseFile p). rewrite !fmap_cons.
  destruct (requests_get w (license_url_candidate repo licenseFile p)) as [r|e];
    [|apply prefix_cons, prefix_nil].
  destruct (status_code r =? 200)%Z; cbn [run]; [apply prefix_cons, prefix_nil|].
  destruct (run w (probe_license_url repo licenseFile paths)) as [t r'].
  apply prefix_cons, IH.
Qed.

(** X27: [_find_license_url] makes requests only for a package without a
    declared license URL, whose license file has no URL scheme and whose
    repository is on GitHub, and then only to the four locations, in their
    order and each at most once; it never lists a directory or reads a
    file. *)
Theorem requests_only_for_github_locations (id chosenLicense licenseFile : string)
    (pkgInfo : gmap string value) (w : world) (t : list event) (r : result value) :
  run w (_find_license_url urlparse_scheme id chosenLicense licenseFile pkgInfo) = (t, r) →
  t ≠ [] →
  ∃ repo name,
    get pkgInfo "license_url" = VNone
    ∧ urlparse_scheme licenseFile = Ok ""
    ∧ pkgInfo !! "repository" = Some (VStr repo)
    ∧ pkgInfo !! "name" = Some name
    ∧ Py.startswith (https_repository repo) "https://github.com/" = true
    ∧ t `prefix_of`
        EHttpGet <$> license_url_candidates (https_repository repo) name licenseFile.
Proof.
  unfold _find_license_url.
  destruct (get pkgInfo "license_url") as [|url|shown] eqn:Hurl;
    [|cbn [run]; by intros [= <- _]..].
  destruct (urlparse_scheme licenseFile) as [scheme|e]; [|by intros [= <- _]].
  destruct (String.eqb_spec scheme "") as [->|_]; [|cbn [run]; by intros [= <- _]].
  cbn [negb]. unfold getitem at 1.
  destruct (pkgInfo !! "repository") as [[|repo|shown]|] eqn:Hrepo;
    [| |by intros [= <- _]..].
  { unfold no_license_url. rewrite run_lift. by intros [= <- _]. }
  destruct (String.eqb repo "");
    [unfold no_license_url; rewrite run_lift; by intros [= <- _]|].
  cbv zeta. fold (https_repository repo).
  destruct (Py.startswith (https_repository repo) "https://github.com/") eqn:Hgithub;
    [|unfold no_license_url; rewrite run_lift; by intros [= <- _]].
  unfold getitem at 1.
  destruct (pkgInfo !! "name") as [name|] eqn:Hname; [|by intros [= <- _]].
  fold (stripped_repository (https_repository repo) name).
  intros Hrun _. exists repo, name. split_and!; try done.
  pose proof (probe_trace_prefix w (stripped_repository (https_repository repo) name)
                licenseFile
                [ "/main/"; "/master/"; "/main/" +:+ str name +:+ "/";
                  "/master/" +:+ str name +:+ "/" ]) as Hprefix.
  rewrite run_io_bind in Hrun.
  destruct (run w (probe_license_url _ _ _)) as [t1 [[url|]|e]];
    cbn [fst] in Hprefix.
  - cbn [run] in Hrun. injection Hrun as <- _. by rewrite app_nil_r.
  - unfold no_license_url in Hrun. rewrite run_lift in Hrun. injection Hrun as <- _.
    by rewrite app_nil_r.
  - by injection Hrun as <- _.
Qed.

Lemma no_license_url_run (w : world) (repo : value) (chosenLicense licenseFile : string)
    (pkgInfo : gmap string value) (t : list event) (v : value) :
  run w (no_license_url repo chosenLicense licenseFile pkgInfo) ≠ (t, Ok v).
Proof.
  unfold no_license_url. rewrite run_lift. by destruct (getitem pkgInfo "name").
Qed.

(** What [_find_license_url] returns is not [None]. *)
Lemma find_license_url_run (w : world) (id chosenLicense licenseFile : string)
    (pkgInfo : gmap string value) (t : list event) (v : value) :
  run w (_find_license_url urlparse_scheme id chosenLicense licenseFile pkgInfo)
  = (t, Ok v) →
  v ≠ VNone.
Proof.
  unfold _find_license_url.
  destruct (get pkgInfo "license_url") as [|url|shown];
    [|cbn [run]; by intros [= _ <-]..].
  destruct (urlparse_scheme licenseFile) as [scheme|e]; [|done].
  destruct (negb (String.eqb scheme "")); [cbn [run]; by intros [= _ <-]|].
  destruct (getitem pkgInfo "repository") as [[|repo|shown]|e]; [| |done|done].
  { intros H. by apply no_license_url_run in H. }
  destruct (String.eqb repo ""); [intros H; by apply no_license_url_run in H|].
  cbv zeta.
  destruct (Py.startswith
              (if Py.startswith repo "http://github.com/"
               then str_replace repo "http://" "https://" else repo)
              "https://github.com/");
    [|intros H; by apply no_license_url_run in H].
  destruct (getitem pkgInfo "name") as [name|e]; [|done].
  intros (t1 & [url|] & t2 & _ & H & _)%run_io_bind_Ok.
  - cbn [run] in H. by injection H as _ <-.
  - by apply no_license_url_run in H.
Qed.

Lemma find_license_url_of_run (w : world) (id chosenLicense : string) (licenseFile : value)
    (pkgInfo : gmap string value) (t : list event) (v : value) :
  run w (find_license_url_of urlparse_scheme id chosenLicense licenseFile pkgInfo)
  = (t, Ok v) →
  v ≠ VNone.
Proof.
  unfold find_license_url_of.
  destruct licenseFile as [|file|shown]; [|apply find_license_url_run|];
    (destruct (get pkgInfo "license_url"); [done|cbn [run]; by intros [= _ <-]..]).
Qed.

Lemma checked_fields_Ok (pkgInfo : gmap string value) (name repository : value) :
  (name ← getitem pkgInfo "name";
   _ ← assert_not_none name;
   repository ← getitem pkgInfo "repository";
   _ ← assert_not_none repository;
   Ok (name, repository)) = Ok (name, repository) →
  pkgInfo !! "name" = Some name ∧ name ≠ VNone
  ∧ pkgInfo !! "repository" = Some repository ∧ repository ≠ VNone.
Proof.
  unfold getitem.
  destruct (pkgInfo !! "name") as [n|]; [|done]. cbn [mbind result_bind].
  destruct n; [done|..];
    (cbn [assert_not_none mbind result_bind];
     destruct (pkgInfo !! "repository") as [r|]; [|done];
     destruct r; [done|..]; cbn [assert_not_none mbind result_bind];
     intros [= <- <-]; done).
Qed.

(** X28: a record that [get_license_info] returns has the seven fields of
    the summary: the name and the repository of the package, neither of
    them [None]; the identifier of the package, or its name when it has none;
    the license chosen from its license expression; a license file and a
    license URL that are not [None]; and the license text. *)
Theorem license_info_fields (self : WorkspaceMetadata) (id : string) (w : world)
    (t : list event) (info : gmap string value) :
  run w (get_license_info urlparse_scheme self id) = (t, Ok info) →
  ∃ pkgInfo name repository licenseId chosenLicense licenseFile license_text license_url,
    pkgInfoById self !! VStr id = Some pkgInfo
    ∧ pkgInfo !! "name" = Some name ∧ name ≠ VNone
    ∧ pkgInfo !! "repository" = Some repository ∧ repository ≠ VNone
    ∧ pkgInfo !! "license" = Some (VStr licenseId)
    ∧ pick_most_acceptable_license id licenseId = Ok chosenLicense
    ∧ licenseFile ≠ VNone ∧ license_url ≠ VNone
    ∧ info = list_to_map
               [ ("name", name);
                 ("id", default name (pkgInfo !! "id"));
                 ("repository", repository);
                 ("license", VStr chosenLicense);
                 ("license_file", licenseFile);
                 ("license_text", license_text);
                 ("license_url", license_url) ].
Proof.
  unfold get_license_info.
  destruct (pkgInfoById self !! VStr id) as [pkgInfo|]; [|done].
  intros (t1 & chosenLicense & t2 & Hlicense & H & _)%run_io_bind_Ok.
  apply run_lift_inv in Hlicense as [_ Hlicense]. symmetry in Hlicense.
  apply bind_Ok in Hlicense as (licenseId & HlicenseId & Hpick).
  apply getstr_Ok in HlicenseId.
  apply run_io_bind_Ok in H as (t3 & licenseFile & t4 & Hfile & H & _).
  apply find_license_file_run in Hfile as [_ Hfile].
  apply run_io_bind_Ok in H as (t5 & [name repository] & t6 & Hchecked & H & _).
  apply run_lift_inv in Hchecked as [_ Hchecked]. symmetry in Hchecked.
  apply checked_fields_Ok in Hchecked as (Hname & Hname' & Hrepo & Hrepo').
  apply run_io_bind_Ok in H as (t7 & license_text & t8 & _ & H & _).
  apply run_io_bind_Ok in H as (t9 & license_url & t10 & Hurl & H & _).
  apply find_license_url_of_run in Hurl.
  cbn [run] in H. injection H as _ <-.
  exists pkgInfo, name, repository, licenseId, chosenLicense, licenseFile,
    license_text, license_url.
  split_and!; try done. by apply Hfile.
Qed.

(** X29: for a package without a name or without a repository,
    [get_license_info] raises, and a directory listing is all that it asks
    for: no license text is read or fetched and no location is probed. *)
Theorem nothing_fetched_without_repository (self : WorkspaceMetadata) (id : string)
    (w : world) (pkgInfo : gmap string value) (t : list event)
    (r : result (gmap string value)) :
  pkgInfoById self !! VStr id = Some pkgInfo →
  get pkgInfo "name" = VNone ∨ get pkgInfo "repository" = VNone →
  run w (get_license_info urlparse_scheme self id) = (t, r) →
  is_ok r = false ∧ Forall is_listing t.
Proof.
  intros Hinfo Hmissing. unfold get_license_info. rewrite Hinfo.
  intros [(e & H & ->)|(t1 & chosenLicense & t2 & Hlicense & H & ->)]%run_io_bind_inv.
  { apply run_lift_inv in H as [-> _]. split; [done|constructor]. }
  apply run_lift_inv in Hlicense as [-> _]. cbn [app].
  apply run_io_bind_inv in H
    as [(e & H & ->)|(t3 & licenseFile & t4 & Hfile & H & ->)].
  { apply find_license_file_run in H as [H _]. by split. }
  apply find_license_file_run in Hfile as [Hfile _].
  apply run_io_bind_inv in H
    as [(e & H & ->)|(t5 & [name repository] & t6 & Hchecked & H & ->)].
  { apply run_lift_inv in H as [-> _]. by rewrite app_nil_r. }
  exfalso. apply run_lift_inv in Hchecked as [_ Hchecked]. symmetry in Hchecked.
  apply checked_fields_Ok in Hchecked as (Hname & Hname' & Hrepo & Hrepo').
  unfold get in Hmissing. rewrite Hname, Hrepo in Hmissing. cbn [default] in Hmissing.
  by destruct Hmissing.
Qed.

(** X30: the loop of [get_dependency_summary] yields a record for each
    external dependency, in the order of the loop, and none for a package of
    the workspace, for which it makes no call at all: the calls are those of
    [get_license_info] for the external dependencies, one after the other. *)
Theorem summary_of_external_dependencies (self : WorkspaceMetadata) (deps : list string)
    (w : world) (t : list event) (infos : list (gmap string value)) :
  run w (dependency_summary_of urlparse_scheme self deps) = (t, Ok infos) →
  let external :=
    List.filter (λ id, match is_external_dependency self id with
                       | Ok true => true
                       | _ => false
                       end) deps in
  Forall2 (λ id info, (run w (get_license_info urlparse_scheme self id)).2 = Ok info)
    external infos
  ∧ t = concat ((λ id, (run w (get_license_info urlparse_scheme self id)).1)
                  <$> external)
  ∧ ∀ id, id ∈ deps → is_ok (is_external_dependency self id) = true.
Proof.
  revert t infos. induction deps as [|id deps IH]; intros t infos H; cbn zeta.
  - cbn [dependency_summary_of run] in H. injection H as <- <-.
    split_and!; [constructor|done|]. intros id Hid. by apply elem_of_nil in Hid.
  - cbn [dependency_summary_of] in H. cbn [List.filter].
    destruct (is_external_dependency self id) as [[|]|e] eqn:Hext; [| |done].
    + apply run_io_bind_Ok in H as (t1 & info & t2 & Hinfo & H & ->).
      apply run_io_bind_Ok in H as (t3 & rest & t4 & Hrest & H & ->).
      cbn [run] in H. injection H as <- <-.
      destruct (IH _ _ Hrest) as (Hall & -> & Hok). split_and!.
      * constructor; [by rewrite Hinfo|done].
      * rewrite fmap_cons. cbn [concat]. by rewrite Hinfo, app_nil_r.
      * intros i [->|Hi]%elem_of_cons; [by rewrite Hext|by apply Hok].
    + destruct (IH _ _ H) as (Hall & -> & Hok). split_and!; [done..|].
      intros i [->|Hi]%elem_of_cons; [by rewrite Hext|by apply Hok].
Qed.

End LicenseUrlFacts.

Lemma raw_url_becomes_blob_url_witness :
  human_friendly "https://raw.githubusercontent.com/rusqlite/rusqlite/master/LICENSE"
  = "https://github.com/rusqlite/rusqlite/blob/master/LICENSE"
  ∧ human_friendly "https://www.apache.org/licenses/LICENSE-2.0.txt"
    = "https://www.apache.org/licenses/LICENSE-2.0.txt".
Proof.
  destruct (raw_url_becomes_blob_url "rusqlite" "rusqlite" "master/LICENSE")
    as [Hraw Hother]; [discriminate|discriminate|reflexivity..|].
  split; [exact Hraw|]. apply Hother. reflexivity.
Defined.

Lemma requests_only_for_github_locations_witness :
  ∃ repo name,
    get rusqlite_info "license_url" = VNone
    ∧ sample_scheme "LICENSE" = Ok ""
    ∧ rusqlite_info !! "repository" = Some (VStr repo)
    ∧ rusqlite_info !! "name" = Some name
    ∧ Py.startswith (https_repository repo) "https://github.com/" = true
    ∧ [ EHttpGet "https://raw.githubusercontent.com/rusqlite/rusqlite/main/LICENSE";
        EHttpGet "https://raw.githubusercontent.com/rusqlite/rusqlite/master/LICENSE" ]
      `prefix_of`
        EHttpGet <$> license_url_candidates (https_repository repo) name "LICENSE".
Proof.
  apply (requests_only_for_github_locations sample_scheme rusqlite_id "MIT" "LICENSE"
           rusqlite_info github_world _
           (Ok (VStr "https://github.com/rusqlite/rusqlite/blob/master/LICENSE")));
    [reflexivity|discriminate].
Defined.

Lemma license_url_not_inferred_witness :
  run github_world
    (_find_license_url sample_scheme "foo 1.0.0" "MIT" "LICENSE" (foo_info VNone))
  = ([], Raise (RuntimeError
                  ("Could not infer license URL for 'foo'."
                   +:+ String "010"%char EmptyString
                   +:+ "Please locate the correct license URL and add it to `PACKAGE_METADATA_FIXUPS`."
                   +:+ String "010"%char EmptyString
                   +:+ "You may need to poke around in the source repository at https://example.org/foo for a MIT license file named LICENSE."))).
Proof.
  apply (license_url_not_inferred sample_scheme "foo 1.0.0" "MIT" "LICENSE"
           (foo_info VNone) github_world (VStr "foo") (VStr "https://example.org/foo"));
    [reflexivity..|].
  right. exists "https://example.org/foo". split_and!; reflexivity.
Defined.

Lemma github_locations_probed_in_order_witness :
  run github_world
    (_find_license_url sample_scheme rusqlite_id "MIT" "LICENSE" rusqlite_info)
  = ([ EHttpGet "https://raw.githubusercontent.com/rusqlite/rusqlite/main/LICENSE";
       EHttpGet "https://raw.githubusercontent.com/rusqlite/rusqlite/master/LICENSE" ],
     Ok (VStr "https://github.com/rusqlite/rusqlite/blob/master/LICENSE"))
  ∧ run offline_world
      (_find_license_url sample_scheme "adler32 1.2.0" "Zlib" "LICENSE" adler32_git_info)
    = ([ EHttpGet "https://raw.githubusercontent.com/remram44/adler32-rs/main/LICENSE";
         EHttpGet "https://raw.githubusercontent.com/remram44/adler32-rs/master/LICENSE";
         EHttpGet "https://raw.githubusercontent.com/remram44/adler32-rs/main/adler32/LICENSE";
         EHttpGet "https://raw.githubusercontent.com/remram44/adler32-rs/master/adler32/LICENSE" ],
       Raise (RuntimeError
                ("Could not infer license URL for 'adler32'."
                 +:+ String "010"%char EmptyString
                 +:+ "Please locate the correct license URL and add it to `PACKAGE_METADATA_FIXUPS`."
                 +:+ String "010"%char EmptyString
                 +:+ "You may need to poke around in the source repository at https://github.com/remram44/adler32-rs for a Zlib license file named LICENSE."))).
Proof.
  split.
  - destruct (github_locations_probed_in_order sample_scheme rusqlite_id "MIT" "LICENSE"
                rusqlite_info github_world (VStr "rusqlite")
                "https://github.com/rusqlite/rusqlite")
      as (Hfound & _ & _); [reflexivity..|].
    apply (Hfound
             [ "https://raw.githubusercontent.com/rusqlite/rusqlite/main/LICENSE" ]
             "https://raw.githubusercontent.com/rusqlite/rusqlite/master/LICENSE"
             [ "https://raw.githubusercontent.com/rusqlite/rusqlite/main/rusqlite/LICENSE";
               "https://raw.githubusercontent.com/rusqlite/rusqlite/master/rusqlite/LICENSE" ]
             {| status_code := 200; decoded := Some "" |});
      [reflexivity| |reflexivity|reflexivity].
    intros u Hu. apply list_elem_of_singleton in Hu. rewrite Hu.
    eexists. split; [reflexivity|]. discriminate.
  - destruct (github_locations_probed_in_order sample_scheme "adler32 1.2.0" "Zlib"
                "LICENSE" adler32_git_info offline_world (VStr "adler32")
                "https://github.com/remram44/adler32-rs.git")
      as (_ & _ & Hnone); [reflexivity..|].
    apply Hnone. intros u Hu. eexists. split; [reflexivity|]. discriminate.
Defined.

Lemma license_info_fields_witness :
  ∃ t info,
    run github_world (get_license_info sample_scheme sample_catalog rusqlite_id)
    = (t, Ok info)
    ∧ info !! "name" = Some (VStr "rusqlite")
    ∧ info !! "id" = Some (VStr rusqlite_id)
    ∧ info !! "repository" = Some (VStr "https://github.com/rusqlite/rusqlite")
    ∧ info !! "license" = Some (VStr "MIT")
    ∧ (∃ licenseFile, info !! "license_file" = Some licenseFile ∧ licenseFile ≠ VNone)
    ∧ (∃ license_url, info !! "license_url" = Some license_url ∧ license_url ≠ VNone).
Proof.
  assert (is_ok (run github_world
                   (get_license_info sample_scheme sample_catalog rusqlite_id)).2 = true)
    as Hok by (vm_compute; reflexivity).
  destruct (run github_world (get_license_info sample_scheme sample_catalog rusqlite_id))
    as [t [info|e]] eqn:E; [|discriminate Hok].
  exists t, info. split; [reflexivity|].
  destruct (license_info_fields sample_scheme sample_catalog rusqlite_id github_world
              t info E)
    as (pkgInfo & name & repository & licenseId & chosenLicense & licenseFile
        & license_text & license_url & Hinfo & Hname & _ & Hrepo & _ & Hlicense & Hpick
        & HlicenseFile & Hlicense_url & ->).
  injection Hinfo as <-. injection Hname as <-. injection Hrepo as <-.
  injection Hlicense as <-. injection Hpick as <-.
  split_and!; [reflexivity..| |].
  - exists licenseFile. split; [reflexivity|exact HlicenseFile].
  - exists license_url. split; [reflexivity|exact Hlicense_url].
Defined.

Lemma nothing_fetched_without_repository_witness :
  ∃ t r,
    run github_world (get_license_info sample_scheme unpublished_catalog unpublished_id)
    = (t, r)
    ∧ is_ok r = false ∧ Forall is_listing t.
Proof.
  destruct (run github_world
              (get_license_info sample_scheme unpublished_catalog unpublished_id))
    as [t r] eqn:E.
  exists t, r. split; [reflexivity|].
  apply (nothing_fetched_without_repository sample_scheme unpublished_catalog
           unpublished_id github_world unpublished_info t r);
    [reflexivity| |exact E].
  right. reflexivity.
Defined.

Lemma summary_of_external_dependencies_witness :
  ∃ t infos,
    run github_world
      (dependency_summary_of sample_scheme logins_catalog [logins_id; rusqlite_id])
    = (t, Ok infos)
    ∧ Forall2 (λ id info,
                 (run github_world (get_license_info sample_scheme logins_catalog id)).2
                 = Ok info)
        [rusqlite_id] infos
    ∧ t = (run github_world (get_license_info sample_scheme logins_catalog rusqlite_id)).1
          ++ [].
Proof.
  assert (is_ok (run github_world
                   (dependency_summary_of sample_scheme logins_catalog
                      [logins_id; rusqlite_id])).2 = true)
    as Hok by (vm_compute; reflexivity).
  destruct (run github_world
              (dependency_summary_of sample_scheme logins_catalog
                 [logins_id; rusqlite_id]))
    as [t [infos|e]] eqn:E; [|discriminate Hok].
  exists t, infos. split; [reflexivity|].
  destruct (summary_of_external_dependencies sample_scheme logins_catalog
              [logins_id; rusqlite_id] github_world t infos E)
    as (Hall & Ht & _).
  split; [exact Hall|exact Ht].
Defined.
